(** * ORCID client: request executor, search iterator and identifier utilities

    A shallow embedding of the Go package [orcid]
    (the client and the search sources) and the properties of its
    request core.

    Conventions of the embedding:
    - Go's [int] and [time.Duration] are 64-bit two's complement integers,
      modelled as [Z] with the wrap-around of [+] and [*] written out
      ([int_add], [int_mul]).
    - Go strings are byte strings, modelled as [string].  The functions of
      the standard package [strings] are embedded on their ASCII path; the
      Unicode tables of [strings.ToUpper] and [strings.TrimSpace] are not
      part of the model, and the theorems that depend on them are stated
      for ASCII input ([is_ascii]).
    - Everything outside the process (the HTTP transport, the cancellation
      signal of the [context.Context], the structured decoders) is a field
      of the record [World]; the code is run against a world by explicit
      state passing, and every observable step is appended to a trace.
    - A panic is the result [None] of a function into [option]
      ([NewTicker], [applyOption], [construct]).
    - A request body is the [io.Reader] object ([Reader]), not its
      content. *)

From Stdlib Require Import ZArith Ascii.
From Stdlib Require String DecimalString DecimalZ.
From stdpp Require Import base gmap strings list sorting.

Local Open Scope Z_scope.

(* ===================================================================== *)
(** * Machine integers *)
(* ===================================================================== *)

Module GoInt.

Definition min_int : Z := - 2 ^ 63.
Definition max_int : Z := 2 ^ 63 - 1.

(** Reduction of a mathematical integer to the value a 64-bit signed
    register holds. *)
Definition wrap (z : Z) : Z := (z + 2 ^ 63) mod 2 ^ 64 - 2 ^ 63.

Definition int_add (a b : Z) : Z := wrap (a + b).
Definition int_mul (a b : Z) : Z := wrap (a * b).

(** [fmt.Sprintf("%d", n)] and [strconv.Itoa]. *)
Definition itoa (n : Z) : string :=
  DecimalString.NilZero.string_of_int (Z.to_int n).

(** The number a decimal numeral stands for; [None] when the string is
    not one. *)
Definition atoi (s : string) : option Z :=
  match DecimalString.NilZero.int_of_string s with
  | Some d => Some (Z.of_int d)
  | None => None
  end.

End GoInt.
Export GoInt.

(* ===================================================================== *)
(** * Package [strings], ASCII path *)
(* ===================================================================== *)

Module Strings.

Definition byte_eqb (a b : ascii) : bool := Ascii.eqb a b.

(** Bytes below [utf8.RuneSelf]. *)
Definition ascii_byte (c : ascii) : bool :=
  match c with Ascii _ _ _ _ _ _ _ b7 => negb b7 end.

Fixpoint is_ascii (s : string) : bool :=
  match s with
  | EmptyString => true
  | String c r => ascii_byte c && is_ascii r
  end.

(** The table [asciiSpace] of package strings: tab, newline, vertical
    tab, form feed, carriage return, space. *)
Definition isSpace (c : ascii) : bool :=
  let n := N_of_ascii c in
  ((9 <=? n) && (n <=? 13) || (n =? 32))%N.

Fixpoint TrimLeftSpace (s : string) : string :=
  match s with
  | EmptyString => EmptyString
  | String c r => if isSpace c then TrimLeftSpace r else s
  end.

Fixpoint TrimRightSpace (s : string) : string :=
  match s with
  | EmptyString => EmptyString
  | String c r =>
      match TrimRightSpace r with
      | EmptyString => if isSpace c then EmptyString else String c EmptyString
      | r' => String c r'
      end
  end.

(** Strings of white space only. *)
Fixpoint allSpace (s : string) : bool :=
  match s with
  | EmptyString => true
  | String c r => isSpace c && allSpace r
  end.

(** [strings.TrimSpace]: leading white space is skipped, then trailing. *)
Definition TrimSpace (s : string) : string :=
  TrimRightSpace (TrimLeftSpace s).

(** [strings.HasPrefix]. *)
Definition HasPrefix (s prefix : string) : bool := String.prefix prefix s.

(** [strings.Split(s, sep)] for a separator of one byte, the only form
    this package calls.  The result is never empty. *)
Fixpoint Split (s : string) (sep : ascii) : list string :=
  match s with
  | EmptyString => [EmptyString]
  | String c r =>
      if byte_eqb c sep then EmptyString :: Split r sep
      else match Split r sep with
           | h :: t => String c h :: t
           | [] => [String c EmptyString]
           end
  end.

(** [strings.ReplaceAll(s, old, new)] for [old] of one byte. *)
Fixpoint ReplaceAll (s : string) (old : ascii) (new : string) : string :=
  match s with
  | EmptyString => EmptyString
  | String c r =>
      if byte_eqb c old then new +:+ ReplaceAll r old new
      else String c (ReplaceAll r old new)
  end.

Definition upper (c : ascii) : ascii :=
  let n := N_of_ascii c in
  if ((97 <=? n) && (n <=? 122))%N then ascii_of_N (n - 32) else c.

(** [strings.ToUpper] on ASCII input. *)
Fixpoint ToUpper (s : string) : string :=
  match s with
  | EmptyString => EmptyString
  | String c r => String (upper c) (ToUpper r)
  end.

(** [strings.Contains(s, substr)] for [substr] of one byte. *)
Fixpoint ContainsByte (s : string) (c : ascii) : bool :=
  match s with
  | EmptyString => false
  | String d r => byte_eqb d c || ContainsByte r c
  end.

(** [len(s)] as a Go int. *)
Definition len (s : string) : Z := Z.of_nat (String.length s).

(** The slice expression [s[lo:hi]] for [0 <= lo <= hi <= len(s)]. *)
Definition slice (s : string) (lo hi : nat) : string :=
  String.substring lo (hi - lo) s.

End Strings.
Export Strings.

(* ===================================================================== *)
(** * Identifier utilities (search source) *)
(* ===================================================================== *)

(** [parts[len(parts)-1]]; [Split] never returns an empty slice, so the
    default is not reached. *)
Definition last_part (parts : list string) : string :=
  List.last parts EmptyString.

Definition ParseOrcidID (input : string) : string :=
  let input := TrimSpace input in
  let early :=
    if HasPrefix input "http://" || HasPrefix input "https://" then
      let parts := Split input "/" in
      if (0 <? Z.of_nat (length parts)) then Some (last_part parts) else None
    else None in
  match early with
  | Some r => r
  | None => let parts := Split input "/" in last_part parts
  end.

Definition FormatOrcidID (orcid : string) : string :=
  let orcid := ParseOrcidID orcid in
  let orcid := ToUpper (ReplaceAll orcid "-" "") in
  if len orcid =? 16 then
    slice orcid 0 4 +:+ "-" +:+ slice orcid 4 8 +:+ "-" +:+
    slice orcid 8 12 +:+ "-" +:+ slice orcid 12 16
  else orcid.

(* ===================================================================== *)
(** * Package [net/url]: query escaping and [url.Values] *)
(* ===================================================================== *)

Module URL.

Definition between (lo hi n : N) : bool := ((lo <=? n) && (n <=? hi))%N.

(** [shouldEscape(c, encodeQueryComponent)]: letters, digits and the four
    marks [-_.~] are kept, every other byte is escaped. *)
Definition shouldEscape (c : ascii) : bool :=
  let n := N_of_ascii c in
  negb (between 97 122 n || between 65 90 n || between 48 57 n ||
        byte_eqb c "-" || byte_eqb c "_" || byte_eqb c "." || byte_eqb c "~").

(** One digit of the table [upperhex]. *)
Definition upperhex (n : N) : ascii :=
  if (n <? 10)%N then ascii_of_N (48 + n) else ascii_of_N (55 + n).

Definition escapeByte (c : ascii) : string :=
  if byte_eqb c " " then "+"
  else if shouldEscape c then
    let n := N_of_ascii c in
    String "%" (String (upperhex (n / 16)) (String (upperhex (n mod 16)) ""))
  else String c "".

(** [url.QueryEscape]. *)
Fixpoint QueryEscape (s : string) : string :=
  match s with
  | EmptyString => EmptyString
  | String c r => escapeByte c +:+ QueryEscape r
  end.

(** [url.Values] is [map[string][]string]. *)
Abbreviation Values := (gmap string (list string)).

(** [Values.Set]: the key is bound to the single value. *)
Definition Set_ (v : Values) (key value : string) : Values :=
  <[key := [value]]> v.

(** [Values.Get]: the first value of the key, or the empty string. *)
Definition Get (v : Values) (key : string) : string :=
  match v !! key with
  | Some (x :: _) => x
  | _ => ""
  end.

Fixpoint join (parts : list string) (sep : string) : string :=
  match parts with
  | [] => ""
  | [p] => p
  | p :: rest => p +:+ sep +:+ join rest sep
  end.

(** The keys of the map in byte-wise lexicographic order
    ([slices.Sorted(maps.Keys(v))]). *)
Definition sortedKeys (v : Values) : list string :=
  merge_sort String.le (fst <$> map_to_list v).

(** [Values.Encode]: [key=value] pairs, keys sorted, joined by "&". *)
Definition Encode (v : Values) : string :=
  join
    (flat_map
       (fun k => (fun x => QueryEscape k +:+ "=" +:+ QueryEscape x)
                   <$> default [] (v !! k))
       (sortedKeys v))
    "&".

(** [strings.Cut(s, sep)] for a separator of one byte: the text before
    the first [sep], the text after it, and whether [sep] was found. *)
Fixpoint Cut (s : string) (sep : ascii) : string * string * bool :=
  match s with
  | EmptyString => (EmptyString, EmptyString, false)
  | String c r =>
      if byte_eqb c sep then (EmptyString, r, true)
      else let '(before, after, found) := Cut r sep in
           (String c before, after, found)
  end.

(** [unhex], with [None] for a byte that is no hexadecimal digit. *)
Definition unhex (c : ascii) : option N :=
  let n := N_of_ascii c in
  if between 48 57 n then Some (n - 48)%N
  else if between 97 102 n then Some (n - 87)%N
  else if between 65 70 n then Some (n - 55)%N
  else None.

(** [url.QueryUnescape]; [None] is the escape error. *)
Fixpoint QueryUnescape (s : string) : option string :=
  match s with
  | EmptyString => Some EmptyString
  | String c r =>
      if byte_eqb c "%" then
        match r with
        | String a (String b r') =>
            match unhex a, unhex b with
            | Some hi, Some lo =>
                String (ascii_of_N (16 * hi + lo)) <$> QueryUnescape r'
            | _, _ => None
            end
        | _ => None
        end
      else if byte_eqb c "+" then String " "%char <$> QueryUnescape r
      else String c <$> QueryUnescape r
  end.

(** One round of the loop of [parseQuery]: pairs with a semicolon, empty
    pairs and pairs with a bad escape are skipped. *)
Definition parsePair (m : Values) (pair : string) : Values :=
  if ContainsByte pair ";" then m
  else if String.eqb pair "" then m
  else
    let '(key, value, _) := Cut pair "=" in
    match QueryUnescape key, QueryUnescape value with
    | Some key, Some value => <[key := default [] (m !! key) ++ [value]]> m
    | _, _ => m
    end.

(** [url.ParseQuery], as [URL.Query] uses it: the error is dropped. *)
Definition ParseQuery (query : string) : Values :=
  foldl parsePair ∅ (Split query "&").

(** The [RawQuery] of a parsed URL: what stands between the first "?" and
    the fragment. *)
Definition RawQuery (url : string) : string :=
  let '(rest, _, _) := Cut url "#" in
  let '(_, query, _) := Cut rest "?" in
  query.

(** [r.URL.Query()] on the side of the server. *)
Definition Query_ (url : string) : Values := ParseQuery (RawQuery url).

End URL.

(* ===================================================================== *)
(** * Data model (client and search sources) *)
(* ===================================================================== *)

(** [time.Duration] counts nanoseconds. *)
Definition Second : Z := 1000000000.

Definition DefaultAPIURL : string := "https://pub.orcid.org/v3.0".
Definition DefaultTimeout : Z := 30 * Second.
Definition DefaultMaxRetries : Z := 3.
Definition DefaultRateLimit : Z := 10.

(** [ContentType] is a string type; any string can be converted to it. *)
Definition ContentTypeJSON : string := "application/json".
Definition ContentTypeXML : string := "application/vnd.orcid+xml".

(** A [*time.Ticker], identified by its period. *)
Record Ticker := { period : Z }.

(** A [*Client] whose [httpClient] is not nil (see [Draft] for the
    other ones). *)
Record Client := {
  httpTimeout : Z;              (* httpClient.Timeout *)
  apiURL : string;
  timeout : Z;
  maxRetries : Z;
  rateLimit : Z;
  userAgent : string;
  contentType : string;
  rateLimiter : option Ticker;  (* nil when absent *)
  bearerToken : string
}.

(** A [ClientOption] value: what the constructors of the package return,
    and the nil function ([NilOption]).  [WithHTTPClient] is given a
    [*http.Client]: [None] is the nil pointer, [Some t] a client whose
    [Timeout] is [t]. *)
Inductive ClientOption :=
| WithHTTPClient (client : option Z)
| WithAPIURL (url : string)
| WithTimeout (timeout : Z)
| WithMaxRetries (maxRetries : Z)
| WithRateLimit (requestsPerSecond : Z)
| WithUserAgent (userAgent : string)
| WithContentType (contentType : string)
| WithBearerToken (token : string)
| NilOption.

(** [time.NewTicker(d)] panics when [d <= 0]; [None] stands for the panic. *)
Definition NewTicker (d : Z) : option Ticker :=
  if d <=? 0 then None else Some {| period := d |}.

(** [strings.TrimRight(s, "/")]. *)
Fixpoint TrimRightSlash (s : string) : string :=
  match s with
  | EmptyString => EmptyString
  | String c r =>
      match TrimRightSlash r with
      | EmptyString => if byte_eqb c "/" then EmptyString else String c EmptyString
      | r' => String c r'
      end
  end.

Definition set_rateLimiter (c : Client) (t : option Ticker) : Client :=
  {| httpTimeout := httpTimeout c; apiURL := apiURL c; timeout := timeout c;
     maxRetries := maxRetries c; rateLimit := rateLimit c;
     userAgent := userAgent c; contentType := contentType c;
     rateLimiter := t; bearerToken := bearerToken c |}.

(** The [*Client] while and after [NewClient] builds it.  [transport]
    tells whether its [httpClient] is a client ([true]) or nil ([false]);
    [fields] holds the other fields, and [httpTimeout] in it is the
    [Timeout] of the [httpClient] while there is one.  A [Client] is the
    fields of a draft with a transport. *)
Record Draft := { fields : Client; transport : bool }.

Definition set_fields (d : Draft) (c : Client) : Draft :=
  {| fields := c; transport := transport d |}.

(** One functional option applied to the client under construction;
    [None] is a panic: the call of a nil function, the write through a nil
    [httpClient] in [WithTimeout], or the panic of a ticker constructor. *)
Definition applyOption (opt : ClientOption) (d : Draft) : option Draft :=
  let c := fields d in
  match opt with
  | WithHTTPClient None => Some {| fields := c; transport := false |}
  | WithHTTPClient (Some t) =>
      Some {| fields :=
                {| httpTimeout := t; apiURL := apiURL c; timeout := timeout c;
                   maxRetries := maxRetries c; rateLimit := rateLimit c;
                   userAgent := userAgent c; contentType := contentType c;
                   rateLimiter := rateLimiter c;
                   bearerToken := bearerToken c |};
              transport := true |}
  | WithAPIURL url =>
      Some (set_fields d
              {| httpTimeout := httpTimeout c; apiURL := TrimRightSlash url;
                 timeout := timeout c; maxRetries := maxRetries c;
                 rateLimit := rateLimit c; userAgent := userAgent c;
                 contentType := contentType c; rateLimiter := rateLimiter c;
                 bearerToken := bearerToken c |})
  | WithTimeout t =>
      if transport d then
        Some (set_fields d
                {| httpTimeout := t; apiURL := apiURL c; timeout := t;
                   maxRetries := maxRetries c; rateLimit := rateLimit c;
                   userAgent := userAgent c; contentType := contentType c;
                   rateLimiter := rateLimiter c;
                   bearerToken := bearerToken c |})
      else None
  | WithMaxRetries n =>
      Some (set_fields d
              {| httpTimeout := httpTimeout c; apiURL := apiURL c;
                 timeout := timeout c; maxRetries := n;
                 rateLimit := rateLimit c; userAgent := userAgent c;
                 contentType := contentType c; rateLimiter := rateLimiter c;
                 bearerToken := bearerToken c |})
  | WithRateLimit n =>
      let c := {| httpTimeout := httpTimeout c; apiURL := apiURL c;
                  timeout := timeout c; maxRetries := maxRetries c;
                  rateLimit := n; userAgent := userAgent c;
                  contentType := contentType c; rateLimiter := rateLimiter c;
                  bearerToken := bearerToken c |} in
      if 0 <? n then
        t ← NewTicker (Z.quot Second n);
        Some (set_fields d (set_rateLimiter c (Some t)))
      else Some (set_fields d c)
  | WithUserAgent ua =>
      Some (set_fields d
              {| httpTimeout := httpTimeout c; apiURL := apiURL c;
                 timeout := timeout c; maxRetries := maxRetries c;
                 rateLimit := rateLimit c; userAgent := ua;
                 contentType := contentType c; rateLimiter := rateLimiter c;
                 bearerToken := bearerToken c |})
  | WithContentType ct =>
      Some (set_fields d
              {| httpTimeout := httpTimeout c; apiURL := apiURL c;
                 timeout := timeout c; maxRetries := maxRetries c;
                 rateLimit := rateLimit c; userAgent := userAgent c;
                 contentType := ct; rateLimiter := rateLimiter c;
                 bearerToken := bearerToken c |})
  | WithBearerToken tok =>
      Some (set_fields d
              {| httpTimeout := httpTimeout c; apiURL := apiURL c;
                 timeout := timeout c; maxRetries := maxRetries c;
                 rateLimit := rateLimit c; userAgent := userAgent c;
                 contentType := contentType c; rateLimiter := rateLimiter c;
                 bearerToken := tok |})
  | NilOption => None
  end.

Fixpoint applyOptions (opts : list ClientOption) (d : Draft) : option Draft :=
  match opts with
  | [] => Some d
  | opt :: rest => d' ← applyOption opt d; applyOptions rest d'
  end.

(** The body of [NewClient(opts...)]: the defaults, the options in order,
    the ticker of the final rate.  [None] is a panic; [Some d] is the
    [*Client] that is returned, whose [httpClient] is nil when
    [transport d] is false. *)
Definition construct (opts : list ClientOption) : option Draft :=
  let c := {| httpTimeout := DefaultTimeout; apiURL := DefaultAPIURL;
              timeout := DefaultTimeout; maxRetries := DefaultMaxRetries;
              rateLimit := DefaultRateLimit; userAgent := "";
              contentType := ContentTypeJSON; rateLimiter := None;
              bearerToken := "" |} in
  d ← applyOptions opts {| fields := c; transport := true |};
  if 0 <? rateLimit (fields d) then
    t ← NewTicker (Z.quot Second (rateLimit (fields d)));
    Some (set_fields d (set_rateLimiter (fields d) (Some t)))
  else Some d.

(** [NewClient(opts...)] as far as it returns a client with a transport:
    [None] when it panics, and when the client it returns has a nil
    [httpClient], whose every transport call would dereference nil. *)
Definition NewClient (opts : list ClientOption) : option Client :=
  d ← construct opts;
  if transport d then Some (fields d) else None.

Record SearchParams := { Query : string; Start : Z; Rows : Z }.

Record OrcidIdentifier := { URI : string; Path : string; Host : string }.

Record SearchRecord := { Identifier : option OrcidIdentifier }.

(** [Results] is a slice of pointers; [None] is a nil element. *)
Record SearchResult := {
  NumFound : Z;
  ResultStart : Z;
  NumRows : Z;
  Results : list (option SearchRecord)
}.

(** The [url.Values] that [buildSearchURL] fills in. *)
Definition searchValues (params : SearchParams) : URL.Values :=
  let queryParams : URL.Values := ∅ in
  let queryParams := URL.Set_ queryParams "q" (Query params) in
  let queryParams :=
    if 0 <? Start params
    then URL.Set_ queryParams "start" (itoa (Start params))
    else queryParams in
  if 0 <? Rows params
  then URL.Set_ queryParams "rows" (itoa (Rows params))
  else URL.Set_ queryParams "rows" "10".

Definition buildSearchURL (c : Client) (params : SearchParams) : string :=
  let baseURL := apiURL c +:+ "/search" in
  baseURL +:+ "?" +:+ URL.Encode (searchValues params).

(* ===================================================================== *)
(** * The world outside the process *)
(* ===================================================================== *)

Inductive ctxError := Canceled | DeadlineExceeded.

(** A response body: what [io.ReadAll] returns for it. *)
Record Body := { data : string; readErr : option string }.

Record Response := { StatusCode : Z; Status : string; RespBody : Body }.

(** An [io.Reader] given as the body of a call.  It stands for the reader
    itself, the object, not for the bytes it yields: the loop of
    [doRequest] hands the one reader it was given to
    [http.NewRequestWithContext] in every pass, so each request is built
    around the same reader, and a reader that an earlier attempt has
    drained has nothing left for a later one.  What a transport reads
    from it is the transport's affair ([roundTrip]).  Every call in this
    package passes nil. *)
Inductive Reader := ReaderAt (addr : nat).

(** [ReqBody] is the reader the request was built around; [None] is
    nil. *)
Record Request := {
  Method : string;
  ReqURL : string;
  ReqBody : option Reader;
  Header : gmap string (list string)
}.

(** What [httpClient.Do] returns: an error, or a response. *)
Inductive Outcome :=
| ConnError (msg : string)
| Responded (resp : Response).

Inductive error :=
| ErrBearerToken
| ErrContext (e : ctxError)
| ErrNewRequest (msg : string)
| ErrTransport (msg : string)
| ErrRetryable (code : Z) (status : string)
| ErrHTTP (code : Z) (status body : string)
| ErrMaxRetries (cause : error)
| ErrMaxRetriesNil
| ErrRead (msg : string)
| ErrUnmarshal (msg : string)
| ErrContentType (contentType : string).

(** The message of an error value, [err.Error()]. *)
Fixpoint Error_ (e : error) : string :=
  match e with
  | ErrBearerToken =>
      "bearer token is required for ORCID API requests. Use WithBearerToken() when creating the client"
  | ErrContext Canceled => "context canceled"
  | ErrContext DeadlineExceeded => "context deadline exceeded"
  | ErrNewRequest msg => msg
  | ErrTransport msg => msg
  | ErrRetryable code status => "HTTP " +:+ itoa code +:+ ": " +:+ status
  | ErrHTTP code status body =>
      "HTTP " +:+ itoa code +:+ ": " +:+ status +:+ " - " +:+ body
  | ErrMaxRetries cause => "max retries exceeded: " +:+ Error_ cause
  | ErrMaxRetriesNil => "max retries exceeded: %!w(<nil>)"
  | ErrRead msg => msg
  | ErrUnmarshal msg => msg
  | ErrContentType ct => "unsupported content type: " +:+ ct
  end.

(** [errors.Unwrap]: only the [%w] verb of the exhaustion error wraps. *)
Definition Unwrap (e : error) : option error :=
  match e with
  | ErrMaxRetries cause => Some cause
  | _ => None
  end.

(** [fmt.Errorf("max retries exceeded: %w", lastErr)]; [lastErr] is nil
    when the loop body never ran. *)
Definition maxRetriesExceeded (lastErr : option error) : error :=
  match lastErr with
  | Some cause => ErrMaxRetries cause
  | None => ErrMaxRetriesNil
  end.

Inductive Result (A : Type) :=
| Ok (a : A)
| Err (e : error).
Arguments Ok {A} a.
Arguments Err {A} e.

(** The collaborators of the request core.  [roundTrip n req] is the
    outcome of the [n]-th call of [httpClient.Do] (counted from 0 over
    the life of the world).  [ctxDone n] tells whether the [n]-th
    [select] that listens on [ctx.Done()] takes that branch.  A blocking
    select takes the branch of the channel that is ready first, and
    either branch when both are ready: a context that is done makes the
    branch possible, not certain, while the other channel has a value.
    The select with a [default] takes the branch exactly when the signal
    has fired already. *)
Record World := {
  roundTrip : nat -> Request -> Outcome;
  ctxDone : nat -> bool;
  ctxErr : ctxError;
  newRequestErr : string -> string -> option string;
  jsonUnmarshal : string -> Result SearchResult;
  xmlUnmarshal : string -> Result SearchResult
}.

Inductive Event :=
| EvPermit                 (* a tick was received from rateLimiter.C *)
| EvBackoff (d : Z)        (* the timer of time.After(d) delivered *)
| EvDo (req : Request)     (* httpClient.Do(req) was called *)
| EvSearch (p : SearchParams) (* Client.Search was entered *)
| EvCancelled.             (* a select took the ctx.Done() branch *)

(** [calls]: calls of [httpClient.Do] so far; [selects]: selects on
    [ctx.Done()] so far; [trace]: the events in the order they happened. *)
Record State := { calls : nat; selects : nat; trace : list Event }.

Definition initial : State := {| calls := 0; selects := 0; trace := [] |}.

Definition emit (ev : Event) (st : State) : State :=
  {| calls := calls st; selects := selects st; trace := trace st ++ [ev] |}.

(** A [select] between [ctx.Done()] and one other channel (or [default]);
    [ev] is what the other branch amounts to.  Returns [true] when the
    [ctx.Done()] branch is taken. *)
Definition selectCtx (w : World) (other : option Event) (st : State)
  : bool * State :=
  let fired := ctxDone w (selects st) in
  let st := {| calls := calls st; selects := S (selects st);
               trace := trace st |} in
  (fired,
   match (if fired then Some EvCancelled else other) with
   | Some ev => emit ev st
   | None => st
   end).

(** [c.httpClient.Do(req)]. *)
Definition Do (w : World) (req : Request) (st : State) : Outcome * State :=
  (roundTrip w (calls st) req,
   {| calls := S (calls st); selects := selects st;
      trace := trace st ++ [EvDo req] |}).

(* ===================================================================== *)
(** * Request executor (client.go) *)
(* ===================================================================== *)

(** The request the loop body sends: method and URL as given, built
    around the reader [body], with the three headers of
    [req.Header.Set]. *)
Definition withHeaders (c : Client) (method url : string)
    (body : option Reader) : Request :=
  let header : gmap string (list string) := ∅ in
  let header := <["User-Agent" := [userAgent c]]> header in
  let header := <["Accept" := [contentType c]]> header in
  let header := <["Authorization" := ["Bearer " +:+ bearerToken c]]> header in
  {| Method := method; ReqURL := url; ReqBody := body; Header := header |}.

(** [http.NewRequestWithContext] followed by the three [Header.Set]. *)
Definition newRequest (w : World) (c : Client) (method url : string)
    (body : option Reader) : Result Request :=
  match newRequestErr w method url with
  | Some msg => Err (ErrNewRequest msg)
  | None => Ok (withHeaders c method url body)
  end.

(** [time.Duration(attempt*attempt) * time.Second]. *)
Definition backoff (attempt : Z) : Z :=
  int_mul (int_mul attempt attempt) Second.

(** The status codes the loop retries. *)
Definition retryStatus (code : Z) : bool :=
  (code =? 429) || (code =? 408) || ((500 <=? code) && (code <? 600)).

(** How one pass through the loop body ends: [continue] with a new
    [lastErr], or [return]. *)
Inductive Pass :=
| Continue (lastErr : error)
| Return (r : Result Response).

(** The end of the loop body, from the test of the error of
    [httpClient.Do] on. *)
Definition classify (out : Outcome) : Pass :=
  match out with
  | ConnError msg => Continue (ErrTransport msg)
  | Responded resp =>
      if StatusCode resp =? 200 then Return (Ok resp)
      else if retryStatus (StatusCode resp)
      then Continue (ErrRetryable (StatusCode resp) (Status resp))
      else Return (Err (ErrHTTP (StatusCode resp) (Status resp)
                          (data (RespBody resp))))
  end.

(** The body of the [for] loop of [doRequest] for one value of [attempt].
    Every pass builds its request around the same reader [body]; the
    outcome of the transport call is [roundTrip] at the number of the
    call, so that a world is free to answer a retry, whose reader the
    earlier attempt has read from, differently. *)
Definition attemptOnce (w : World) (c : Client) (method url : string)
    (body : option Reader) (attempt : Z) (st : State) : Pass * State :=
  let '(fired, st) :=
    if 0 <? attempt
    then selectCtx w (Some (EvBackoff (backoff attempt))) st
    else (false, st) in
  if fired then (Return (Err (ErrContext (ctxErr w))), st) else
  match newRequest w c method url body with
  | Err e => (Return (Err e), st)
  | Ok req =>
      let '(out, st) := Do w req st in
      (classify out, st)
  end.

(** [for attempt := ...; attempt <= c.maxRetries; attempt++], with [n]
    the number of passes left. *)
Fixpoint retryLoop (w : World) (c : Client) (method url : string)
    (body : option Reader) (n : nat) (attempt : Z) (lastErr : option error)
    (st : State) : Result Response * State :=
  match n with
  | O => (Err (maxRetriesExceeded lastErr), st)
  | S n' =>
      match attemptOnce w c method url body attempt st with
      | (Return r, st') => (r, st')
      | (Continue e, st') =>
          retryLoop w c method url body n' (attempt + 1) (Some e) st'
      end
  end.

(** [Client.doRequest].  The loop makes [maxRetries + 1] passes (none when
    [maxRetries] is negative); [maxRetries = max_int], for which the Go
    counter would wrap, is outside the embedding. *)
Definition doRequest (w : World) (c : Client) (method url : string)
    (body : option Reader) (st : State) : Result Response * State :=
  if String.eqb (bearerToken c) "" then (Err ErrBearerToken, st) else
  let '(fired, st) :=
    match rateLimiter c with
    | Some _ => selectCtx w (Some EvPermit) st
    | None => (false, st)
    end in
  if fired then (Err (ErrContext (ctxErr w)), st) else
  retryLoop w c method url body (Z.to_nat (maxRetries c + 1)) 0 None st.

(** [Client.unmarshalResponse] for a [*SearchResult] target. *)
Definition unmarshalResponse (w : World) (c : Client) (bytes : string)
  : Result SearchResult :=
  if String.eqb (contentType c) ContentTypeJSON then jsonUnmarshal w bytes
  else if String.eqb (contentType c) ContentTypeXML then xmlUnmarshal w bytes
  else Err (ErrContentType (contentType c)).

(* ===================================================================== *)
(** * Search and its iterator (search source) *)
(* ===================================================================== *)

Definition Search (w : World) (c : Client) (params : SearchParams)
    (st : State) : Result SearchResult * State :=
  let st := emit (EvSearch params) st in
  let searchURL := buildSearchURL c params in
  match doRequest w c "GET" searchURL None st with
  | (Err e, st) => (Err e, st)
  | (Ok resp, st) =>
      match readErr (RespBody resp) with
      | Some msg => (Err (ErrRead msg), st)
      | None => (unmarshalResponse w c (data (RespBody resp)), st)
      end
  end.

Record SearchIterator := {
  client : Client;
  params : SearchParams;
  currentBatch : option SearchResult;
  currentIndex : Z;
  totalResults : Z;
  err : option error
}.

(** [Client.SearchIter]. *)
Definition SearchIter (c : Client) (p : SearchParams) : SearchIterator :=
  {| client := c; params := p; currentBatch := None; currentIndex := -1;
     totalResults := 0; err := None |}.

Definition lenResults (r : SearchResult) : Z := Z.of_nat (length (Results r)).

Definition set_err (si : SearchIterator) (e : error) : SearchIterator :=
  {| client := client si; params := params si;
     currentBatch := currentBatch si; currentIndex := currentIndex si;
     totalResults := totalResults si; err := Some e |}.

Definition set_params (si : SearchIterator) (p : SearchParams)
  : SearchIterator :=
  {| client := client si; params := p;
     currentBatch := currentBatch si; currentIndex := currentIndex si;
     totalResults := totalResults si; err := err si |}.

(** The three assignments after a successful fetch. *)
Definition set_batch (si : SearchIterator) (result : SearchResult)
  : SearchIterator :=
  {| client := client si; params := params si;
     currentBatch := Some result; currentIndex := -1;
     totalResults := NumFound result; err := err si |}.

Definition set_index (si : SearchIterator) (i : Z) : SearchIterator :=
  {| client := client si; params := params si;
     currentBatch := currentBatch si; currentIndex := i;
     totalResults := totalResults si; err := err si |}.

(** The condition of the refill branch:
    [si.currentBatch == nil || si.currentIndex >= len(si.currentBatch.Results)-1]. *)
Definition needBatch (si : SearchIterator) : bool :=
  match currentBatch si with
  | None => true
  | Some b => lenResults b - 1 <=? currentIndex si
  end.

(** Where the refill branch of [Next] leaves: by [return false], or by
    falling through to the increment. *)
Inductive Refill :=
| Stop (si : SearchIterator)
| Proceed (si : SearchIterator).

(** The first half of the refill branch: with a batch at hand, stop when
    [Start + Rows >= totalResults], else move [Start] on by [Rows];
    without one, fetch with the parameters as they are.  [None] is the
    [return false]. *)
Definition nextPage (si : SearchIterator) : option SearchIterator :=
  match currentBatch si with
  | Some _ =>
      if totalResults si <=? int_add (Start (params si)) (Rows (params si))
      then None
      else Some (set_params si
                   {| Query := Query (params si);
                      Start := int_add (Start (params si)) (Rows (params si));
                      Rows := Rows (params si) |})
  | None => Some si
  end.

(** The refill branch of [Next]. *)
Definition refill (w : World) (si : SearchIterator) (st : State)
  : Refill * State :=
  match nextPage si with
  | None => (Stop si, st)
  | Some si =>
      match Search w (client si) (params si) st with
      | (Err e, st) => (Stop (set_err si e), st)
      | (Ok result, st) =>
          let si := set_batch si result in
          if lenResults result =? 0 then (Stop si, st) else (Proceed si, st)
      end
  end.

(** [SearchIterator.Next].  The context of the iterator is the one of the
    world. *)
Definition Next (w : World) (si : SearchIterator) (st : State)
  : (bool * SearchIterator) * State :=
  match err si with
  | Some _ => ((false, si), st)
  | None =>
      let '(fired, st) := selectCtx w None st in
      if fired then ((false, set_err si (ErrContext (ctxErr w))), st) else
      let '(r, st) :=
        if needBatch si then refill w si st else (Proceed si, st) in
      match r with
      | Stop si => ((false, si), st)
      | Proceed si =>
          let si := set_index si (int_add (currentIndex si) 1) in
          ((match currentBatch si with
            | Some b => currentIndex si <? lenResults b
            | None => false
            end, si), st)
      end
  end.

(** [SearchIterator.Value]: the record under the cursor, nil when there is
    none. *)
Definition Value (si : SearchIterator) : option SearchRecord :=
  match currentBatch si with
  | None => None
  | Some b =>
      if (currentIndex si <? 0) || (lenResults b <=? currentIndex si) then None
      else mjoin (Results b !! Z.to_nat (currentIndex si))
  end.

(** [SearchIterator.Error] and [SearchIterator.TotalResults]. *)
Definition Error (si : SearchIterator) : option error := err si.
Definition TotalResults (si : SearchIterator) : Z := totalResults si.

(** The drain loop of the callers,
    [for iter.Next() { use(iter.Value(), iter.TotalResults()) }]:
    the values and totals read in the body, the iterator and the state at
    the end.  [None] when [fuel] passes did not reach the end. *)
Fixpoint drain (fuel : nat) (w : World) (si : SearchIterator) (st : State)
  : option (list (option SearchRecord * Z) * SearchIterator * State) :=
  match fuel with
  | O => None
  | S fuel' =>
      match Next w si st with
      | ((false, si'), st') => Some ([], si', st')
      | ((true, si'), st') =>
          '(seen, si'', st'') ← drain fuel' w si' st';
          Some ((Value si', TotalResults si') :: seen, si'', st'')
      end
  end.

(** [n] calls of [Next] in a row: their results, oldest first. *)
Fixpoint nextN (n : nat) (w : World) (si : SearchIterator) (st : State)
  : list bool * SearchIterator * State :=
  match n with
  | O => ([], si, st)
  | S n' =>
      let '((b, si'), st') := Next w si st in
      let '(bs, si'', st'') := nextN n' w si' st' in
      (b :: bs, si'', st'')
  end.

(** The page fetches and the transport calls recorded in a trace. *)
Definition fetches (tr : list Event) : list SearchParams :=
  omap (fun ev => match ev with EvSearch p => Some p | _ => None end) tr.

Definition attempts (tr : list Event) : list Request :=
  omap (fun ev => match ev with EvDo r => Some r | _ => None end) tr.

Definition permits (tr : list Event) : nat :=
  length (omap (fun ev => match ev with EvPermit => Some () | _ => None end) tr).

(* ===================================================================== *)
(** * Vocabulary of the statements *)
(* ===================================================================== *)

(** The outcomes named retryable: a transport error, or a response with
    status 429, 408 or 5xx. *)
Definition retryable (out : Outcome) : bool :=
  match out with
  | ConnError _ => true
  | Responded resp => retryStatus (StatusCode resp)
  end.

(** The statuses that are neither success nor retried. *)
Definition terminalStatus (code : Z) : bool :=
  negb (code =? 200) && negb (retryStatus code).

(** The error a retryable outcome leaves in [lastErr]. *)
Definition cause (out : Outcome) : error :=
  match out with
  | ConnError msg => ErrTransport msg
  | Responded resp => ErrRetryable (StatusCode resp) (Status resp)
  end.

(** The events of [k] passes of the loop that start at [attempt], each a
    completed backoff wait followed by a transport call. *)
Fixpoint passes (req : Request) (attempt : Z) (k : nat) : list Event :=
  match k with
  | O => []
  | S k' => EvBackoff (backoff attempt) :: EvDo req :: passes req (attempt + 1) k'
  end.

(** The events of a call whose first [j] transport calls were made:
    the first without a wait, each later one after its backoff. *)
Definition runEvents (req : Request) (j : nat) : list Event :=
  match j with
  | O => []
  | S j' => EvDo req :: passes req 1 j'
  end.

(** The state [j] transport calls into the loop entered at [st]. *)
Definition after (req : Request) (st : State) (j : nat) : State :=
  {| calls := calls st + j; selects := selects st + pred j;
     trace := trace st ++ runEvents req j |}.

(** The state in which [doRequest] enters its loop when the permit wait,
    if there is one, was not cancelled. *)
Definition entered (c : Client) (st : State) : State :=
  match rateLimiter c with
  | Some _ =>
      {| calls := calls st; selects := S (selects st);
         trace := trace st ++ [EvPermit] |}
  | None => st
  end.

(** A call that went from [st] to [st'] made exactly [k] transport calls,
    all with the request [req]. *)
Definition issued (req : Request) (k : nat) (st st' : State) : Prop :=
  calls st' = (calls st + k)%nat /\
  attempts (trace st') = attempts (trace st) ++ replicate k req.

(** The classes of HTTP status codes, in the words of the specification:
    exactly 200 is success; 429, 408 and 5xx are retried; every other
    status is a terminal failure. *)
Inductive StatusClass := Success | Retried | Terminal.

Definition statusClass (code : Z) : StatusClass :=
  if code =? 200 then Success
  else if (code =? 429) || (code =? 408) || ((500 <=? code) && (code <=? 599))
  then Retried
  else Terminal.

(** [st'] is reached from [st] by the events of the retry loop alone:
    backoff waits, cancellations and transport calls, [n] of the latter. *)
Definition loopRun (n : nat) (st st' : State) : Prop :=
  exists tr,
    trace st' = trace st ++ tr /\ permits tr = 0%nat /\ fetches tr = [] /\
    length (attempts tr) = n /\ calls st' = (calls st + n)%nat /\
    (selects st <= selects st')%nat.

(** Between [st] and [st'] the transport was not called and no permit
    was awaited. *)
Definition noIO (st st' : State) : Prop :=
  calls st' = calls st /\
  attempts (trace st') = attempts (trace st) /\
  permits (trace st') = permits (trace st).

(** "A permit is acquired before each physical attempt": as many permits
    as transport calls. *)
Definition permitPerAttempt (tr : list Event) : Prop :=
  permits tr = length (attempts tr).

(** The state a select on [ctx.Done()] with a [default] leaves when the
    signal has not fired. *)
Definition polled (st : State) : State :=
  {| calls := calls st; selects := S (selects st); trace := trace st |}.

(** The iterator a refill leaves. *)
Definition refilled (r : Refill) : SearchIterator :=
  match r with
  | Stop si => si
  | Proceed si => si
  end.

(** The page a paging iterator asks for next: the same query and page
    size, the offset moved on by the requested page size. *)
Definition followingPage (p : SearchParams) : SearchParams :=
  {| Query := Query p; Start := int_add (Start p) (Rows p); Rows := Rows p |}.

(* ===================================================================== *)
(** * Test doubles *)
(* ===================================================================== *)

Definition respond (code : Z) (status body : string) : Outcome :=
  Responded {| StatusCode := code; Status := status;
               RespBody := {| data := body; readErr := None |} |}.

Definition noDecoder (bytes : string) : Result SearchResult :=
  Err (ErrUnmarshal "unexpected end of JSON input").

(** A test server: the handler answers the [n]-th request; the caller's
    context is never cancelled. *)
Definition server (handler : nat -> Request -> Outcome)
    (decode : string -> Result SearchResult) : World :=
  {| roundTrip := handler; ctxDone := fun _ => false; ctxErr := Canceled;
     newRequestErr := fun _ _ => None;
     jsonUnmarshal := decode; xmlUnmarshal := noDecoder |}.

(** The same server seen through a context that is cancelled when the
    [n]-th select listens to it. *)
Definition cancelledAt (n : nat) (w : World) : World :=
  {| roundTrip := roundTrip w; ctxDone := fun i => Nat.eqb i n;
     ctxErr := Canceled; newRequestErr := newRequestErr w;
     jsonUnmarshal := jsonUnmarshal w; xmlUnmarshal := xmlUnmarshal w |}.

(** The client of the tests:
    [NewClient(WithAPIURL(server.URL+"/v3.0"), WithBearerToken("test-token"),
    WithMaxRetries(retries))]. *)
Definition testOptions (retries : Z) : list ClientOption :=
  [WithAPIURL "http://127.0.0.1:8080/v3.0"; WithBearerToken "test-token";
   WithMaxRetries retries].

Definition testClient (retries : Z) : Client :=
  {| httpTimeout := DefaultTimeout; apiURL := "http://127.0.0.1:8080/v3.0";
     timeout := DefaultTimeout; maxRetries := retries;
     rateLimit := DefaultRateLimit; userAgent := "";
     contentType := ContentTypeJSON;
     rateLimiter := Some {| period := 100000000 |};
     bearerToken := "test-token" |}.

(** [NewClient(WithRateLimit(0), WithBearerToken("test-token"))]. *)
Definition unpacedClient : Client :=
  {| httpTimeout := DefaultTimeout; apiURL := DefaultAPIURL;
     timeout := DefaultTimeout; maxRetries := DefaultMaxRetries;
     rateLimit := 0; userAgent := ""; contentType := ContentTypeJSON;
     rateLimiter := None; bearerToken := "test-token" |}.

Definition recordURL : string :=
  "http://127.0.0.1:8080/v3.0/0000-0002-1825-0097/record".

(** The server of TestRetryLogic: 429 twice, then 200. *)
Definition flakyServer : World :=
  server (fun n _ => if (n <? 2)%nat
                     then respond 429 "429 Too Many Requests" ""
                     else respond 200 "200 OK" "{}")
         noDecoder.

(** A server that answers every request with the same status. *)
Definition statusServer (code : Z) (status body : string) : World :=
  server (fun _ _ => respond code status body) noDecoder.

(** The search endpoint of TestSearchIterator: 25 results in all; two
    records at start 0 (or none given), two at start 10, one otherwise. *)
Definition searchHit (path : string) : option SearchRecord :=
  Some {| Identifier := Some {| URI := ""; Path := path; Host := "" |} |}.

Definition pagedHandler (n : nat) (req : Request) : Outcome :=
  let start := URL.Get (URL.Query_ (ReqURL req)) "start" in
  if String.eqb start "" || String.eqb start "0" then respond 200 "200 OK" "page-0"
  else if String.eqb start "10" then respond 200 "200 OK" "page-10"
  else respond 200 "200 OK" "page-20".

Definition pagedDecoder (bytes : string) : Result SearchResult :=
  if String.eqb bytes "page-0" then
    Ok {| NumFound := 25; ResultStart := 0; NumRows := 10;
          Results := [searchHit "0000-0000-0000-0001";
                      searchHit "0000-0000-0000-0002"] |}
  else if String.eqb bytes "page-10" then
    Ok {| NumFound := 25; ResultStart := 10; NumRows := 10;
          Results := [searchHit "0000-0000-0000-0003";
                      searchHit "0000-0000-0000-0004"] |}
  else if String.eqb bytes "page-20" then
    Ok {| NumFound := 25; ResultStart := 20; NumRows := 10;
          Results := [searchHit "0000-0000-0000-0005"] |}
  else noDecoder bytes.

Definition pagedServer : World := server pagedHandler pagedDecoder.

(** A search endpoint whose every page is empty, whatever total it
    reports. *)
Definition emptyServer (total : Z) : World :=
  server (fun _ _ => respond 200 "200 OK" "empty")
         (fun _ => Ok {| NumFound := total; ResultStart := 0; NumRows := 0;
                         Results := [] |}).

(** A search endpoint whose first page is empty although it reports 25
    results, and whose later pages are those of [pagedServer]. *)
Definition holedHandler (n : nat) (req : Request) : Outcome :=
  let start := URL.Get (URL.Query_ (ReqURL req)) "start" in
  if String.eqb start "" || String.eqb start "0" then respond 200 "200 OK" "hole"
  else pagedHandler n req.

Definition holedDecoder (bytes : string) : Result SearchResult :=
  if String.eqb bytes "hole" then
    Ok {| NumFound := 25; ResultStart := 0; NumRows := 0; Results := [] |}
  else pagedDecoder bytes.

Definition holedServer : World := server holedHandler holedDecoder.

Definition testParams : SearchParams :=
  {| Query := "test"; Start := 0; Rows := 10 |}.

(* ===================================================================== *)
(** * Vocabulary of the further properties *)
(* ===================================================================== *)

(** The last byte of a string, if it has one. *)
Fixpoint lastByte (s : string) : option ascii :=
  match s with
  | EmptyString => None
  | String c EmptyString => Some c
  | String _ r => lastByte r
  end.

(** Strings of slashes only. *)
Fixpoint allSlash (s : string) : bool :=
  match s with
  | EmptyString => true
  | String c r => byte_eqb c "/" && allSlash r
  end.

(** Whether [httpClient] is a client, not nil, after the options [opts]
    when it was so ([b]) before them. *)
Fixpoint transportAfter (b : bool) (opts : list ClientOption) : bool :=
  match opts with
  | [] => b
  | WithHTTPClient (Some _) :: rest => transportAfter true rest
  | WithHTTPClient None :: rest => transportAfter false rest
  | _ :: rest => transportAfter b rest
  end.

(** An option that panics where it stands, after the options [pre] of a
    fresh client: the nil function, a rate whose period is below one
    nanosecond, [WithTimeout] while [httpClient] is nil. *)
Definition panicsAfter (pre : list ClientOption) (opt : ClientOption) : Prop :=
  opt = NilOption \/
  (exists n, opt = WithRateLimit n /\ Second < n) \/
  (exists t, opt = WithTimeout t /\ transportAfter true pre = false).

(* ===================================================================== *)
(** * Identifier validation (search source) *)
(* ===================================================================== *)

(** [a - b] on Go ints. *)
Definition int_sub (a b : Z) : Z := wrap (a - b).

(** The test ['0' <= c && c <= '9'] on a byte. *)
Definition isDigit (c : ascii) : bool := URL.between 48 57 (N_of_ascii c).

(** [strconv.Atoi(string(b))] with its error dropped: the value of a
    decimal digit, 0 for any other byte. *)
Definition atoiByte (c : ascii) : Z :=
  if isDigit c then Z.of_N (N_of_ascii c) - 48 else 0.

(** The errors of [ValidateOrcidID]. *)
Inductive idError :=
| ErrLength (n : Z)
| ErrCharacter (i : Z)
| ErrCheckDigit
| ErrChecksum.

Definition idError_ (e : idError) : string :=
  match e with
  | ErrLength n => "invalid ORCID iD length: " +:+ itoa n
  | ErrCharacter i => "invalid character in ORCID iD at position " +:+ itoa i
  | ErrCheckDigit => "invalid check digit in ORCID iD"
  | ErrChecksum => "invalid ORCID iD checksum"
  end.

(** What a validation comes to: [nil], an error, or an index out of
    range. *)
Inductive Checked :=
| Valid
| Invalid (e : idError)
| Panic.

(** The loop [for i := 0; i < 15; i++ { total = (total + digit) * 2 }] of
    [isValidChecksum], from index [i] on: [s] is [orcid[i:]] and [n] the
    number of rounds left.  [None] is the index out of range. *)
Fixpoint checksumLoop (s : string) (n : nat) (total : Z) {struct n}
  : option Z :=
  match n with
  | O => Some total
  | S n' =>
      match s with
      | EmptyString => None
      | String c r => checksumLoop r n' (int_mul (int_add total (atoiByte c)) 2)
      end
  end.

(** [isValidChecksum]. *)
Definition isValidChecksum (orcid : string) : option bool :=
  total ← checksumLoop orcid 15 0;
  let remainder := Z.rem total 11 in
  let result := Z.rem (int_sub 12 remainder) 11 in
  c ← String.get 15 orcid;
  let checkDigit := String c EmptyString in
  if result =? 10 then Some (String.eqb checkDigit "X")
  else Some (String.eqb checkDigit (itoa result)).

(** The loop of [ValidateOrcidID] over the first 15 bytes, from index [i]
    on. *)
Fixpoint digitsLoop (s : string) (i : nat) (n : nat) {struct n} : Checked :=
  match n with
  | O => Valid
  | S n' =>
      match s with
      | EmptyString => Panic
      | String c r =>
          if negb (isDigit c) then Invalid (ErrCharacter (Z.of_nat i))
          else digitsLoop r (S i) n'
      end
  end.

(** [ValidateOrcidID] from the length test on. *)
Definition checkID (orcid : string) : Checked :=
  if negb (len orcid =? 16) then Invalid (ErrLength (len orcid)) else
  match digitsLoop orcid 0 15 with
  | Valid =>
      match String.get 15 orcid with
      | None => Panic
      | Some lastChar =>
          if negb (isDigit lastChar) && negb (byte_eqb lastChar "X")
          then Invalid ErrCheckDigit
          else match isValidChecksum orcid with
               | None => Panic
               | Some false => Invalid ErrChecksum
               | Some true => Valid
               end
      end
  | r => r
  end.

Definition ValidateOrcidID (orcid : string) : Checked :=
  let orcid := ParseOrcidID orcid in
  let orcid := ReplaceAll orcid "-" "" in
  checkID orcid.

(** The value of a character of an identifier: a digit counts itself,
    [X] counts ten. *)
Definition charValue (c : ascii) : Z :=
  if isDigit c then Z.of_N (N_of_ascii c) - 48
  else if byte_eqb c "X" then 10 else 0.

(** The weighted sum of ISO 7064 MOD 11-2: the last character has weight
    1, each other one twice the weight of its right neighbour. *)
Fixpoint weightedSum (s : string) : Z :=
  match s with
  | EmptyString => 0
  | String c r => charValue c * 2 ^ Z.of_nat (String.length r) + weightedSum r
  end.

(** The first [n] bytes of [s] exist and are digits. *)
Fixpoint digitsN (s : string) (n : nat) {struct n} : bool :=
  match n with
  | O => true
  | S n' =>
      match s with
      | EmptyString => false
      | String c r => isDigit c && digitsN r n'
      end
  end.

(** The shape of a normalised identifier: 16 bytes, 15 digits and then a
    digit or [X]. *)
Definition idShape (u : string) : bool :=
  (String.length u =? 16)%nat && digitsN u 15 &&
  match String.get 15 u with
  | Some c => isDigit c || byte_eqb c "X"
  | None => false
  end.

(** The total of the loop of [isValidChecksum] in unbounded arithmetic. *)
Fixpoint horner (s : string) (n : nat) (total : Z) {struct n} : Z :=
  match n with
  | O => total
  | S n' =>
      match s with
      | EmptyString => total
      | String c r => horner r n' ((total + atoiByte c) * 2)
      end
  end.


(** The string [ValidateOrcidID] examines: the last path segment of the
    trimmed input, without its hyphens. *)
Definition normalised (orcid : string) : string :=
  ReplaceAll (ParseOrcidID orcid) "-" "".

(** The characters of an identifier: the digits and [X]. *)
Definition idChar (c : ascii) : bool := isDigit c || byte_eqb c "X".

Fixpoint idChars (s : string) : bool :=
  match s with
  | EmptyString => true
  | String c r => idChar c && idChars r
  end.

(* ===================================================================== *)
(** * Vocabulary of the iterator properties *)
(* ===================================================================== *)

(** The cursor of an iterator is in step with its page: before the first
    fetch it is at -1, afterwards between -1 and the last index of the
    page. *)
Definition cursorOK (si : SearchIterator) : Prop :=
  match currentBatch si with
  | None => currentIndex si = -1
  | Some b => -1 <= currentIndex si <= lenResults b - 1
  end.

(** The iterator has read the last record of its page and the page was
    the last one. *)
Definition exhausted (si : SearchIterator) : Prop :=
  exists b, currentBatch si = Some b /\
    lenResults b - 1 <= currentIndex si /\
    totalResults si <= int_add (Start (params si)) (Rows (params si)).

(** A context that is never cancelled. *)
Definition neverDone (w : World) : Prop := forall k, ctxDone w k = false.

(** What the drain loop reads while the cursor is on a page: each record
    slot of the page, with the total the page reports. *)
Definition pageItems (res : SearchResult) : list (option SearchRecord * Z) :=
  map (fun r => (r, NumFound res)) (Results res).

(** The successive pages of a result set as [c] gets them from the world,
    whatever the state: each page is served for the parameters the
    iterator asks with, holds at least one record slot, and reports a
    total beyond the end of the requested window if and only if another
    page follows. *)
Fixpoint paged (w : World) (c : Client) (p : SearchParams)
    (pages : list SearchResult) : Prop :=
  match pages with
  | [] => True
  | res :: rest =>
      (forall st, exists st', Search w c p st = (Ok res, st')) /\
      0 < lenResults res <= max_int /\
      match rest with
      | [] => NumFound res <= int_add (Start p) (Rows p)
      | _ :: _ =>
          int_add (Start p) (Rows p) < NumFound res /\
          paged w c (followingPage p) rest
      end
  end.

(** The parameters of [n] successive page fetches from [p] on. *)
Fixpoint pageParams (p : SearchParams) (n : nat) : list SearchParams :=
  match n with
  | O => []
  | S n' => p :: pageParams (followingPage p) n'
  end.

(** An iterator over parameters [p] and client [c] that has not failed
    and whose page, if it has one, is [res]. *)
Definition onPage (c : Client) (p : SearchParams) (res : SearchResult)
    (si : SearchIterator) : Prop :=
  err si = None /\ client si = c /\ params si = p /\
  match currentBatch si with
  | None => True
  | Some b => b = res /\ -1 <= currentIndex si /\ totalResults si = NumFound res
  end.

(* ===================================================================== *)
(** * The query builder (search source) *)
(* ===================================================================== *)

(** The methods of [*SearchQuery].  Each one updates the receiver and
    returns it; here it returns the updated value. *)
Module SearchQuery.

Record t := {
  params : SearchParams;
  queryParts : list string
}.

Definition append (sq : t) (part : string) : t :=
  {| params := params sq; queryParts := queryParts sq ++ [part] |}.

(** The double quote, and [fmt.Sprintf] of a value between two of them
    when the value holds a space. *)
Definition quote : string := String "034"%char EmptyString.

Definition phrase (value : string) : string :=
  if ContainsByte value " " then quote +:+ value +:+ quote else value.

Definition ORCID (sq : t) (orcid : string) : t :=
  append sq ("orcid:" +:+ orcid).

Definition Email (sq : t) (email : string) : t :=
  append sq ("email:" +:+ email).

Definition FamilyName (sq : t) (name : string) : t :=
  append sq ("family-name:" +:+ phrase name).

Definition GivenNames (sq : t) (names : string) : t :=
  append sq ("given-names:" +:+ phrase names).

Definition CreditName (sq : t) (name : string) : t :=
  append sq ("credit-name:" +:+ phrase name).

Definition OtherNames (sq : t) (names : string) : t :=
  append sq ("other-names:" +:+ phrase names).

Definition Keyword (sq : t) (keyword : string) : t :=
  append sq ("keyword:" +:+ phrase keyword).

Definition ExternalIdentifier (sq : t) (identifier : string) : t :=
  append sq ("external-identifier-type-and-value:" +:+ identifier).

Definition DOI (sq : t) (doi : string) : t :=
  append sq ("doi-self:" +:+ doi).

Definition PersonalDetails (sq : t) (details : string) : t :=
  append sq ("personal-details:" +:+ phrase details).

Definition Biography (sq : t) (bio : string) : t :=
  append sq ("biography:" +:+ phrase bio).

Definition WorkTitle (sq : t) (title : string) : t :=
  append sq ("work-titles:" +:+ phrase title).

Definition FundingTitle (sq : t) (title : string) : t :=
  append sq ("funding-titles:" +:+ phrase title).

Definition AffiliationOrganization (sq : t) (org : string) : t :=
  append sq ("affiliation-org-name:" +:+ phrase org).

Definition RINGGOLD (sq : t) (id : string) : t :=
  append sq ("ringgold-org-id:" +:+ id).

Definition GRID (sq : t) (id : string) : t :=
  append sq ("grid-org-id:" +:+ id).

Definition ROR (sq : t) (id : string) : t :=
  append sq ("ror-org-id:" +:+ id).

Definition FundRef (sq : t) (id : string) : t :=
  append sq ("fundref-org-id:" +:+ id).

Definition RawQuery (sq : t) (query : string) : t := append sq query.

Definition WithStart (sq : t) (start : Z) : t :=
  {| params := {| Query := Query (params sq); Start := start;
                  Rows := Rows (params sq) |};
     queryParts := queryParts sq |}.

Definition WithRows (sq : t) (rows : Z) : t :=
  {| params := {| Query := Query (params sq); Start := Start (params sq);
                  Rows := rows |};
     queryParts := queryParts sq |}.

Definition And (sq : t) : t := append sq "AND".
Definition Or (sq : t) : t := append sq "OR".
Definition Not (sq : t) : t := append sq "NOT".

(** [Build] stores the joined parts in the receiver and returns a copy of
    its parameters: the copy, and the receiver as it is left. *)
Definition Build (sq : t) : SearchParams * t :=
  let sq := {| params := {| Query := URL.join (queryParts sq) " ";
                            Start := Start (params sq);
                            Rows := Rows (params sq) |};
               queryParts := queryParts sq |} in
  (params sq, sq).

End SearchQuery.

Definition NewSearchQuery : SearchQuery.t :=
  {| SearchQuery.params := {| Query := ""; Start := 0; Rows := 10 |};
     SearchQuery.queryParts := [] |}.

(** [Client.SearchWithQuery]; the second component is the builder as
    [Build] leaves it. *)
Definition SearchWithQuery (w : World) (c : Client) (query : SearchQuery.t)
    (st : State) : (Result SearchResult * SearchQuery.t) * State :=
  let '(params, query) := SearchQuery.Build query in
  let '(r, st) := Search w c params st in
  ((r, query), st).

(** One call on a builder. *)
Inductive Call :=
| CallORCID (v : string)
| CallEmail (v : string)
| CallFamilyName (v : string)
| CallGivenNames (v : string)
| CallCreditName (v : string)
| CallOtherNames (v : string)
| CallKeyword (v : string)
| CallExternalIdentifier (v : string)
| CallDOI (v : string)
| CallPersonalDetails (v : string)
| CallBiography (v : string)
| CallWorkTitle (v : string)
| CallFundingTitle (v : string)
| CallAffiliationOrganization (v : string)
| CallRINGGOLD (v : string)
| CallGRID (v : string)
| CallROR (v : string)
| CallFundRef (v : string)
| CallRawQuery (v : string)
| CallWithStart (n : Z)
| CallWithRows (n : Z)
| CallAnd
| CallOr
| CallNot.

Definition call (sq : SearchQuery.t) (k : Call) : SearchQuery.t :=
  match k with
  | CallORCID v => SearchQuery.ORCID sq v
  | CallEmail v => SearchQuery.Email sq v
  | CallFamilyName v => SearchQuery.FamilyName sq v
  | CallGivenNames v => SearchQuery.GivenNames sq v
  | CallCreditName v => SearchQuery.CreditName sq v
  | CallOtherNames v => SearchQuery.OtherNames sq v
  | CallKeyword v => SearchQuery.Keyword sq v
  | CallExternalIdentifier v => SearchQuery.ExternalIdentifier sq v
  | CallDOI v => SearchQuery.DOI sq v
  | CallPersonalDetails v => SearchQuery.PersonalDetails sq v
  | CallBiography v => SearchQuery.Biography sq v
  | CallWorkTitle v => SearchQuery.WorkTitle sq v
  | CallFundingTitle v => SearchQuery.FundingTitle sq v
  | CallAffiliationOrganization v => SearchQuery.AffiliationOrganization sq v
  | CallRINGGOLD v => SearchQuery.RINGGOLD sq v
  | CallGRID v => SearchQuery.GRID sq v
  | CallROR v => SearchQuery.ROR sq v
  | CallFundRef v => SearchQuery.FundRef sq v
  | CallRawQuery v => SearchQuery.RawQuery sq v
  | CallWithStart n => SearchQuery.WithStart sq n
  | CallWithRows n => SearchQuery.WithRows sq n
  | CallAnd => SearchQuery.And sq
  | CallOr => SearchQuery.Or sq
  | CallNot => SearchQuery.Not sq
  end.

(** A chain of calls, first call first. *)
Definition chain (sq : SearchQuery.t) (ks : list Call) : SearchQuery.t :=
  foldl call sq ks.

(** The calls that set the window, and the others. *)
Definition isPaging (k : Call) : bool :=
  match k with
  | CallWithStart _ | CallWithRows _ => true
  | _ => false
  end.

(** The offset and the page size the last paging calls of a chain set. *)
Definition lastStart (ks : list Call) (d : Z) : Z :=
  foldl (fun acc k => match k with CallWithStart n => n | _ => acc end) d ks.

Definition lastRows (ks : list Call) (d : Z) : Z :=
  foldl (fun acc k => match k with CallWithRows n => n | _ => acc end) d ks.

(* ===================================================================== *)
(** * The fetchers and the path router (client source) *)
(* ===================================================================== *)

(** The struct a fetcher decodes the body into. *)
Inductive Target :=
| TRecord
| TPerson
| TWorks
| TWork
| TEducations
| TEmployments
| TFundings
| TPeerReviews
| TDistinctions
| TInvitedPositions
| TMemberships
| TQualifications
| TServices
| TResearchResources
| TExpandedSearchResult.

(** [json.Unmarshal] and [xml.Unmarshal] into each of these structs;
    [Doc] is what a decoded struct is taken to be. *)
Record Codec (Doc : Type) := {
  jsonDoc : Target -> string -> Result Doc;
  xmlDoc : Target -> string -> Result Doc
}.
Arguments jsonDoc {Doc} _ _ _.
Arguments xmlDoc {Doc} _ _ _.

(** [Client.unmarshalResponse] for the target [t]. *)
Definition unmarshalInto {Doc : Type} (k : Codec Doc) (c : Client)
    (t : Target) (bytes : string) : Result Doc :=
  if String.eqb (contentType c) ContentTypeJSON then jsonDoc k t bytes
  else if String.eqb (contentType c) ContentTypeXML then xmlDoc k t bytes
  else Err (ErrContentType (contentType c)).

(** The body every fetcher shares: the request, [io.ReadAll], the
    decoding. *)
Definition fetch {Doc : Type} (w : World) (k : Codec Doc) (c : Client)
    (t : Target) (url : string) (st : State) : Result Doc * State :=
  match doRequest w c "GET" url None st with
  | (Err e, st) => (Err e, st)
  | (Ok resp, st) =>
      match readErr (RespBody resp) with
      | Some msg => (Err (ErrRead msg), st)
      | None => (unmarshalInto k c t (data (RespBody resp)), st)
      end
  end.

(** [fmt.Sprintf("%s/%s/<name>", c.apiURL, orcidID)]. *)
Definition resourceURL (c : Client) (orcidID name : string) : string :=
  apiURL c +:+ "/" +:+ orcidID +:+ "/" +:+ name.

Section Fetchers.
Context {Doc : Type} (w : World) (k : Codec Doc) (c : Client).

Definition GetRecord (orcidID : string) (st : State) : Result Doc * State :=
  fetch w k c TRecord (resourceURL c orcidID "record") st.

Definition GetPerson (orcidID : string) (st : State) : Result Doc * State :=
  fetch w k c TPerson (resourceURL c orcidID "person") st.

Definition GetWorks (orcidID : string) (st : State) : Result Doc * State :=
  fetch w k c TWorks (resourceURL c orcidID "works") st.

Definition GetWork (orcidID putCode : string) (st : State)
  : Result Doc * State :=
  fetch w k c TWork
    (apiURL c +:+ "/" +:+ orcidID +:+ "/work/" +:+ putCode) st.

Definition GetEducations (orcidID : string) (st : State)
  : Result Doc * State :=
  fetch w k c TEducations (resourceURL c orcidID "educations") st.

Definition GetEmployments (orcidID : string) (st : State)
  : Result Doc * State :=
  fetch w k c TEmployments (resourceURL c orcidID "employments") st.

Definition GetFundings (orcidID : string) (st : State)
  : Result Doc * State :=
  fetch w k c TFundings (resourceURL c orcidID "fundings") st.

Definition GetPeerReviews (orcidID : string) (st : State)
  : Result Doc * State :=
  fetch w k c TPeerReviews (resourceURL c orcidID "peer-reviews") st.

Definition GetDistinctions (orcidID : string) (st : State)
  : Result Doc * State :=
  fetch w k c TDistinctions (resourceURL c orcidID "distinctions") st.

Definition GetInvitedPositions (orcidID : string) (st : State)
  : Result Doc * State :=
  fetch w k c TInvitedPositions (resourceURL c orcidID "invited-positions") st.

Definition GetMemberships (orcidID : string) (st : State)
  : Result Doc * State :=
  fetch w k c TMemberships (resourceURL c orcidID "memberships") st.

Definition GetQualifications (orcidID : string) (st : State)
  : Result Doc * State :=
  fetch w k c TQualifications (resourceURL c orcidID "qualifications") st.

Definition GetServices (orcidID : string) (st : State)
  : Result Doc * State :=
  fetch w k c TServices (resourceURL c orcidID "services") st.

Definition GetResearchResources (orcidID : string) (st : State)
  : Result Doc * State :=
  fetch w k c TResearchResources
    (resourceURL c orcidID "research-resources") st.

(** [Client.ExpandedSearch]. *)
Definition ExpandedSearch (query : string) (st : State)
  : Result Doc * State :=
  fetch w k c TExpandedSearchResult
    (apiURL c +:+ "/expanded-search/?q=" +:+ URL.QueryEscape query) st.

End Fetchers.

(** [strings.TrimPrefix]. *)
Definition TrimPrefix (s prefix : string) : string :=
  if HasPrefix s prefix
  then String.substring (String.length prefix)
         (String.length s - String.length prefix) s
  else s.

(** [strings.SplitN(s, sep, 2)] for a separator of one byte: the text
    before the first [sep] and the rest, or [s] alone. *)
Definition SplitN2 (s : string) (sep : ascii) : list string :=
  let '(before, after, found) := URL.Cut s sep in
  if found then [before; after] else [s].

(** What [GetByPath] returns as its [interface{}]: a decoded struct, or
    one field of it. *)
Inductive Fetched (Doc : Type) :=
| Whole (d : Doc)
| Field (name : string) (d : Doc).
Arguments Whole {Doc} d.
Arguments Field {Doc} name d.

(** The errors of [GetByPath]: its own four, and those its fetchers
    return, passed on as they are. *)
Inductive pathError :=
| ErrInvalidPath (path : string)
| ErrWorkPutCode (path : string)
| ErrUnsupportedResource (path : string)
| ErrUnsupportedPath (path : string)
| ErrFetch (e : error).

Definition pathError_ (e : pathError) : string :=
  match e with
  | ErrInvalidPath path => "invalid path: " +:+ path
  | ErrWorkPutCode path => "work path requires put-code: " +:+ path
  | ErrUnsupportedResource path =>
      "unsupported resource type in path: " +:+ path
  | ErrUnsupportedPath path => "unsupported path: " +:+ path
  | ErrFetch e => Error_ e
  end.

Inductive Routed (Doc : Type) :=
| Got (v : Fetched Doc)
| Failed (e : pathError).
Arguments Got {Doc} v.
Arguments Failed {Doc} e.

(** [return c.GetX(ctx, orcidID)]. *)
Definition whole {Doc : Type} (r : Result Doc * State) : Routed Doc * State :=
  match r with
  | (Ok d, st) => (Got (Whole d), st)
  | (Err e, st) => (Failed (ErrFetch e), st)
  end.

(** The resource names whose case fetches the person and returns one of
    its fields, with the field. *)
Definition personField (baseResource : string) : option string :=
  if String.eqb baseResource "biography" then Some "Biography"
  else if String.eqb baseResource "other-names" then Some "OtherNames"
  else if String.eqb baseResource "researcher-urls" then Some "ResearcherURLs"
  else if String.eqb baseResource "email" then Some "Emails"
  else if String.eqb baseResource "address" then Some "Addresses"
  else if String.eqb baseResource "keywords" then Some "Keywords"
  else if String.eqb baseResource "external-identifiers"
  then Some "ExternalIdentifiers"
  else None.

(** [Client.GetByPath]. *)
Definition GetByPath {Doc : Type} (w : World) (k : Codec Doc) (c : Client)
    (path : string) (st : State) : Routed Doc * State :=
  let pathStr := TrimPrefix path "/" in
  let parts := SplitN2 pathStr "/" in
  match parts with
  | [] => (Failed (ErrInvalidPath path), st)
  | orcidID :: rest =>
      if String.eqb orcidID "" then (Failed (ErrInvalidPath path), st) else
      match rest with
      | [] => whole (GetRecord w k c orcidID st)
      | resourceType :: _ =>
          if String.eqb resourceType "record"
          then whole (GetRecord w k c orcidID st) else
          let resourceParts := SplitN2 resourceType "/" in
          let baseResource := hd EmptyString resourceParts in
          if String.eqb baseResource "person" then
            whole (GetPerson w k c orcidID st)
          else if String.eqb baseResource "works" then
            whole (GetWorks w k c orcidID st)
          else if String.eqb baseResource "work" then
            match resourceParts with
            | [_; putCode] => whole (GetWork w k c orcidID putCode st)
            | _ => (Failed (ErrWorkPutCode path), st)
            end
          else if String.eqb baseResource "educations" then
            whole (GetEducations w k c orcidID st)
          else if String.eqb baseResource "employments" then
            whole (GetEmployments w k c orcidID st)
          else if String.eqb baseResource "fundings" then
            whole (GetFundings w k c orcidID st)
          else if String.eqb baseResource "peer-reviews" then
            whole (GetPeerReviews w k c orcidID st)
          else if String.eqb baseResource "distinctions" then
            whole (GetDistinctions w k c orcidID st)
          else if String.eqb baseResource "invited-positions" then
            whole (GetInvitedPositions w k c orcidID st)
          else if String.eqb baseResource "memberships" then
            whole (GetMemberships w k c orcidID st)
          else if String.eqb baseResource "qualifications" then
            whole (GetQualifications w k c orcidID st)
          else if String.eqb baseResource "services" then
            whole (GetServices w k c orcidID st)
          else if String.eqb baseResource "research-resources" then
            whole (GetResearchResources w k c orcidID st)
          else if String.eqb baseResource "activities" then
            match GetRecord w k c orcidID st with
            | (Err e, st) => (Failed (ErrFetch e), st)
            | (Ok record, st) => (Got (Field "ActivitiesSummary" record), st)
            end
          else
          match personField baseResource with
          | Some _ =>
              match GetPerson w k c orcidID st with
              | (Err e, st) => (Failed (ErrFetch e), st)
              | (Ok person, st) =>
                  if String.eqb baseResource "biography" then
                    (Got (Field "Biography" person), st)
                  else if String.eqb baseResource "other-names" then
                    (Got (Field "OtherNames" person), st)
                  else if String.eqb baseResource "researcher-urls" then
                    (Got (Field "ResearcherURLs" person), st)
                  else if String.eqb baseResource "email" then
                    (Got (Field "Emails" person), st)
                  else if String.eqb baseResource "address" then
                    (Got (Field "Addresses" person), st)
                  else if String.eqb baseResource "keywords" then
                    (Got (Field "Keywords" person), st)
                  else if String.eqb baseResource "external-identifiers" then
                    (Got (Field "ExternalIdentifiers" person), st)
                  else (Failed (ErrUnsupportedPath path), st)
              end
          | None =>
              match GetPerson w k c orcidID st with
              | (Err _, st) => (Failed (ErrUnsupportedResource path), st)
              | (Ok person, st) =>
                  if String.eqb baseResource "keywords" then
                    (Got (Field "Keywords" person), st)
                  else if String.eqb baseResource "address" then
                    (Got (Field "Addresses" person), st)
                  else if String.eqb baseResource "researcher-urls" then
                    (Got (Field "ResearcherURLs" person), st)
                  else (Failed (ErrUnsupportedResource path), st)
              end
          end
      end
  end.

(** A codec for the examples: the JSON decoder returns the bytes as they
    are, the XML decoder refuses everything. *)
Definition echoCodec : Codec string :=
  {| jsonDoc := fun _ bytes => Ok bytes;
     xmlDoc := fun _ _ => Err (ErrUnmarshal "EOF") |}.

(** The resource names [GetByPath] routes to a fetcher of their own that
    takes the identifier only, with the struct each one decodes. *)
Definition directResources : list (string * Target) :=
  [("person", TPerson); ("works", TWorks); ("educations", TEducations);
   ("employments", TEmployments); ("fundings", TFundings);
   ("peer-reviews", TPeerReviews); ("distinctions", TDistinctions);
   ("invited-positions", TInvitedPositions); ("memberships", TMemberships);
   ("qualifications", TQualifications); ("services", TServices);
   ("research-resources", TResearchResources)].

(** Every resource name that has a case in the switch of [GetByPath]. *)
Definition knownResources : list string :=
  ["person"; "works"; "work"; "educations"; "employments"; "fundings";
   "peer-reviews"; "distinctions"; "invited-positions"; "memberships";
   "qualifications"; "services"; "research-resources"; "activities";
   "biography"; "other-names"; "researcher-urls"; "email"; "address";
   "keywords"; "external-identifiers"].

(* ===================================================================== *)
(** * Theorems *)
(* ===================================================================== *)

Example FormatOrcidID_formatted :
  FormatOrcidID "0000-0002-1825-0097" = "0000-0002-1825-0097".
Proof. reflexivity. Qed.

Example FormatOrcidID_plain :
  FormatOrcidID "0000000218250097" = "0000-0002-1825-0097".
Proof. reflexivity. Qed.

Example FormatOrcidID_url :
  FormatOrcidID "https://orcid.org/0000-0002-1825-0097" = "0000-0002-1825-0097".
Proof. reflexivity. Qed.

Example FormatOrcidID_lower :
  FormatOrcidID "0000-0002-1825-009x" = "0000-0002-1825-009X".
Proof. reflexivity. Qed.

(* --------------------------------------------------------------------- *)
(** ** Package strings: algebra of the byte functions *)
(* --------------------------------------------------------------------- *)

#[local] Arguments String.append !_ _ : simpl nomatch.

(** Case analysis over the 256 values of a byte. *)
Ltac each_byte c := destruct c as [[] [] [] [] [] [] [] []].

Lemma byte_eqb_eq a b : byte_eqb a b = true <-> a = b.
Proof. unfold byte_eqb. apply Ascii.eqb_eq. Qed.

Lemma append_nil_r (s : string) : s +:+ "" = s.
Proof. induction s as [|c s IH]; [reflexivity|]. cbn. by rewrite IH. Qed.

Lemma append_assoc (a b c : string) : (a +:+ b) +:+ c = a +:+ (b +:+ c).
Proof. induction a as [|x a IH]; [reflexivity|]. cbn. by rewrite IH. Qed.

Lemma append_length (a b : string) :
  String.length (a +:+ b) = (String.length a + String.length b)%nat.
Proof. induction a as [|x a IH]; [reflexivity|]. cbn. by rewrite IH. Qed.

Lemma Split_nonempty s sep : Split s sep <> [].
Proof.
  destruct s as [|c r]; cbn; [discriminate|].
  destruct (byte_eqb c sep); [discriminate|].
  destruct (Split r sep); discriminate.
Qed.

Lemma Split_absent s sep : ContainsByte s sep = false -> Split s sep = [s].
Proof.
  induction s as [|c r IH]; cbn; [reflexivity|].
  intros [Hc Hr]%orb_false_iff. rewrite Hc, (IH Hr). reflexivity.
Qed.

Lemma Split_last_absent s sep :
  ContainsByte (last_part (Split s sep)) sep = false.
Proof.
  unfold last_part. induction s as [|c r IH]; cbn; [reflexivity|].
  destruct (byte_eqb c sep) eqn:Hc.
  - pose proof (Split_nonempty r sep). destruct (Split r sep); [done|exact IH].
  - pose proof (Split_nonempty r sep) as Hne.
    destruct (Split r sep) as [|h [|h' t]]; [done| |exact IH].
    cbn in *. by rewrite Hc, IH.
Qed.

Lemma ContainsByte_app a b c :
  ContainsByte (a +:+ b) c = ContainsByte a c || ContainsByte b c.
Proof.
  induction a as [|x a IH]; [reflexivity|]. cbn. by rewrite IH, orb_assoc.
Qed.

Lemma ReplaceAll_app a b old new :
  ReplaceAll (a +:+ b) old new = ReplaceAll a old new +:+ ReplaceAll b old new.
Proof.
  induction a as [|x a IH]; [reflexivity|]. cbn.
  destruct (byte_eqb x old); rewrite IH; [by rewrite append_assoc|reflexivity].
Qed.

Lemma ReplaceAll_absent s old new :
  ContainsByte s old = false -> ReplaceAll s old new = s.
Proof.
  induction s as [|c r IH]; cbn; [reflexivity|].
  intros [Hc Hr]%orb_false_iff. by rewrite Hc, (IH Hr).
Qed.

Lemma ReplaceAll_removes s old : ContainsByte (ReplaceAll s old "") old = false.
Proof.
  induction s as [|c r IH]; cbn; [reflexivity|].
  destruct (byte_eqb c old) eqn:Hc; cbn; [exact IH|]. by rewrite Hc, IH.
Qed.

Lemma ReplaceAll_keeps_absent s old c :
  ContainsByte s c = false -> ContainsByte (ReplaceAll s old "") c = false.
Proof.
  induction s as [|d r IH]; cbn; [reflexivity|].
  intros [Hd Hr]%orb_false_iff.
  destruct (byte_eqb d old); cbn; [by apply IH|]. by rewrite Hd, (IH Hr).
Qed.

Lemma upper_idem c : upper (upper c) = upper c.
Proof. by each_byte c. Qed.

Lemma upper_slash c : byte_eqb (upper c) "/" = byte_eqb c "/".
Proof. by each_byte c. Qed.

Lemma upper_hyphen c : byte_eqb (upper c) "-" = byte_eqb c "-".
Proof. by each_byte c. Qed.

Lemma ToUpper_idem s : ToUpper (ToUpper s) = ToUpper s.
Proof. induction s as [|c r IH]; cbn; [reflexivity|]. by rewrite upper_idem, IH. Qed.

Lemma ToUpper_app a b : ToUpper (a +:+ b) = ToUpper a +:+ ToUpper b.
Proof. induction a as [|x a IH]; [reflexivity|]. cbn. by rewrite IH. Qed.

Lemma ToUpper_length s : String.length (ToUpper s) = String.length s.
Proof. induction s as [|c r IH]; cbn; [reflexivity|]. by rewrite IH. Qed.

Lemma ToUpper_slash s : ContainsByte (ToUpper s) "/" = ContainsByte s "/".
Proof. induction s as [|c r IH]; [reflexivity|]. cbn [ToUpper ContainsByte]. by rewrite upper_slash, IH. Qed.

Lemma ToUpper_hyphen s : ContainsByte (ToUpper s) "-" = ContainsByte s "-".
Proof. induction s as [|c r IH]; [reflexivity|]. cbn [ToUpper ContainsByte]. by rewrite upper_hyphen, IH. Qed.

Lemma slice_16 s :
  String.length s = 16%nat ->
  s = slice s 0 4 +:+ slice s 4 8 +:+ slice s 8 12 +:+ slice s 12 16.
Proof.
  intros H.
  do 16 (destruct s as [|? s]; [discriminate H|]).
  destruct s; [reflexivity|discriminate H].
Qed.

(* --------------------------------------------------------------------- *)
(** ** Identifier utilities *)
(* --------------------------------------------------------------------- *)

(** Both branches of [ParseOrcidID] return the last "/"-separated part of
    the trimmed input. *)
Lemma ParseOrcidID_last input :
  ParseOrcidID input = last_part (Split (TrimSpace input) "/").
Proof.
  unfold ParseOrcidID.
  destruct (HasPrefix _ _ || HasPrefix _ _); [|reflexivity].
  destruct (0 <? _); reflexivity.
Qed.

Lemma ParseOrcidID_fixed r :
  TrimSpace r = r -> ContainsByte r "/" = false -> ParseOrcidID r = r.
Proof.
  intros Ht Hs. rewrite ParseOrcidID_last, Ht, (Split_absent _ _ Hs). reflexivity.
Qed.

(** The string [FormatOrcidID] builds from the normalised digits [u]. *)
Lemma FormatOrcidID_shape s :
  let u := ToUpper (ReplaceAll (ParseOrcidID s) "-" "") in
  FormatOrcidID s =
    if len u =? 16 then
      slice u 0 4 +:+ "-" +:+ slice u 4 8 +:+ "-" +:+
      slice u 8 12 +:+ "-" +:+ slice u 12 16
    else u.
Proof. reflexivity. Qed.

Lemma normalised_facts s :
  let u := ToUpper (ReplaceAll (ParseOrcidID s) "-" "") in
  ContainsByte u "/" = false /\ ContainsByte u "-" = false /\ ToUpper u = u.
Proof.
  cbv zeta. split; [|split].
  - rewrite ToUpper_slash. apply ReplaceAll_keeps_absent.
    rewrite ParseOrcidID_last. apply Split_last_absent.
  - rewrite ToUpper_hyphen. apply ReplaceAll_removes.
  - apply ToUpper_idem.
Qed.

Lemma format_fixed u :
  ContainsByte u "/" = false -> ContainsByte u "-" = false -> ToUpper u = u ->
  let r := if len u =? 16 then
             slice u 0 4 +:+ "-" +:+ slice u 4 8 +:+ "-" +:+
             slice u 8 12 +:+ "-" +:+ slice u 12 16
           else u in
  TrimSpace r = r -> FormatOrcidID r = r.
Proof.
  intros Hs Hh Hu r Ht.
  assert (Hnorm : ToUpper (ReplaceAll (ParseOrcidID r) "-" "") = u
                  /\ ContainsByte r "/" = false).
  { subst r. destruct (len u =? 16) eqn:Hl.
    - apply Z.eqb_eq in Hl. unfold len in Hl.
      assert (Hlen : String.length u = 16%nat) by lia.
      pose proof (slice_16 u Hlen) as Hd.
      set (a := slice u 0 4) in *. set (b := slice u 4 8) in *.
      set (c := slice u 8 12) in *. set (d := slice u 12 16) in *.
      assert (Hparts : forall x, ContainsByte u x = false ->
                ContainsByte a x = false /\ ContainsByte b x = false /\
                ContainsByte c x = false /\ ContainsByte d x = false).
      { intros x Hx. rewrite Hd in Hx. rewrite !ContainsByte_app in Hx.
        repeat (apply orb_false_iff in Hx as [? Hx]). done. }
      destruct (Hparts _ Hs) as (Ha & Hb & Hc & Hdd).
      assert (Hr : ContainsByte (a +:+ "-" +:+ b +:+ "-" +:+ c +:+ "-" +:+ d) "/"
                   = false).
      { rewrite !ContainsByte_app, Ha, Hb, Hc, Hdd. reflexivity. }
      split; [|exact Hr].
      rewrite (ParseOrcidID_fixed _ Ht Hr).
      destruct (Hparts _ Hh) as (Ha' & Hb' & Hc' & Hd').
      rewrite !ReplaceAll_app.
      rewrite (ReplaceAll_absent a), (ReplaceAll_absent b),
        (ReplaceAll_absent c), (ReplaceAll_absent d) by assumption.
      cbn [ReplaceAll byte_eqb Ascii.eqb Bool.eqb String.append].
      rewrite <- Hd. exact Hu.
    - split; [|exact Hs].
      rewrite (ParseOrcidID_fixed _ Ht Hs), (ReplaceAll_absent _ _ _ Hh). exact Hu. }
  destruct Hnorm as [Hn _].
  rewrite FormatOrcidID_shape. cbv zeta. rewrite Hn. reflexivity.
Qed.

(** C10, as the claim states it, fails: white space that follows a hyphen
    (or a slash) survives the first formatting and is trimmed by the
    second. *)
Lemma FormatOrcidID_not_idempotent :
  FormatOrcidID (FormatOrcidID "- x") <> FormatOrcidID "- x".
Proof. vm_compute. discriminate. Qed.

(** C10 (amended): [FormatOrcidID] is idempotent on every ASCII input whose
    formatted result carries no leading or trailing white space:
    re-formatting such a result leaves it unchanged. *)
Theorem FormatOrcidID_idempotent s :
  is_ascii s = true ->
  TrimSpace (FormatOrcidID s) = FormatOrcidID s ->
  FormatOrcidID (FormatOrcidID s) = FormatOrcidID s.
Proof.
  intros _ Ht.
  destruct (normalised_facts s) as (Hs & Hh & Hu).
  rewrite FormatOrcidID_shape in Ht |- *. cbv zeta in Ht |- *.
  exact (format_fixed _ Hs Hh Hu Ht).
Qed.

Lemma FormatOrcidID_idempotent_witness :
  is_ascii "https://orcid.org/0000-0002-1825-009x" = true /\
  TrimSpace (FormatOrcidID "https://orcid.org/0000-0002-1825-009x")
    = FormatOrcidID "https://orcid.org/0000-0002-1825-009x" /\
  FormatOrcidID (FormatOrcidID "https://orcid.org/0000-0002-1825-009x")
    = FormatOrcidID "https://orcid.org/0000-0002-1825-009x".
Proof.
  split; [reflexivity|]. split; [reflexivity|].
  apply (FormatOrcidID_idempotent "https://orcid.org/0000-0002-1825-009x");
    reflexivity.
Defined.

(* The converse: a formatted result with white space at either end is
   changed by a second formatting. *)

Lemma TrimLeftSpace_split s :
  exists a, s = a +:+ TrimLeftSpace s /\ allSpace a = true.
Proof.
  induction s as [|c r (a & Ha & Hs)]; [by exists ""|].
  cbn. destruct (isSpace c) eqn:Hc.
  - exists (String c a). cbn. by rewrite Hc, Hs, <- Ha.
  - by exists "".
Qed.

Lemma TrimRightSpace_empty s : TrimRightSpace s = "" -> allSpace s = true.
Proof.
  induction s as [|c r IH]; [done|]. cbn.
  destruct (TrimRightSpace r); [|discriminate].
  destruct (isSpace c); [|discriminate]. intros _. by rewrite IH.
Qed.

Lemma TrimRightSpace_split s :
  exists b, s = TrimRightSpace s +:+ b /\ allSpace b = true.
Proof.
  induction s as [|c r (b & Hb & Hs)]; [by exists ""|].
  cbn. destruct (TrimRightSpace r) as [|d r'] eqn:Hr.
  - destruct (isSpace c) eqn:Hc.
    + exists (String c r). cbn. rewrite Hc. split; [done|].
      by apply TrimRightSpace_empty.
    + exists b. cbn. split; [by rewrite Hb at 1|done].
  - exists b. cbn. split; [by rewrite Hb at 1|done].
Qed.

Lemma allSpace_keeps a : allSpace a = true -> ReplaceAll a "-" "" = a.
Proof.
  induction a as [|c r IH]; [done|]. cbn.
  intros [Hc Hr]%andb_true_iff.
  assert (byte_eqb c "-" = false) as -> by (revert Hc; by each_byte c).
  by rewrite (IH Hr).
Qed.

Lemma ReplaceAll_length_le s old :
  (String.length (ReplaceAll s old "") <= String.length s)%nat.
Proof.
  induction s as [|c r IH]; cbn; [lia|]. destruct (byte_eqb c old); cbn; lia.
Qed.

(** The bytes of a string other than hyphens, counted. *)
Lemma kept_TrimSpace r :
  String.length (ReplaceAll (TrimSpace r) "-" "")
    = String.length (ReplaceAll r "-" "") ->
  TrimSpace r = r.
Proof.
  unfold TrimSpace.
  destruct (TrimLeftSpace_split r) as (a & Ha & Hsa).
  destruct (TrimRightSpace_split (TrimLeftSpace r)) as (b & Hb & Hsb).
  set (t := TrimRightSpace (TrimLeftSpace r)) in *.
  assert (Hr : r = a +:+ t +:+ b) by congruence.
  clearbody t. clear Ha Hb. subst r.
  rewrite !ReplaceAll_app, !append_length.
  rewrite (allSpace_keeps a Hsa), (allSpace_keeps b Hsb).
  intros Hlen.
  assert (a = "") as -> by (destruct a; [done|cbn in Hlen; lia]).
  assert (b = "") as -> by (destruct b; [done|cbn in Hlen; lia]).
  cbn. by rewrite append_nil_r.
Qed.

Lemma TrimSpace_absent r c :
  ContainsByte r c = false -> ContainsByte (TrimSpace r) c = false.
Proof.
  intros H. unfold TrimSpace.
  destruct (TrimLeftSpace_split r) as (a & Ha & _).
  destruct (TrimRightSpace_split (TrimLeftSpace r)) as (b & Hb & _).
  rewrite Ha, Hb, !ContainsByte_app in H.
  apply orb_false_iff in H as [_ H]. by apply orb_false_iff in H as [H _].
Qed.

Lemma FormatOrcidID_absent_slash s : ContainsByte (FormatOrcidID s) "/" = false.
Proof.
  rewrite FormatOrcidID_shape. cbv zeta.
  destruct (normalised_facts s) as (Hs & _ & _).
  set (u := ToUpper (ReplaceAll (ParseOrcidID s) "-" "")) in *.
  destruct (len u =? 16) eqn:Hl; [|exact Hs].
  apply Z.eqb_eq in Hl. unfold len in Hl.
  assert (Hlen : String.length u = 16%nat) by lia.
  rewrite (slice_16 u Hlen), !ContainsByte_app in Hs.
  repeat (apply orb_false_iff in Hs as [? Hs]).
  rewrite !ContainsByte_app. cbn [ContainsByte].
  repeat match goal with H : ContainsByte _ _ = false |- _ => rewrite H end.
  reflexivity.
Qed.

(** What a formatting keeps of its input, hyphens apart, is what the
    trimmed last segment holds. *)
Lemma FormatOrcidID_kept s :
  String.length (ReplaceAll (FormatOrcidID s) "-" "")
    = String.length (ReplaceAll (ParseOrcidID s) "-" "").
Proof.
  rewrite FormatOrcidID_shape. cbv zeta.
  destruct (normalised_facts s) as (_ & Hh & _).
  set (u := ToUpper (ReplaceAll (ParseOrcidID s) "-" "")) in *.
  assert (Hu : String.length u
               = String.length (ReplaceAll (ParseOrcidID s) "-" ""))
    by apply ToUpper_length.
  destruct (len u =? 16) eqn:Hl.
  - apply Z.eqb_eq in Hl. unfold len in Hl.
    assert (Hlen : String.length u = 16%nat) by lia.
    rewrite <- Hu. rewrite (slice_16 u Hlen) at 5.
    rewrite (slice_16 u Hlen), !ContainsByte_app in Hh.
    repeat (apply orb_false_iff in Hh as [? Hh]).
    rewrite !ReplaceAll_app.
    rewrite !(ReplaceAll_absent (slice u _ _)) by assumption.
    cbn [ReplaceAll byte_eqb Ascii.eqb Bool.eqb String.append]. reflexivity.
  - by rewrite (ReplaceAll_absent _ _ _ Hh).
Qed.

(** The condition of the amended C10 is necessary as well: a formatting
    that a second formatting leaves unchanged has no white space at
    either end. *)
Lemma FormatOrcidID_idempotent_only_if s :
  FormatOrcidID (FormatOrcidID s) = FormatOrcidID s ->
  TrimSpace (FormatOrcidID s) = FormatOrcidID s.
Proof.
  intros Hfix. apply kept_TrimSpace.
  pose proof (FormatOrcidID_kept (FormatOrcidID s)) as Hk.
  rewrite Hfix in Hk. rewrite Hk, ParseOrcidID_last.
  rewrite Split_absent; [reflexivity|].
  apply TrimSpace_absent, FormatOrcidID_absent_slash.
Qed.

(* --------------------------------------------------------------------- *)
(** ** Request executor: one pass, then the loop *)
(* --------------------------------------------------------------------- *)

Lemma retryStatus_not_ok code : retryStatus code = true -> (code =? 200) = false.
Proof. unfold retryStatus. lia. Qed.

Lemma classify_retryable out :
  retryable out = true -> classify out = Continue (cause out).
Proof.
  destruct out as [msg|resp]; cbn; [reflexivity|].
  intros H. by rewrite (retryStatus_not_ok _ H), H.
Qed.

Lemma classify_ok resp :
  StatusCode resp = 200 -> classify (Responded resp) = Return (Ok resp).
Proof. intros H. cbn. by rewrite H. Qed.

Lemma classify_terminal resp :
  terminalStatus (StatusCode resp) = true ->
  classify (Responded resp) =
    Return (Err (ErrHTTP (StatusCode resp) (Status resp) (data (RespBody resp)))).
Proof.
  unfold terminalStatus. intros [H1 H2]%andb_true_iff.
  apply negb_true_iff in H1, H2. cbn. by rewrite H1, H2.
Qed.

Lemma state_eta st :
  {| calls := calls st; selects := selects st; trace := trace st |} = st.
Proof. by destruct st. Qed.

Lemma after_0 req st : after req st 0 = st.
Proof.
  unfold after. cbn. rewrite !Nat.add_0_r, app_nil_r. apply state_eta.
Qed.

Lemma passes_snoc req a k :
  passes req a (S k) =
  passes req a k ++ [EvBackoff (backoff (a + Z.of_nat k)); EvDo req].
Proof.
  revert a. induction k as [|k IH]; intros a.
  - cbn. by rewrite Z.add_0_r.
  - change (passes req a (S (S k)))
      with (EvBackoff (backoff a) :: EvDo req :: passes req (a + 1) (S k)).
    rewrite IH. cbn [passes app]. do 3 f_equal.
    replace (a + 1 + Z.of_nat k) with (a + Z.of_nat (S k)) by lia. reflexivity.
Qed.

Section Executor.

Context (w : World) (c : Client) (method url : string) (body : option Reader).
Context (req : Request).
Hypothesis Hreq : newRequest w c method url body = Ok req.

(** A pass whose backoff wait is cut short by the signal returns the
    context error without calling the transport; it needs no request. *)
Lemma attemptOnce_cancelled a st :
  0 < a -> ctxDone w (selects st) = true ->
  attemptOnce w c method url body a st =
  (Return (Err (ErrContext (ctxErr w))),
   {| calls := calls st; selects := S (selects st);
      trace := trace st ++ [EvCancelled] |}).
Proof.
  intros Ha Hc. unfold attemptOnce, selectCtx.
  destruct (0 <? a) eqn:E; [|lia]. by rewrite Hc.
Qed.

(** The pass that makes transport call number [j] of the call. *)
Lemma pass_after st j :
  (0 < j -> ctxDone w (selects st + pred j) = false)%nat ->
  attemptOnce w c method url body (Z.of_nat j) (after req st j) =
  (classify (roundTrip w (calls st + j) req), after req st (S j)).
Proof.
  intros Hq. unfold attemptOnce. destruct j as [|j].
  - cbn [Z.of_nat Z.ltb Z.compare]. rewrite Hreq, after_0.
    unfold Do, after. cbn. by rewrite !Nat.add_0_r, Nat.add_1_r.
  - destruct (0 <? Z.of_nat (S j)) eqn:E; [|apply Z.ltb_ge in E; lia].
    unfold selectCtx. cbn [after selects pred] in Hq |- *.
    rewrite Hq by lia. rewrite Hreq. unfold Do, after, emit.
    cbn [calls selects trace pred].
    f_equal. f_equal; [lia|lia|].
    rewrite <- !app_assoc. f_equal.
    change (runEvents req (S (S j))) with (EvDo req :: passes req 1 (S j)).
    rewrite passes_snoc. cbn [runEvents option_list app].
    replace (1 + Z.of_nat j) with (Z.of_nat (S j)) by lia. reflexivity.
Qed.

(** [m] passes in a row that all meet a retryable outcome. *)
Lemma loop_retries st m :
  forall j n lastErr,
  (forall i, i < j + m - 1 -> ctxDone w (selects st + i) = false)%nat ->
  (forall i, j <= i < j + m -> retryable (roundTrip w (calls st + i) req) = true)%nat ->
  retryLoop w c method url body (m + n) (Z.of_nat j) lastErr (after req st j) =
  retryLoop w c method url body n (Z.of_nat (j + m))
    (match m with
     | O => lastErr
     | S _ => Some (cause (roundTrip w (calls st + (j + m - 1)) req))
     end)
    (after req st (j + m)).
Proof.
  induction m as [|m IH]; intros j n lastErr Hq Hr.
  - cbn [Nat.add]. by rewrite Nat.add_0_r.
  - cbn [Nat.add retryLoop].
    rewrite pass_after by (intros; apply Hq; lia).
    rewrite classify_retryable by (apply Hr; lia).
    replace (Z.of_nat j + 1) with (Z.of_nat (S j)) by lia.
    rewrite IH; [|intros; apply Hq; lia|intros; apply Hr; lia].
    replace (S j + m)%nat with (j + S m)%nat by lia.
    f_equal. destruct m as [|m]; [|do 4 f_equal; lia].
    do 4 f_equal. lia.
Qed.

End Executor.

(* --------------------------------------------------------------------- *)
(** ** Traces *)
(* --------------------------------------------------------------------- *)

Lemma attempts_app tr1 tr2 : attempts (tr1 ++ tr2) = attempts tr1 ++ attempts tr2.
Proof. apply omap_app. Qed.

Lemma permits_app tr1 tr2 : permits (tr1 ++ tr2) = (permits tr1 + permits tr2)%nat.
Proof. unfold permits. by rewrite omap_app, length_app. Qed.

Lemma fetches_app tr1 tr2 : fetches (tr1 ++ tr2) = fetches tr1 ++ fetches tr2.
Proof. apply omap_app. Qed.

Lemma attempts_passes req a k : attempts (passes req a k) = replicate k req.
Proof.
  revert a. induction k as [|k IH]; intros a; [reflexivity|].
  cbn. f_equal. apply IH.
Qed.

Lemma permits_passes req a k : permits (passes req a k) = 0%nat.
Proof.
  revert a. induction k as [|k IH]; intros a; [reflexivity|]. apply (IH (a + 1)).
Qed.

Lemma attempts_runEvents req j : attempts (runEvents req j) = replicate j req.
Proof. destruct j as [|j]; [reflexivity|]. cbn. f_equal. apply attempts_passes. Qed.

Lemma permits_runEvents req j : permits (runEvents req j) = 0%nat.
Proof. destruct j as [|j]; [reflexivity|]. apply (permits_passes req 1 j). Qed.

Lemma attempts_entered c st : attempts (trace (entered c st)) = attempts (trace st).
Proof.
  unfold entered. destruct (rateLimiter c); [|reflexivity].
  cbn. rewrite attempts_app. cbn. apply app_nil_r.
Qed.

Lemma calls_entered c st : calls (entered c st) = calls st.
Proof. unfold entered. by destruct (rateLimiter c). Qed.

(** [k] transport calls into the loop, exactly [k] attempts were issued. *)
Lemma issued_after req c st k : issued req k st (after req (entered c st) k).
Proof.
  split; cbn.
  - by rewrite calls_entered.
  - by rewrite attempts_app, attempts_entered, attempts_runEvents.
Qed.

Section Calls.

Context (w : World) (c : Client) (method url : string) (body : option Reader).
Context (req : Request).
Hypothesis Hreq : newRequest w c method url body = Ok req.
Hypothesis Htoken : bearerToken c <> "".

Lemma token_eqb : String.eqb (bearerToken c) "" = false.
Proof. by apply String.eqb_neq. Qed.

(** With a token, and the permit wait (if any) not cancelled, the call
    enters its loop. *)
Lemma doRequest_enter st :
  (rateLimiter c <> None -> ctxDone w (selects st) = false) ->
  doRequest w c method url body st =
  retryLoop w c method url body (Z.to_nat (maxRetries c + 1)) 0 None
    (entered c st).
Proof.
  intros Hq. unfold doRequest, entered. rewrite token_eqb.
  destruct (rateLimiter c) as [t|]; [|reflexivity].
  unfold selectCtx. by rewrite Hq.
Qed.

(** The call up to its [k]-th transport call, when the [k - 1] earlier
    ones met retryable outcomes and no wait was cancelled; [n] passes
    are left after the [k - 1]. *)
Lemma doRequest_prefix st k :
  (forall i, selects st <= i < selects (entered c st) + pred k ->
             ctxDone w i = false)%nat ->
  (forall i, i < k -> retryable (roundTrip w (calls st + i) req) = true)%nat ->
  (k <= Z.to_nat (maxRetries c + 1))%nat ->
  doRequest w c method url body st =
  retryLoop w c method url body (Z.to_nat (maxRetries c + 1) - k)
    (Z.of_nat k)
    (match k with
     | O => None
     | S k' => Some (cause (roundTrip w (calls st + k') req))
     end)
    (after req (entered c st) k).
Proof.
  intros Hq Hr Hk.
  assert (Hsel : (selects st <= selects (entered c st))%nat).
  { unfold entered. destruct (rateLimiter c); cbn; lia. }
  rewrite doRequest_enter.
  2:{ intros Hl. apply Hq. unfold entered.
      destruct (rateLimiter c); [cbn; lia|done]. }
  rewrite <- (after_0 req (entered c st)) at 1.
  replace (Z.to_nat (maxRetries c + 1))
    with (k + (Z.to_nat (maxRetries c + 1) - k))%nat at 1 by lia.
  rewrite (loop_retries w c method url body req Hreq (entered c st) k 0).
  - cbn [Nat.add]. rewrite calls_entered.
    destruct k as [|k]; [reflexivity|].
    by replace (S k - 1)%nat with k by lia.
  - intros i Hi. apply Hq. lia.
  - intros i Hi. rewrite calls_entered. apply Hr. lia.
Qed.

End Calls.

Example testClient_built retries :
  NewClient (testOptions retries) = Some (testClient retries).
Proof. reflexivity. Qed.

(* --------------------------------------------------------------------- *)
(** ** Request executor: how a call ends *)
(* --------------------------------------------------------------------- *)

Section Outcomes.

Context (w : World) (c : Client) (method url : string) (body : option Reader).
Context (req : Request).
Hypothesis Hreq : newRequest w c method url body = Ok req.
Hypothesis Htoken : bearerToken c <> "".
Hypothesis Hquiet : forall n, ctxDone w n = false.

(** The call returns in the pass of its [k]-th transport call when that
    pass returns and the [k - 1] outcomes before it were retryable. *)
Lemma doRequest_returns st k r :
  (1 <= k <= Z.to_nat (maxRetries c + 1))%nat ->
  (forall i, i < k - 1 -> retryable (roundTrip w (calls st + i) req) = true)%nat ->
  classify (roundTrip w (calls st + (k - 1)) req) = Return r ->
  doRequest w c method url body st = (r, after req (entered c st) k).
Proof.
  intros Hk Hr Hc.
  rewrite (doRequest_prefix w c method url body req Hreq Htoken st (k - 1));
    [|intros; apply Hquiet|exact Hr|lia].
  destruct (Z.to_nat (maxRetries c + 1) - (k - 1))%nat as [|n] eqn:En; [lia|].
  cbn [retryLoop].
  rewrite (pass_after w c method url body req Hreq) by (intros; apply Hquiet).
  rewrite calls_entered, Hc. by replace (S (k - 1)) with k by lia.
Qed.

(** The call gives up after [maxRetries + 1] transport calls when all of
    them met retryable outcomes. *)
Lemma doRequest_exhausted st :
  0 <= maxRetries c ->
  let n := Z.to_nat (maxRetries c) in
  (forall i, i <= n -> retryable (roundTrip w (calls st + i) req) = true)%nat ->
  doRequest w c method url body st =
  (Err (ErrMaxRetries (cause (roundTrip w (calls st + n) req))),
   after req (entered c st) (S n)).
Proof.
  intros HR n Hr.
  assert (Hn : Z.to_nat (maxRetries c + 1) = S n) by (subst n; lia).
  rewrite (doRequest_prefix w c method url body req Hreq Htoken st (S n));
    [|intros; apply Hquiet|intros; apply Hr; lia|lia].
  rewrite Hn, Nat.sub_diag. reflexivity.
Qed.

End Outcomes.

(* --------------------------------------------------------------------- *)
(** ** Request executor: what any run of the loop adds to the trace *)
(* --------------------------------------------------------------------- *)

Lemma loopRun_refl st : loopRun 0 st st.
Proof. exists []. rewrite app_nil_r. repeat split; try done; lia. Qed.

Lemma loopRun_trans n m st1 st2 st3 :
  loopRun n st1 st2 -> loopRun m st2 st3 -> loopRun (n + m) st1 st3.
Proof.
  intros (tr1 & Ht1 & Hp1 & Hf1 & Ha1 & Hc1 & Hs1)
         (tr2 & Ht2 & Hp2 & Hf2 & Ha2 & Hc2 & Hs2).
  exists (tr1 ++ tr2). rewrite Ht2, Ht1, app_assoc.
  rewrite permits_app, fetches_app, attempts_app, length_app, Hp1, Hp2, Hf1, Hf2.
  repeat split; try done; lia.
Qed.

Lemma attemptOnce_loopRun w c method url body a st :
  exists n, (n <= 1)%nat /\
    loopRun n st (snd (attemptOnce w c method url body a st)).
Proof.
  unfold attemptOnce.
  assert (Hsel : forall ev st1,
            loopRun 0 st1 (snd (selectCtx w (Some (EvBackoff ev)) st1))).
  { intros ev st1. unfold selectCtx. cbn.
    exists (option_list (if ctxDone w (selects st1) then Some EvCancelled
                         else Some (EvBackoff ev))).
    destruct (ctxDone w (selects st1)); cbn; repeat split; try done; lia. }
  destruct (0 <? a).
  - specialize (Hsel (backoff a) st). destruct (selectCtx w _ st) as [fired st1].
    cbn [snd] in Hsel. destruct fired; [exists 0%nat; split; [lia|exact Hsel]|].
    destruct (newRequest w c method url body) as [rq|e];
      [|exists 0%nat; split; [lia|exact Hsel]].
    exists 1%nat. split; [lia|]. cbn.
    apply (loopRun_trans 0 1 _ _ _ Hsel).
    exists [EvDo rq]. cbn. repeat split; try done; lia.
  - destruct (newRequest w c method url body) as [rq|e];
      [|exists 0%nat; split; [lia|apply loopRun_refl]].
    exists 1%nat. split; [lia|]. cbn.
    exists [EvDo rq]. cbn. repeat split; try done; lia.
Qed.

Lemma retryLoop_loopRun w c method url body n :
  forall a lastErr st,
  exists k, (k <= n)%nat /\
    loopRun k st (snd (retryLoop w c method url body n a lastErr st)).
Proof.
  induction n as [|n IH]; intros a lastErr st.
  - exists 0%nat. split; [lia|apply loopRun_refl].
  - cbn [retryLoop].
    destruct (attemptOnce_loopRun w c method url body a st) as (k1 & Hk1 & H1).
    destruct (attemptOnce w c method url body a st) as [[e|r] st1]; cbn [snd] in *.
    + destruct (IH (a + 1) (Some e) st1) as (k2 & Hk2 & H2).
      exists (k1 + k2)%nat. split; [lia|]. eapply loopRun_trans; eassumption.
    + exists k1. split; [lia|exact H1].
Qed.

(* --------------------------------------------------------------------- *)
(** ** C1: the retry budget *)
(* --------------------------------------------------------------------- *)

(** C1. For every configured [maxRetries = R >= 0] and a non-empty bearer
    token (the request can be built, the cancellation signal stays
    silent, and [R + 1] is a Go int): if the transport returns a retryable
    outcome on every attempt, [doRequest] issues exactly [R + 1] transport
    calls and returns an error that wraps the cause of the last one; if the
    transport first answers 200 on attempt [k <= R + 1], after retryable
    outcomes, [doRequest] issues exactly [k] transport calls and returns
    that response. *)
Theorem doRequest_retry_budget (w : World) (c : Client) (method url : string)
    (body : option Reader) (req : Request) (st : State) (R : Z) :
  newRequest w c method url body = Ok req ->
  bearerToken c <> "" ->
  (forall n, ctxDone w n = false) ->
  maxRetries c = R -> 0 <= R < max_int ->
  ((forall i, (i <= Z.to_nat R)%nat ->
              retryable (roundTrip w (calls st + i) req) = true) ->
   exists e st',
     doRequest w c method url body st = (Err e, st') /\
     e = ErrMaxRetries (cause (roundTrip w (calls st + Z.to_nat R) req)) /\
     Unwrap e = Some (cause (roundTrip w (calls st + Z.to_nat R) req)) /\
     issued req (Z.to_nat R + 1) st st')
  /\
  (forall (k : nat) (resp : Response),
     (1 <= k <= Z.to_nat R + 1)%nat ->
     (forall i, (i < k - 1)%nat ->
                retryable (roundTrip w (calls st + i) req) = true) ->
     roundTrip w (calls st + (k - 1)) req = Responded resp ->
     StatusCode resp = 200 ->
     exists st',
       doRequest w c method url body st = (Ok resp, st') /\
       issued req k st st').
Proof.
  intros Hreq Htok Hquiet HR [HR0 HR1]. subst R. split.
  - intros Hr. eexists _, _. split; [|split; [reflexivity|split; [reflexivity|]]].
    + apply (doRequest_exhausted w c method url body req Hreq Htok Hquiet st HR0 Hr).
    + replace (Z.to_nat (maxRetries c) + 1)%nat with (S (Z.to_nat (maxRetries c)))
        by lia.
      apply issued_after.
  - intros k resp Hk Hr Hresp H200. eexists. split; [|apply issued_after].
    apply (doRequest_returns w c method url body req Hreq Htok Hquiet);
      [lia|exact Hr|].
    rewrite Hresp. by apply classify_ok.
Qed.

Lemma doRequest_retry_budget_witness :
  (exists e st',
     doRequest (statusServer 503 "503 Service Unavailable" "") (testClient 3)
       "GET" recordURL None initial = (Err e, st') /\
     e = ErrMaxRetries (ErrRetryable 503 "503 Service Unavailable") /\
     Unwrap e = Some (ErrRetryable 503 "503 Service Unavailable") /\
     issued (withHeaders (testClient 3) "GET" recordURL None) 4 initial st')
  /\
  (exists st',
     doRequest flakyServer (testClient 3) "GET" recordURL None initial =
       (Ok {| StatusCode := 200; Status := "200 OK";
              RespBody := {| data := "{}"; readErr := None |} |}, st') /\
     issued (withHeaders (testClient 3) "GET" recordURL None) 3 initial st').
Proof.
  split.
  - simple refine (proj1 (doRequest_retry_budget
                    (statusServer 503 "503 Service Unavailable" "")
                    (testClient 3) "GET" recordURL None
                    (withHeaders (testClient 3) "GET" recordURL None)
                    initial 3 _ _ _ _ _) _).
    + reflexivity.
    + discriminate.
    + reflexivity.
    + reflexivity.
    + split; [lia|reflexivity].
    + intros i _. reflexivity.
  - simple refine (proj2 (doRequest_retry_budget
                    flakyServer (testClient 3) "GET" recordURL None
                    (withHeaders (testClient 3) "GET" recordURL None)
                    initial 3 _ _ _ _ _) 3%nat _ _ _ _ _).
    + reflexivity.
    + discriminate.
    + reflexivity.
    + reflexivity.
    + split; [lia|reflexivity].
    + cbn. lia.
    + intros i Hi. cbn in Hi.
      destruct i as [|[|i]]; [reflexivity|reflexivity|lia].
    + reflexivity.
    + reflexivity.
Defined.

Example flakyServer_run :
  doRequest flakyServer (testClient 3) "GET" recordURL None initial =
  (Ok {| StatusCode := 200; Status := "200 OK";
         RespBody := {| data := "{}"; readErr := None |} |},
   {| calls := 3; selects := 3;
      trace := [EvPermit;
                EvDo (withHeaders (testClient 3) "GET" recordURL None);
                EvBackoff (1 * Second);
                EvDo (withHeaders (testClient 3) "GET" recordURL None);
                EvBackoff (4 * Second);
                EvDo (withHeaders (testClient 3) "GET" recordURL None)] |}).
Proof. reflexivity. Qed.

(* --------------------------------------------------------------------- *)
(** ** C2: the classes of status codes *)
(* --------------------------------------------------------------------- *)

(** The tests of the source agree with the classes of the specification. *)
Lemma statusClass_source code :
  statusClass code =
    if code =? 200 then Success
    else if retryStatus code then Retried else Terminal.
Proof.
  unfold statusClass, retryStatus.
  replace (code <=? 599) with (code <? 600) by lia. reflexivity.
Qed.

Example other_2xx_terminal :
  statusClass 201 = Terminal /\ statusClass 204 = Terminal /\
  statusClass 404 = Terminal /\ statusClass 401 = Terminal /\
  statusClass 429 = Retried /\ statusClass 408 = Retried /\
  statusClass 500 = Retried /\ statusClass 599 = Retried /\
  statusClass 600 = Terminal /\ statusClass 200 = Success.
Proof. repeat split. Qed.

(** C2. Let the [k]-th transport call of a call of [doRequest] be answered
    with a response, the earlier ones having met retryable outcomes (token
    set, request built, no cancellation).  If the status is exactly 200 the
    response is returned.  If it is 429, 408 or 5xx the call goes on: with
    budget left a further transport call is made, without it the call
    ends in the exhaustion error that wraps this status.  For every other
    status, the other 2xx codes included, the call ends here, after exactly
    [k] transport calls (exactly 1 when the status comes first), with an
    error whose message embeds the status code and the raw body. *)
Theorem doRequest_status_classes (w : World) (c : Client) (method url : string)
    (body : option Reader) (req : Request) (st : State) (k : nat)
    (resp : Response) :
  newRequest w c method url body = Ok req ->
  bearerToken c <> "" ->
  (forall n, ctxDone w n = false) ->
  (1 <= k <= Z.to_nat (maxRetries c + 1))%nat ->
  (forall i, (i < k - 1)%nat ->
             retryable (roundTrip w (calls st + i) req) = true) ->
  roundTrip w (calls st + (k - 1)) req = Responded resp ->
  let run := doRequest w c method url body st in
  match statusClass (StatusCode resp) with
  | Success => fst run = Ok resp /\ issued req k st (snd run)
  | Retried =>
      ((k < Z.to_nat (maxRetries c + 1))%nat ->
       (calls st + k < calls (snd run))%nat) /\
      (k = Z.to_nat (maxRetries c + 1) ->
       fst run = Err (ErrMaxRetries
                        (ErrRetryable (StatusCode resp) (Status resp))) /\
       issued req k st (snd run))
  | Terminal =>
      let e := ErrHTTP (StatusCode resp) (Status resp) (data (RespBody resp)) in
      fst run = Err e /\ issued req k st (snd run) /\
      Error_ e = "HTTP " +:+ itoa (StatusCode resp) +:+ ": " +:+ Status resp
                 +:+ " - " +:+ data (RespBody resp)
  end.
Proof.
  intros Hreq Htok Hquiet Hk Hr Hresp run. subst run.
  rewrite statusClass_source.
  destruct (StatusCode resp =? 200) eqn:E200.
  - apply Z.eqb_eq in E200.
    rewrite (doRequest_returns w c method url body req Hreq Htok Hquiet st k
               (Ok resp) Hk Hr); [split; [reflexivity|apply issued_after]|].
    rewrite Hresp. by apply classify_ok.
  - destruct (retryStatus (StatusCode resp)) eqn:Eretry.
    + assert (Hall : forall i, (i < k)%nat ->
                retryable (roundTrip w (calls st + i) req) = true).
      { intros i Hi. destruct (decide (i = k - 1)%nat) as [->|Hne].
        - by rewrite Hresp.
        - apply Hr. lia. }
      rewrite (doRequest_prefix w c method url body req Hreq Htok st k);
        [|intros; apply Hquiet|exact Hall|lia].
      split.
      * intros Hlt.
        destruct (Z.to_nat (maxRetries c + 1) - k)%nat as [|n] eqn:En; [lia|].
        cbn [retryLoop].
        rewrite (pass_after w c method url body req Hreq)
          by (intros; apply Hquiet).
        destruct (classify _) as [e|r]; cbn [snd].
        -- destruct (retryLoop_loopRun w c method url body n
                       (Z.of_nat k + 1) (Some e)
                       (after req (entered c st) (S k)))
             as (m & _ & tr & _ & _ & _ & _ & Hc & _).
           rewrite Hc. cbn. rewrite calls_entered. lia.
        -- cbn. rewrite calls_entered. lia.
      * intros Heq. rewrite <- Heq, Nat.sub_diag. cbn [retryLoop fst snd].
        destruct k as [|k']; [lia|].
        replace (S k' - 1)%nat with k' in Hresp by lia. rewrite Hresp.
        split; [reflexivity|apply issued_after].
    + rewrite (doRequest_returns w c method url body req Hreq Htok Hquiet st k
                 (Err (ErrHTTP (StatusCode resp) (Status resp)
                         (data (RespBody resp)))) Hk Hr).
      * split; [reflexivity|split; [apply issued_after|reflexivity]].
      * rewrite Hresp. apply classify_terminal.
        unfold terminalStatus. by rewrite E200, Eretry.
Qed.

Lemma doRequest_status_classes_witness :
  let run := doRequest (statusServer 404 "404 Not Found" "Not found")
               (testClient 3) "GET" recordURL None initial in
  let e := ErrHTTP 404 "404 Not Found" "Not found" in
  fst run = Err e /\
  issued (withHeaders (testClient 3) "GET" recordURL None) 1 initial (snd run) /\
  Error_ e = "HTTP 404: 404 Not Found - Not found".
Proof.
  simple refine (doRequest_status_classes
           (statusServer 404 "404 Not Found" "Not found")
           (testClient 3) "GET" recordURL None
           (withHeaders (testClient 3) "GET" recordURL None)
           initial 1
           {| StatusCode := 404; Status := "404 Not Found";
              RespBody := {| data := "Not found"; readErr := None |} |}
           _ _ _ _ _ _).
  - reflexivity.
  - discriminate.
  - reflexivity.
  - cbn. lia.
  - intros i Hi. cbn in Hi. lia.
  - reflexivity.
Defined.

(* --------------------------------------------------------------------- *)
(** ** C4: the missing credential *)
(* --------------------------------------------------------------------- *)

Lemma noIO_refl st : noIO st st.
Proof. by repeat split. Qed.



Lemma noIO_trans st1 st2 st3 : noIO st1 st2 -> noIO st2 st3 -> noIO st1 st3.
Proof. intros (?&?&?) (?&?&?). repeat split; congruence. Qed.





(* --------------------------------------------------------------------- *)
(** ** C3: pacing permits *)
(* --------------------------------------------------------------------- *)

(** C3, as the claim states it, fails: a call that is retried once makes
    two transport calls on a single permit. *)
Lemma permit_not_per_attempt :
  ~ permitPerAttempt
      (trace (snd (doRequest (statusServer 503 "503 Service Unavailable" "")
                     (testClient 1) "GET" recordURL None initial))).
Proof. vm_compute. discriminate. Qed.

Example retried_call_trace :
  trace (snd (doRequest (statusServer 503 "503 Service Unavailable" "")
                (testClient 1) "GET" recordURL None initial)) =
  [EvPermit; EvDo (withHeaders (testClient 1) "GET" recordURL None);
   EvBackoff (1 * Second);
   EvDo (withHeaders (testClient 1) "GET" recordURL None)].
Proof. reflexivity. Qed.

Lemma doRequest_without_limiter w c method url body st :
  rateLimiter c = None ->
  permits (trace (snd (doRequest w c method url body st))) = permits (trace st).
Proof.
  intros Hl. unfold doRequest. destruct (String.eqb _ _); [reflexivity|].
  rewrite Hl.
  destruct (retryLoop_loopRun w c method url body
              (Z.to_nat (maxRetries c + 1)) 0 None st)
    as (k & _ & tr & Ht & Hp & _).
  rewrite Ht, permits_app, Hp. lia.
Qed.

Lemma doRequest_with_limiter w c method url body st :
  rateLimiter c <> None -> bearerToken c <> "" ->
  ctxDone w (selects st) = false ->
  exists tr,
    trace (snd (doRequest w c method url body st)) = trace st ++ EvPermit :: tr /\
    permits tr = 0%nat.
Proof.
  intros Hl Htok Hq. unfold doRequest.
  rewrite (token_eqb c Htok).
  destruct (rateLimiter c) as [t|]; [|done].
  unfold selectCtx, emit. rewrite Hq. cbn [calls selects trace].
  match goal with
  | |- context [retryLoop w c method url body ?n 0 None ?s] =>
      destruct (retryLoop_loopRun w c method url body n 0 None s)
        as (k & _ & tr & Ht & Hp & _)
  end.
  exists tr. split; [|exact Hp].
  rewrite Ht. cbn [trace]. by rewrite <- app_assoc.
Qed.

(** Options that never ask for a positive rate leave the limiter as it
    was, and leave a rate that is not positive. *)
Lemma applyOptions_rate_off opts :
  forall d d',
  (forall n, WithRateLimit n ∈ opts -> n <= 0) ->
  applyOptions opts d = Some d' ->
  rateLimiter (fields d') = rateLimiter (fields d) /\
  (rateLimit (fields d) <= 0 -> rateLimit (fields d') <= 0) /\
  ((exists n, WithRateLimit n ∈ opts) -> rateLimit (fields d') <= 0).
Proof.
  induction opts as [|opt opts IH]; intros d d' Hall.
  - intros [= <-]. repeat split; [done|].
    intros [n Hn]. by apply elem_of_nil in Hn.
  - assert (Hrest : forall n, WithRateLimit n ∈ opts -> n <= 0).
    { intros n Hn. apply Hall. by right. }
    assert (Hstep : forall d1,
              rateLimiter (fields d1) = rateLimiter (fields d) ->
              rateLimit (fields d1) = rateLimit (fields d) ->
              (forall n, opt <> WithRateLimit n) ->
              applyOptions opts d1 = Some d' ->
              rateLimiter (fields d') = rateLimiter (fields d) /\
              (rateLimit (fields d) <= 0 -> rateLimit (fields d') <= 0) /\
              ((exists n, WithRateLimit n ∈ opt :: opts) ->
               rateLimit (fields d') <= 0)).
    { intros d1 Hl Hr Hopt Happ.
      destruct (IH d1 d' Hrest Happ) as (Hl' & Hkeep & Hany).
      split; [congruence|]. split; [rewrite <- Hr; exact Hkeep|].
      intros [n Hn]. apply Hany.
      apply elem_of_cons in Hn as [Heq|Hn]; [by destruct (Hopt n)|by exists n]. }
    destruct opt as [[t|]|u|t|m|n|ua|ct|tok|];
      cbn [applyOptions applyOption mbind option_bind];
      try (by apply Hstep); try discriminate.
    + destruct (transport d); cbn [mbind option_bind]; [|discriminate].
      by apply Hstep.
    + assert (Hn : n <= 0) by (apply Hall; by left).
      destruct (0 <? n) eqn:E; [lia|]. cbn [mbind option_bind].
      intros Happ. destruct (IH _ d' Hrest Happ) as (Hl' & Hkeep & Hany).
      cbn in Hl', Hkeep. split; [done|]. split; intros; by apply Hkeep.
Qed.

(** A rate of 0 given after a positive one resets the rate but not the
    ticker that the positive one created. *)
Example rate_reset_keeps_ticker :
  exists c, NewClient [WithRateLimit 5; WithRateLimit 0] = Some c /\
            rateLimit c = 0 /\ rateLimiter c = Some {| period := 200000000 |}.
Proof. eexists. repeat split. Qed.

(** C3 (amended). For a client built by [NewClient]: when rate limiting is
    enabled (rate > 0) the client has a limiter, and a call of [doRequest]
    waits for one pacing permit, before its first transport call; the
    retried attempts of the call acquire none.  When every rate option
    given is 0 or negative the client has no limiter and its calls wait for
    no permit. *)
Theorem doRequest_one_permit (opts : list ClientOption) (c : Client)
    (w : World) (method url : string) (body : option Reader) (st : State) :
  NewClient opts = Some c ->
  let st' := snd (doRequest w c method url body st) in
  (0 < rateLimit c ->
   rateLimiter c <> None /\
   (bearerToken c <> "" -> ctxDone w (selects st) = false ->
    exists tr, trace st' = trace st ++ EvPermit :: tr /\ permits tr = 0%nat))
  /\
  ((exists n, WithRateLimit n ∈ opts) ->
   (forall n, WithRateLimit n ∈ opts -> n <= 0) ->
   rateLimiter c = None /\ permits (trace st') = permits (trace st)).
Proof.
  intros Hnew st'. split.
  - intros Hrate.
    assert (Hl : rateLimiter c <> None).
    { unfold NewClient, construct in Hnew.
      destruct (applyOptions opts _) as [d0|]; [|discriminate].
      cbn [mbind option_bind] in Hnew.
      destruct (0 <? rateLimit (fields d0)) eqn:E.
      - destruct (NewTicker _) as [t|]; [|discriminate].
        cbn in Hnew. destruct (transport d0); [|discriminate].
        injection Hnew as <-. discriminate.
      - cbn in Hnew. destruct (transport d0); [|discriminate].
        injection Hnew as <-. lia. }
    split; [exact Hl|]. intros Htok Hq.
    by apply doRequest_with_limiter.
  - intros Hex Hall.
    assert (Hl : rateLimiter c = None).
    { unfold NewClient, construct in Hnew.
      destruct (applyOptions opts _) as [d1|] eqn:Happ; [|discriminate].
      destruct (applyOptions_rate_off opts _ d1 Hall Happ)
        as (Hlim & _ & Hany).
      cbn [mbind option_bind] in Hnew.
      specialize (Hany Hex).
      destruct (0 <? rateLimit (fields d1)) eqn:E; [lia|].
      cbn in Hnew. destruct (transport d1); [|discriminate].
      injection Hnew as <-. exact Hlim. }
    split; [exact Hl|]. by apply doRequest_without_limiter.
Qed.

Lemma doRequest_one_permit_witness :
  (exists tr,
     trace (snd (doRequest (statusServer 503 "503 Service Unavailable" "")
                   (testClient 1) "GET" recordURL None initial))
       = trace initial ++ EvPermit :: tr /\
     permits tr = 0%nat)
  /\
  (NewClient [WithRateLimit 0; WithBearerToken "test-token"]
     = Some unpacedClient /\
   rateLimiter unpacedClient = None /\
   permits (trace (snd (doRequest
                          (statusServer 503 "503 Service Unavailable" "")
                          unpacedClient "GET" recordURL None initial)))
     = permits (trace initial)).
Proof.
  split.
  - simple refine (proj2 (proj1 (doRequest_one_permit (testOptions 1)
             (testClient 1) (statusServer 503 "503 Service Unavailable" "")
             "GET" recordURL None initial _) _) _ _).
    + reflexivity.
    + reflexivity.
    + discriminate.
    + reflexivity.
  - split; [reflexivity|].
    simple refine (proj2 (doRequest_one_permit
             [WithRateLimit 0; WithBearerToken "test-token"] unpacedClient
             (statusServer 503 "503 Service Unavailable" "")
             "GET" recordURL None initial _) _ _).
    + reflexivity.
    + exists 0. by left.
    + intros n Hn. apply elem_of_cons in Hn as [Heq|Hn].
      * injection Heq as ->. lia.
      * apply elem_of_cons in Hn as [Heq|Hn]; [discriminate Heq|].
        by apply elem_of_nil in Hn.
Defined.

(* --------------------------------------------------------------------- *)
(** ** C5: the backoff between attempts *)
(* --------------------------------------------------------------------- *)

Lemma wrap_in_range z : min_int <= z <= max_int -> wrap z = z.
Proof.
  unfold min_int, max_int, wrap. intros H.
  rewrite Z.mod_small; lia.
Qed.

(** As long as the nanoseconds of [a * a] seconds fit a [time.Duration],
    the backoff before attempt [a + 1] is [a * a] seconds. *)
Lemma backoff_exact a :
  0 <= a -> a * a * Second <= max_int -> backoff a = a * a * Second.
Proof.
  unfold backoff, int_mul, Second. intros Ha Hb.
  assert (H0 : 0 <= a * a) by nia.
  rewrite (wrap_in_range (a * a)) by (unfold min_int, max_int in *; lia).
  apply wrap_in_range. unfold min_int, max_int in *. lia.
Qed.

Example backoff_1_4_9 :
  backoff 1 = 1 * Second /\ backoff 2 = 4 * Second /\ backoff 3 = 9 * Second.
Proof. repeat split. Qed.

(** The largest attempt number whose backoff fits a [time.Duration]. *)
Example backoff_range :
  96038 * 96038 * Second <= max_int < 96039 * 96039 * Second.
Proof. unfold Second, max_int. lia. Qed.

Lemma runEvents_last req k :
  (1 <= k)%nat ->
  exists pre, runEvents req k = pre ++ [EvDo req] /\
              attempts pre = replicate (k - 1) req.
Proof.
  intros Hk. destruct k as [|[|j]]; [lia|by exists []|].
  exists (EvDo req :: passes req 1 j ++ [EvBackoff (backoff (1 + Z.of_nat j))]).
  split.
  - change (runEvents req (S (S j))) with (EvDo req :: passes req 1 (S j)).
    rewrite passes_snoc. cbn. by rewrite <- app_assoc.
  - change (EvDo req :: ?x) with ([EvDo req] ++ x).
    rewrite !attempts_app, attempts_passes.
    change (attempts [EvDo req]) with [req].
    change (attempts [EvBackoff _]) with (@nil Request).
    rewrite app_nil_r. reflexivity.
Qed.

Lemma runEvents_next req k :
  (1 <= k)%nat ->
  runEvents req (S k) =
  runEvents req k ++ [EvBackoff (backoff (Z.of_nat k)); EvDo req].
Proof.
  intros Hk. destruct k as [|j]; [lia|].
  change (runEvents req (S (S j))) with (EvDo req :: passes req 1 (S j)).
  rewrite passes_snoc. cbn [runEvents app].
  by replace (1 + Z.of_nat j) with (Z.of_nat (S j)) by lia.
Qed.

(** C5. In a call whose first [k >= 1] transport calls met retryable
    outcomes, with budget for an attempt [k + 1] (and [k * k] seconds
    within the range of [time.Duration]): between attempt [k] and attempt
    [k + 1] the call waits [k * k] seconds; if the cancellation signal
    fires during that wait, the call returns the context error and makes
    no further attempt. *)
Theorem doRequest_backoff (w : World) (c : Client) (method url : string)
    (body : option Reader) (req : Request) (st : State) (k : nat) :
  newRequest w c method url body = Ok req ->
  bearerToken c <> "" ->
  (1 <= k <= Z.to_nat (maxRetries c))%nat ->
  Z.of_nat k * Z.of_nat k * Second <= max_int ->
  let wait := (selects (entered c st) + pred k)%nat in
  (forall i, (selects st <= i < wait)%nat -> ctxDone w i = false) ->
  (forall i, (i < k)%nat -> retryable (roundTrip w (calls st + i) req) = true) ->
  let run := doRequest w c method url body st in
  exists pre,
    attempts pre = attempts (trace st) ++ replicate (k - 1) req /\
    (ctxDone w wait = false ->
     exists post,
       trace (snd run) =
         pre ++ EvDo req :: EvBackoff (Z.of_nat k * Z.of_nat k * Second)
             :: EvDo req :: post) /\
    (ctxDone w wait = true ->
     fst run = Err (ErrContext (ctxErr w)) /\
     trace (snd run) = pre ++ [EvDo req; EvCancelled] /\
     issued req k st (snd run)).
Proof.
  intros Hreq Htok Hk Hfit wait Hq Hr run. subst run.
  destruct (runEvents_last req k) as (pre0 & Hpre & Hatt); [lia|].
  exists (trace (entered c st) ++ pre0). split.
  { by rewrite attempts_app, attempts_entered, Hatt. }
  rewrite (doRequest_prefix w c method url body req Hreq Htok st k);
    [|exact Hq|exact Hr|lia].
  destruct (Z.to_nat (maxRetries c + 1) - k)%nat as [|n] eqn:En; [lia|].
  cbn [retryLoop]. split.
  - intros Hw.
    rewrite (pass_after w c method url body req Hreq) by (intros; exact Hw).
    assert (Htr : trace (after req (entered c st) (S k)) =
                  (trace (entered c st) ++ pre0) ++
                  [EvDo req; EvBackoff (Z.of_nat k * Z.of_nat k * Second);
                   EvDo req]).
    { cbn [after trace]. rewrite runEvents_next by lia. rewrite Hpre.
      rewrite backoff_exact by lia. by rewrite <- !app_assoc. }
    destruct (classify _) as [e|r]; cbn [snd].
    + destruct (retryLoop_loopRun w c method url body n (Z.of_nat k + 1)
                  (Some e) (after req (entered c st) (S k)))
        as (m & _ & tr & Ht & _).
      exists tr. rewrite Ht, Htr. by rewrite <- !app_assoc.
    + exists []. by rewrite Htr.
  - intros Hw.
    rewrite attemptOnce_cancelled; [|lia|exact Hw].
    cbn [fst snd after trace calls]. split; [reflexivity|]. split.
    + rewrite Hpre. by rewrite <- !app_assoc.
    + split; cbn [calls trace].
      * by rewrite calls_entered.
      * rewrite !attempts_app, attempts_entered, attempts_runEvents.
        cbn. by rewrite app_nil_r.
Qed.

Lemma doRequest_backoff_witness :
  let req := withHeaders (testClient 3) "GET" recordURL None in
  (exists pre post,
     attempts pre = [req] /\
     trace (snd (doRequest (statusServer 503 "503 Service Unavailable" "")
                   (testClient 3) "GET" recordURL None initial)) =
       pre ++ EvDo req :: EvBackoff (4 * Second) :: EvDo req :: post)
  /\
  (exists pre,
     attempts pre = [req] /\
     let run := doRequest
                  (cancelledAt 2 (statusServer 503 "503 Service Unavailable" ""))
                  (testClient 3) "GET" recordURL None initial in
     fst run = Err (ErrContext Canceled) /\
     trace (snd run) = pre ++ [EvDo req; EvCancelled] /\
     issued req 2 initial (snd run)).
Proof.
  intros req. split.
  - destruct (doRequest_backoff (statusServer 503 "503 Service Unavailable" "")
                (testClient 3) "GET" recordURL None req initial 2)
      as (pre & Hpre & Hwait & _).
    + reflexivity.
    + discriminate.
    + cbn. lia.
    + unfold Second, max_int. lia.
    + reflexivity.
    + reflexivity.
    + destruct (Hwait eq_refl) as (post & Hpost).
      exists pre, post. split; [exact Hpre|exact Hpost].
  - destruct (doRequest_backoff
                (cancelledAt 2 (statusServer 503 "503 Service Unavailable" ""))
                (testClient 3) "GET" recordURL None req initial 2)
      as (pre & Hpre & _ & Hcancel).
    + reflexivity.
    + discriminate.
    + cbn. lia.
    + unfold Second, max_int. lia.
    + intros i Hi. cbn in Hi. cbn. destruct i as [|[|i]]; [reflexivity|reflexivity|lia].
    + reflexivity.
    + exists pre. split; [exact Hpre|]. exact (Hcancel eq_refl).
Defined.

(* --------------------------------------------------------------------- *)
(** ** C9: the search URL *)
(* --------------------------------------------------------------------- *)

(** The query string of the three shapes of [searchValues]. *)
Lemma Encode_searchValues p :
  URL.Encode (searchValues p) =
    "q=" +:+ URL.QueryEscape (Query p) +:+
    "&rows=" +:+ URL.QueryEscape (if 0 <? Rows p then itoa (Rows p) else "10") +:+
    (if 0 <? Start p then "&start=" +:+ URL.QueryEscape (itoa (Start p)) else "").
Proof.
  unfold searchValues.
  destruct (0 <? Start p), (0 <? Rows p);
    generalize (itoa (Rows p)) (itoa (Start p)) (Query p); intros r s q;
    cbv -[String.append URL.QueryEscape]; cbn;
    rewrite ?append_assoc; cbn; rewrite ?append_nil_r; reflexivity.
Qed.

(** Decimal numerals pass through [QueryEscape] unchanged. *)
Lemma QueryEscape_uint d :
  URL.QueryEscape (DecimalString.NilEmpty.string_of_uint d) =
  DecimalString.NilEmpty.string_of_uint d.
Proof. induction d; cbn; by rewrite ?IHd. Qed.

Lemma QueryEscape_itoa n : URL.QueryEscape (itoa n) = itoa n.
Proof.
  unfold itoa, DecimalString.NilZero.string_of_int,
    DecimalString.NilZero.string_of_uint.
  destruct (Z.to_int n) as [d|d]; destruct d; cbn;
    by rewrite ?QueryEscape_uint.
Qed.

Lemma Cut_app a b sep :
  ContainsByte a sep = false -> URL.Cut (a +:+ String sep b) sep = (a, b, true).
Proof.
  induction a as [|c a IH]; cbn.
  - intros _. unfold byte_eqb. by rewrite Ascii.eqb_refl.
  - intros [Hc Ha]%orb_false_iff. by rewrite Hc, (IH Ha).
Qed.

Lemma Split_app a b sep :
  ContainsByte a sep = false -> Split (a +:+ String sep b) sep = a :: Split b sep.
Proof.
  induction a as [|c a IH]; cbn.
  - intros _. unfold byte_eqb. by rewrite Ascii.eqb_refl.
  - intros [Hc Ha]%orb_false_iff. by rewrite Hc, (IH Ha).
Qed.

(** Escaped text holds none of the bytes that delimit a query. *)
Lemma escapeByte_delims c :
  ContainsByte (URL.escapeByte c) "&" = false /\
  ContainsByte (URL.escapeByte c) "=" = false /\
  ContainsByte (URL.escapeByte c) ";" = false /\
  ContainsByte (URL.escapeByte c) "#" = false.
Proof. by each_byte c. Qed.

Lemma QueryEscape_delims s :
  ContainsByte (URL.QueryEscape s) "&" = false /\
  ContainsByte (URL.QueryEscape s) "=" = false /\
  ContainsByte (URL.QueryEscape s) ";" = false /\
  ContainsByte (URL.QueryEscape s) "#" = false.
Proof.
  induction s as [|c s (H1 & H2 & H3 & H4)]; [done|].
  cbn [URL.QueryEscape]. rewrite !ContainsByte_app, H1, H2, H3, H4.
  destruct (escapeByte_delims c) as (-> & -> & -> & ->). done.
Qed.

Lemma QueryUnescape_escapeByte c r :
  URL.QueryUnescape (URL.escapeByte c +:+ r) = String c <$> URL.QueryUnescape r.
Proof. by each_byte c. Qed.

(** Unescaping undoes escaping. *)
Lemma QueryUnescape_QueryEscape s :
  URL.QueryUnescape (URL.QueryEscape s) = Some s.
Proof.
  induction s as [|c s IH]; [reflexivity|].
  cbn [URL.QueryEscape]. by rewrite QueryUnescape_escapeByte, IH.
Qed.

(** One [key=value] pair of an encoded query, read back. *)
Lemma parsePair_encoded (m : URL.Values) key value :
  ContainsByte key "=" = false -> ContainsByte key ";" = false ->
  key <> "" -> URL.QueryUnescape key = Some key ->
  URL.parsePair m (key +:+ String "=" (URL.QueryEscape value)) =
  <[key := default [] (m !! key) ++ [value]]> m.
Proof.
  intros Heq Hsemi Hne Hkey. unfold URL.parsePair.
  destruct (QueryEscape_delims value) as (_ & _ & Hv & _).
  rewrite ContainsByte_app. cbn [ContainsByte]. rewrite Hsemi, Hv. cbn.
  destruct (String.eqb _ _) eqn:E.
  { apply String.eqb_eq in E. destruct key; [done|discriminate E]. }
  rewrite (Cut_app _ _ _ Heq), Hkey, QueryUnescape_QueryEscape. reflexivity.
Qed.

Lemma Cut_absent a sep :
  ContainsByte a sep = false -> URL.Cut a sep = (a, "", false).
Proof.
  induction a as [|c a IH]; cbn; [done|].
  intros [Hc Ha]%orb_false_iff. by rewrite Hc, (IH Ha).
Qed.

(** The server reads back from the URL the very parameters the client
    set, provided the base URL has no query and no fragment of its own. *)
Lemma Query_buildSearchURL c p :
  ContainsByte (apiURL c) "?" = false -> ContainsByte (apiURL c) "#" = false ->
  URL.Query_ (buildSearchURL c p) = searchValues p.
Proof.
  intros Hq Hf. unfold URL.Query_, URL.RawQuery, buildSearchURL.
  rewrite Encode_searchValues.
  set (eq := URL.QueryEscape (Query p)).
  set (er := URL.QueryEscape (if 0 <? Rows p then itoa (Rows p) else "10")).
  set (es := URL.QueryEscape (itoa (Start p))).
  destruct (QueryEscape_delims (Query p)) as (Hq1 & Hq2 & Hq3 & Hq4).
  destruct (QueryEscape_delims (if 0 <? Rows p then itoa (Rows p) else "10"))
    as (Hr1 & Hr2 & Hr3 & Hr4).
  destruct (QueryEscape_delims (itoa (Start p))) as (Hs1 & Hs2 & Hs3 & Hs4).
  fold eq in Hq1, Hq2, Hq3, Hq4. fold er in Hr1, Hr2, Hr3, Hr4.
  fold es in Hs1, Hs2, Hs3, Hs4.
  set (tail := if 0 <? Start p then "&start=" +:+ es else "").
  assert (Htail : ContainsByte tail "#" = false).
  { subst tail. destruct (0 <? Start p); [|done].
    rewrite ContainsByte_app, Hs4. done. }
  rewrite Cut_absent.
  2:{ rewrite !ContainsByte_app, Hf, Hq4, Hr4, Htail. done. }
  change ((apiURL c +:+ "/search") +:+ "?" +:+ ?q)
    with ((apiURL c +:+ "/search") +:+ String "?" q).
  rewrite Cut_app by (rewrite ContainsByte_app, Hq; done).
  unfold URL.ParseQuery.
  change ("q=" +:+ eq +:+ "&rows=" +:+ er +:+ tail)
    with (String "q" (String "=" (eq +:+ String "&" ("rows=" +:+ er +:+ tail)))).
  change (String "q" (String "=" (eq +:+ ?x)))
    with (("q" +:+ String "=" eq) +:+ x).
  rewrite Split_app by (cbn; exact Hq1).
  assert (Hrows : forall m : URL.Values,
            URL.parsePair m ("rows" +:+ String "=" er) =
            <["rows" := default [] (m !! "rows") ++
                        [if 0 <? Rows p then itoa (Rows p) else "10"]]> m).
  { intros m. by apply parsePair_encoded. }
  unfold searchValues, URL.Set_. subst tail.
  destruct (0 <? Start p).
  - change ("rows=" +:+ er +:+ "&start=" +:+ es)
      with (String "r" (String "o" (String "w" (String "s" (String "="
             (er +:+ String "&" ("start" +:+ String "=" es))))))).
    change (String "r" (String "o" (String "w" (String "s" (String "="
             (er +:+ ?x))))))
      with (("rows" +:+ String "=" er) +:+ x).
    rewrite Split_app by (cbn; exact Hr1).
    rewrite Split_absent by (cbn; exact Hs1).
    cbn [foldl]. subst eq es.
    rewrite parsePair_encoded by done.
    rewrite Hrows. rewrite parsePair_encoded by done.
    rewrite lookup_empty. cbn [default app].
    rewrite (lookup_insert_ne _ "q" "rows") by done.
    rewrite lookup_empty. cbn [default app].
    rewrite (lookup_insert_ne _ "rows" "start"),
      (lookup_insert_ne _ "q" "start") by done.
    rewrite lookup_empty. cbn [default app].
    destruct (0 <? Rows p); by apply insert_insert_ne.
  - rewrite append_nil_r.
    change ("rows=" +:+ er) with ("rows" +:+ String "=" er).
    rewrite Split_absent by (cbn; exact Hr1).
    cbn [foldl]. subst eq.
    rewrite parsePair_encoded by done. rewrite Hrows.
    rewrite lookup_empty. cbn [default app].
    rewrite (lookup_insert_ne _ "q" "rows") by done.
    rewrite lookup_empty. cbn [default app].
    by destruct (0 <? Rows p).
Qed.

(** A number reads back from its decimal numeral. *)
Lemma atoi_itoa n : atoi (itoa n) = Some n.
Proof.
  unfold atoi, itoa.
  rewrite DecimalString.NilZero.isi.
  - by rewrite DecimalZ.of_to.
  - intros H. pose proof (DecimalZ.of_to n) as Hn. rewrite H in Hn.
    cbn in Hn. subst n. discriminate H.
  - intros H. pose proof (DecimalZ.of_to n) as Hn. rewrite H in Hn.
    cbn in Hn. subst n. discriminate H.
Qed.

(** C9. For every [SearchParams] value, the URL built by [buildSearchURL]
    carries [q] set to the query string, carries [start] exactly when the
    start offset is positive (so not when it is 0), and carries [rows] set
    to the requested row count when that is positive and to 10 otherwise;
    the values of [rows] and [start] are decimal numerals that read back
    as the row count and the offset; the URL carries no other parameter,
    and a server that parses it reads back exactly these values (the base
    URL having no query or fragment of its own). *)
Theorem buildSearchURL_parameters (c : Client) (p : SearchParams) :
  let v := searchValues p in
  v !! "q" = Some [Query p] /\
  v !! "start" = (if 0 <? Start p then Some [itoa (Start p)] else None) /\
  v !! "rows" = Some [if 0 <? Rows p then itoa (Rows p) else "10"] /\
  atoi (URL.Get v "rows") = Some (if 0 <? Rows p then Rows p else 10) /\
  atoi (URL.Get v "start") = (if 0 <? Start p then Some (Start p) else None) /\
  dom v = {["q"; "rows"]} ∪ (if 0 <? Start p then {["start"]} else ∅) /\
  buildSearchURL c p =
    apiURL c +:+ "/search?" +:+
    "q=" +:+ URL.QueryEscape (Query p) +:+
    "&rows=" +:+ (if 0 <? Rows p then itoa (Rows p) else "10") +:+
    (if 0 <? Start p then "&start=" +:+ itoa (Start p) else "") /\
  (ContainsByte (apiURL c) "?" = false ->
   ContainsByte (apiURL c) "#" = false ->
   URL.Query_ (buildSearchURL c p) = v).
Proof.
  cbv zeta. split; [|split; [|split; [|split; [|split; [|split; [|split]]]]]].
  - unfold searchValues, URL.Set_.
    destruct (0 <? Start p), (0 <? Rows p); by simplify_map_eq.
  - unfold searchValues, URL.Set_.
    destruct (0 <? Start p), (0 <? Rows p); by simplify_map_eq.
  - unfold searchValues, URL.Set_.
    destruct (0 <? Start p), (0 <? Rows p); by simplify_map_eq.
  - unfold URL.Get, searchValues, URL.Set_.
    destruct (0 <? Start p), (0 <? Rows p); simplify_map_eq;
      by rewrite ?atoi_itoa.
  - unfold URL.Get, searchValues, URL.Set_.
    destruct (0 <? Start p), (0 <? Rows p); simplify_map_eq;
      by rewrite ?atoi_itoa.
  - unfold searchValues, URL.Set_.
    destruct (0 <? Start p), (0 <? Rows p);
      rewrite ?dom_insert_L, dom_empty_L; set_solver.
  - unfold buildSearchURL. rewrite Encode_searchValues.
    rewrite append_assoc, QueryEscape_itoa.
    destruct (0 <? Rows p); by rewrite ?QueryEscape_itoa.
  - apply Query_buildSearchURL.
Qed.

Lemma buildSearchURL_parameters_witness :
  let p := {| Query := "family-name:Smith AND given-names:J*";
              Start := 20; Rows := 25 |} in
  let url := buildSearchURL (testClient 3) p in
  url = "http://127.0.0.1:8080/v3.0/search?q=family-name%3ASmith+AND+given-names%3AJ%2A&rows=25&start=20" /\
  URL.Query_ url !! "q" = Some ["family-name:Smith AND given-names:J*"] /\
  URL.Query_ url !! "rows" = Some ["25"] /\
  URL.Query_ url !! "start" = Some ["20"] /\
  dom (URL.Query_ url) = {["q"; "rows"; "start"]}.
Proof.
  intros p url.
  destruct (buildSearchURL_parameters (testClient 3) p)
    as (Hq & Hs & Hr & _ & _ & Hd & Hurl & Hback).
  split; [exact Hurl|].
  subst url. rewrite (Hback eq_refl eq_refl).
  split; [exact Hq|]. split; [exact Hr|]. split; [exact Hs|].
  rewrite Hd. cbn. set_solver.
Defined.

Example searchURL_no_window :
  let url := buildSearchURL (testClient 3)
               {| Query := "family-name:Smith"; Start := 0; Rows := 0 |} in
  url = "http://127.0.0.1:8080/v3.0/search?q=family-name%3ASmith&rows=10" /\
  URL.Query_ url !! "rows" = Some ["10"] /\
  URL.Query_ url !! "start" = None.
Proof. intros url. split; [reflexivity|]. by vm_compute. Qed.

Example searchURL_first_page :
  buildSearchURL (testClient 3)
    {| Query := "family-name:Smith"; Start := 0; Rows := 10 |} =
  "http://127.0.0.1:8080/v3.0/search?q=family-name%3ASmith&rows=10".
Proof. reflexivity. Qed.

Example searchURL_defaults :
  buildSearchURL (testClient 3)
    {| Query := "given names"; Start := 20; Rows := 0 |} =
  "http://127.0.0.1:8080/v3.0/search?q=given+names&rows=10&start=20".
Proof. reflexivity. Qed.

(* --------------------------------------------------------------------- *)
(** ** Search iterator *)
(* --------------------------------------------------------------------- *)

Example pagedServer_drained :
  exists si st,
    drain 6 pagedServer (SearchIter (testClient 3) testParams) initial =
      Some ([(searchHit "0000-0000-0000-0001", 25);
             (searchHit "0000-0000-0000-0002", 25);
             (searchHit "0000-0000-0000-0003", 25);
             (searchHit "0000-0000-0000-0004", 25);
             (searchHit "0000-0000-0000-0005", 25)], si, st) /\
    Start <$> fetches (trace st) = [0; 10; 20] /\
    calls st = 3%nat /\ TotalResults si = 25 /\ Error si = None.
Proof. eexists _, _. split; [vm_compute; reflexivity|]. vm_compute. done. Qed.

(** A call of [doRequest] enters no search. *)
Lemma doRequest_fetches w c method url body st :
  fetches (trace (snd (doRequest w c method url body st))) = fetches (trace st).
Proof.
  unfold doRequest. destruct (String.eqb _ _); [reflexivity|].
  assert (Hloop : forall s,
            fetches (trace (snd (retryLoop w c method url body
                                   (Z.to_nat (maxRetries c + 1)) 0 None s)))
            = fetches (trace s)).
  { intros s.
    destruct (retryLoop_loopRun w c method url body
                (Z.to_nat (maxRetries c + 1)) 0 None s)
      as (k & _ & tr & Ht & _ & Hf & _).
    by rewrite Ht, fetches_app, Hf, app_nil_r. }
  destruct (rateLimiter c) as [t|]; [|apply Hloop].
  unfold selectCtx, emit. destruct (ctxDone w (selects st)); cbn [snd trace].
  - rewrite fetches_app. apply app_nil_r.
  - rewrite Hloop. cbn [trace]. rewrite fetches_app. apply app_nil_r.
Qed.

(** A call of [Search] enters exactly one search, its own. *)
Lemma Search_fetches w c p st :
  fetches (trace (snd (Search w c p st))) = fetches (trace st) ++ [p].
Proof.
  unfold Search.
  pose proof (doRequest_fetches w c "GET" (buildSearchURL c p) None
                (emit (EvSearch p) st)) as H.
  destruct (doRequest w c "GET" _ None _) as [[resp|e] st1]; cbn [snd] in *.
  - destruct (readErr (RespBody resp)); cbn [snd]; rewrite H; cbn;
      by rewrite fetches_app.
  - rewrite H. cbn. by rewrite fetches_app.
Qed.

Lemma Next_failed w si st e :
  err si = Some e -> Next w si st = ((false, si), st).
Proof. intros H. unfold Next. by rewrite H. Qed.

Lemma nextN_failed w si st e n :
  err si = Some e -> nextN n w si st = (replicate n false, si, st).
Proof.
  intros H. induction n as [|n IH]; [reflexivity|].
  cbn [nextN]. rewrite (Next_failed _ _ _ _ H), IH. reflexivity.
Qed.

Lemma Next_cancelled w si st :
  err si = None -> ctxDone w (selects st) = true ->
  Next w si st =
    ((false, set_err si (ErrContext (ctxErr w))), emit EvCancelled (polled st)).
Proof. intros He Hc. unfold Next, selectCtx. by rewrite He, Hc. Qed.

(** A [Next] that has no error behind it and is not cancelled. *)
Lemma Next_live w si st :
  err si = None -> ctxDone w (selects st) = false ->
  Next w si st =
    let '(r, st1) :=
      if needBatch si then refill w si (polled st) else (Proceed si, polled st) in
    match r with
    | Stop si1 => ((false, si1), st1)
    | Proceed si1 =>
        let si2 := set_index si1 (int_add (currentIndex si1) 1) in
        ((match currentBatch si2 with
          | Some b => currentIndex si2 <? lenResults b
          | None => false
          end, si2), st1)
    end.
Proof. intros He Hc. unfold Next, selectCtx. by rewrite He, Hc. Qed.

Lemma nextPage_paging si b si1 :
  currentBatch si = Some b -> nextPage si = Some si1 ->
  int_add (Start (params si)) (Rows (params si)) < totalResults si /\
  si1 = set_params si
          {| Query := Query (params si);
             Start := int_add (Start (params si)) (Rows (params si));
             Rows := Rows (params si) |}.
Proof.
  intros Hb. unfold nextPage. rewrite Hb.
  destruct (_ <=? _) eqn:E; [discriminate|].
  intros [= <-]. split; [lia|reflexivity].
Qed.

Lemma refill_spec w si st :
  match nextPage si with
  | None => refill w si st = (Stop si, st)
  | Some si1 =>
      fetches (trace (snd (refill w si st))) = fetches (trace st) ++ [params si1] /\
      params (refilled (fst (refill w si st))) = params si1
  end.
Proof.
  unfold refill. destruct (nextPage si) as [si1|]; [|reflexivity].
  pose proof (Search_fetches w (client si1) (params si1) st) as H.
  destruct (Search w (client si1) (params si1) st) as [[res|e] st1];
    cbn [snd] in H; [|by split].
  destruct (lenResults res =? 0); by split.
Qed.

(** What one [Next] of an iterator that holds a batch does about
    fetching. *)
Lemma Next_paging w si st b :
  currentBatch si = Some b ->
  let r := Next w si st in
  (fetches (trace (snd r)) = fetches (trace st) /\
   params (snd (fst r)) = params si) \/
  (int_add (Start (params si)) (Rows (params si)) < totalResults si /\
   fetches (trace (snd r)) = fetches (trace st) ++ [followingPage (params si)] /\
   params (snd (fst r)) = followingPage (params si)).
Proof.
  intros Hb r. subst r.
  destruct (err si) as [e|] eqn:He.
  { left. by rewrite (Next_failed _ _ _ _ He). }
  destruct (ctxDone w (selects st)) eqn:Hc.
  { left. rewrite (Next_cancelled _ _ _ He Hc). cbn.
    rewrite fetches_app. by rewrite app_nil_r. }
  rewrite (Next_live _ _ _ He Hc).
  destruct (needBatch si); [|by left].
  pose proof (refill_spec w si (polled st)) as Hr.
  destruct (nextPage si) as [si1|] eqn:Hn.
  - destruct (nextPage_paging _ _ _ Hb Hn) as [Hlt ->].
    destruct Hr as [Hf Hp]. right. split; [exact Hlt|].
    destruct (refill w si (polled st)) as [[s|s] st1]; cbn in *; by split.
  - left. by rewrite Hr.
Qed.

(** When the page is used up and more results are reported, the next
    page is fetched. *)
Lemma Next_fetches_following w si st b :
  currentBatch si = Some b -> err si = None ->
  ctxDone w (selects st) = false ->
  lenResults b - 1 <= currentIndex si ->
  int_add (Start (params si)) (Rows (params si)) < totalResults si ->
  fetches (trace (snd (Next w si st))) =
    fetches (trace st) ++ [followingPage (params si)].
Proof.
  intros Hb He Hc Hi Hlt. rewrite (Next_live _ _ _ He Hc).
  unfold needBatch. rewrite Hb.
  destruct (_ <=? _) eqn:E; [|lia].
  pose proof (refill_spec w si (polled st)) as Hr.
  unfold nextPage in Hr. rewrite Hb in Hr.
  destruct (totalResults si <=? _) eqn:E2; [lia|].
  destruct Hr as [Hf _].
  destruct (refill w si (polled st)) as [[s|s] st1]; exact Hf.
Qed.

(** C6. A [Next] of an iterator that holds a page fetches at most one
    page, and fetches it only if [Start + Rows], with the requested page
    size [Rows], is below the total the server reported; [Start] is moved
    on by [Rows] and the fetch asks for the moved offset.  It does fetch
    when the page is used up and the sum is below the total.  Against a
    server that reports 25 results and returns 2 items at the offsets 0
    and 10 and 1 item at offset 20, an iterator with [Rows = 10] yields
    exactly 5 records in exactly 3 page fetches, then reports no more
    items; [TotalResults()] reads 25 at every record and at the end. *)
Theorem Next_pagination :
  (forall (w : World) (si : SearchIterator) (st : State) (b : SearchResult),
     currentBatch si = Some b ->
     let r := Next w si st in
     (fetches (trace (snd r)) = fetches (trace st) /\
      params (snd (fst r)) = params si) \/
     (int_add (Start (params si)) (Rows (params si)) < totalResults si /\
      fetches (trace (snd r)) =
        fetches (trace st) ++ [followingPage (params si)] /\
      params (snd (fst r)) = followingPage (params si)))
  /\
  (forall (w : World) (si : SearchIterator) (st : State) (b : SearchResult),
     currentBatch si = Some b -> err si = None ->
     ctxDone w (selects st) = false ->
     lenResults b - 1 <= currentIndex si ->
     int_add (Start (params si)) (Rows (params si)) < totalResults si ->
     fetches (trace (snd (Next w si st))) =
       fetches (trace st) ++ [followingPage (params si)])
  /\
  (forall fuel, (6 <= fuel)%nat ->
     exists si st,
       drain fuel pagedServer (SearchIter (testClient 3) testParams) initial =
         Some ([(searchHit "0000-0000-0000-0001", 25);
                (searchHit "0000-0000-0000-0002", 25);
                (searchHit "0000-0000-0000-0003", 25);
                (searchHit "0000-0000-0000-0004", 25);
                (searchHit "0000-0000-0000-0005", 25)], si, st) /\
       Start <$> fetches (trace st) = [0; 10; 20] /\
       Rows <$> fetches (trace st) = [10; 10; 10] /\
       calls st = 3%nat /\
       TotalResults si = 25 /\ Error si = None /\
       fst (fst (Next pagedServer si st)) = false).
Proof.
  split; [|split].
  - intros. by eapply Next_paging.
  - intros. by eapply Next_fetches_following.
  - intros fuel Hfuel.
    do 6 (destruct fuel as [|fuel]; [lia|]).
    eexists _, _. split; [vm_compute; reflexivity|]. vm_compute. done.
Qed.

Lemma Next_pagination_witness :
  let '(_, si, st) :=
    nextN 2 pagedServer (SearchIter (testClient 3) testParams) initial in
  currentIndex si = 1 /\ totalResults si = 25 /\
  fetches (trace (snd (Next pagedServer si st))) =
    fetches (trace st) ++ [{| Query := "test"; Start := 10; Rows := 10 |}].
Proof.
  destruct (nextN 2 pagedServer (SearchIter (testClient 3) testParams) initial)
    as [[bs si] st] eqn:E.
  vm_compute in E. injection E as _ <- <-.
  split; [reflexivity|]. split; [reflexivity|].
  simple refine (proj1 (proj2 Next_pagination) pagedServer _ _ _ _ _ _ _ _).
  - exact {| NumFound := 25; ResultStart := 0; NumRows := 10;
             Results := [searchHit "0000-0000-0000-0001";
                         searchHit "0000-0000-0000-0002"] |}.
  - reflexivity.
  - reflexivity.
  - reflexivity.
  - vm_compute. discriminate.
  - vm_compute. reflexivity.
Defined.

(* --------------------------------------------------------------------- *)
(** ** C7: sticky failure *)
(* --------------------------------------------------------------------- *)

Lemma Next_error_false w si st e :
  err (snd (fst (Next w si st))) = Some e -> fst (fst (Next w si st)) = false.
Proof.
  destruct (err si) as [e0|] eqn:He.
  { by rewrite (Next_failed _ _ _ _ He). }
  destruct (ctxDone w (selects st)) eqn:Hc.
  { by rewrite (Next_cancelled _ _ _ He Hc). }
  rewrite (Next_live _ _ _ He Hc).
  assert (Hrefill : forall s st1, refill w si (polled st) = (Proceed s, st1) ->
                                  err s = None).
  { unfold refill. intros s st1.
    destruct (nextPage si) as [si1|] eqn:Hn; [|discriminate].
    assert (err si1 = None).
    { unfold nextPage in Hn. destruct (currentBatch si); [|congruence].
      destruct (_ <=? _); [discriminate|]. by injection Hn as <-. }
    destruct (Search w _ _ _) as [[res|e1] st2]; [|discriminate].
    destruct (_ =? _); [discriminate|]. by intros [= <- _]. }
  destruct (needBatch si).
  - destruct (refill w si (polled st)) as [[s|s] st1] eqn:Er; [done|].
    cbn. rewrite (Hrefill _ _ eq_refl). discriminate.
  - cbn. rewrite He. discriminate.
Qed.

(** C7. Once a call of [Next] has left an error in the iterator, that
    call and every later call of [Next] return false, the later ones
    without touching the world (no select, no permit, no transport call),
    and [Error()] returns the recorded cause.  An error is left by a
    [Next] that finds the cancellation signal fired (the context error)
    and by a [Next] whose fetch fails (the error of the fetch). *)
Theorem Next_sticky_failure (w : World) (si : SearchIterator) (st : State) :
  let r := Next w si st in
  (forall e, err (snd (fst r)) = Some e ->
     fst (fst r) = false /\
     Error (snd (fst r)) = Some e /\
     forall n, nextN n w (snd (fst r)) (snd r)
               = (replicate n false, snd (fst r), snd r))
  /\
  (err si = None -> ctxDone w (selects st) = true ->
   err (snd (fst r)) = Some (ErrContext (ctxErr w)) /\ noIO st (snd r))
  /\
  (forall si1 e st2,
     err si = None -> ctxDone w (selects st) = false ->
     needBatch si = true -> nextPage si = Some si1 ->
     Search w (client si1) (params si1) (polled st) = (Err e, st2) ->
     r = ((false, set_err si1 e), st2)).
Proof.
  intros r. subst r. split; [|split].
  - intros e He. split; [by eapply Next_error_false|]. split; [exact He|].
    intros n. by eapply nextN_failed.
  - intros He Hc. rewrite (Next_cancelled _ _ _ He Hc). split; [reflexivity|].
    unfold noIO, emit, polled. cbn [snd calls trace].
    rewrite attempts_app, permits_app. cbn. rewrite app_nil_r.
    repeat split. lia.
  - intros si1 e st2 He Hc Hn Hp Hs.
    rewrite (Next_live _ _ _ He Hc), Hn. unfold refill. by rewrite Hp, Hs.
Qed.

Lemma Next_sticky_failure_witness :
  let w := statusServer 404 "404 Not Found" "Not found" in
  let r := Next w (SearchIter (testClient 3) testParams) initial in
  err (snd (fst r)) = Some (ErrHTTP 404 "404 Not Found" "Not found") /\
  fst (fst r) = false /\
  Error (snd (fst r)) = Some (ErrHTTP 404 "404 Not Found" "Not found") /\
  nextN 3 w (snd (fst r)) (snd r) = ([false; false; false], snd (fst r), snd r).
Proof.
  intros w r.
  assert (He : err (snd (fst r))
               = Some (ErrHTTP 404 "404 Not Found" "Not found"))
    by reflexivity.
  split; [exact He|].
  destruct (proj1 (Next_sticky_failure w
                     (SearchIter (testClient 3) testParams) initial) _ He)
    as (Hf & Herr & Hn).
  split; [exact Hf|]. split; [exact Herr|]. exact (Hn 3%nat).
Defined.

(* --------------------------------------------------------------------- *)
(** ** C8: the empty page *)
(* --------------------------------------------------------------------- *)

Lemma lenResults_nil res : Results res = [] -> lenResults res = 0.
Proof. unfold lenResults. by intros ->. Qed.

(** C8, as the claim states it, fails: the iterator has no terminal state
    that an empty page would put it in.  Here the first page comes back
    empty with a total of 25: the first [Next] returns false, and the
    iterator it leaves is not exhausted; the [Next] after it fetches the
    page at offset 10 and returns true, with a record under the cursor. *)
Lemma Next_empty_page_not_terminal :
  let '(bs, si, st) :=
    nextN 2 holedServer (SearchIter (testClient 3) testParams) initial in
  bs = [false; true] /\
  Value si = searchHit "0000-0000-0000-0003" /\ Error si = None /\
  fetches (trace st) = [{| Query := "test"; Start := 0; Rows := 10 |};
                        {| Query := "test"; Start := 10; Rows := 10 |}] /\
  ~ exhausted
      (snd (fst (Next holedServer (SearchIter (testClient 3) testParams)
                   initial))).
Proof.
  vm_compute. repeat split; try reflexivity.
  intros (b & Hb & _ & Ht). revert Ht. by vm_compute.
Qed.

(** C8 (amended). When the page a [Next] has just fetched holds no item,
    that [Next] returns false: the empty page has become the current page,
    the cursor is at -1 with no record under it, the total is the one the
    page reports and no error is recorded.  This is no terminal state: if
    the total does not lie beyond the requested window the iterator is
    exhausted, and otherwise it is not, and the next [Next] that the
    context lets through fetches the following page.  If the first page of
    a fresh iterator comes back empty, the drain loop yields no record and
    ends after exactly one page fetch, whatever total the page reports. *)
Theorem Next_empty_page (w : World) :
  (forall si st si1 res st2,
     err si = None -> ctxDone w (selects st) = false ->
     needBatch si = true -> nextPage si = Some si1 ->
     Search w (client si1) (params si1) (polled st) = (Ok res, st2) ->
     Results res = [] ->
     let r := Next w si st in
     let si' := snd (fst r) in
     fst (fst r) = false /\ snd r = st2 /\
     currentBatch si' = Some res /\ currentIndex si' = -1 /\
     totalResults si' = NumFound res /\ params si' = params si1 /\
     client si' = client si1 /\ err si' = None /\ Value si' = None /\
     (NumFound res <= int_add (Start (params si1)) (Rows (params si1)) ->
      exhausted si') /\
     (int_add (Start (params si1)) (Rows (params si1)) < NumFound res ->
      ~ exhausted si' /\
      forall st3, ctxDone w (selects st3) = false ->
        fetches (trace (snd (Next w si' st3)))
          = fetches (trace st3) ++ [followingPage (params si1)]))
  /\
  (forall c p st res st2 fuel,
     ctxDone w (selects st) = false ->
     Search w c p (polled st) = (Ok res, st2) ->
     Results res = [] -> (1 <= fuel)%nat ->
     exists si',
       drain fuel w (SearchIter c p) st = Some ([], si', st2) /\
       currentBatch si' = Some res /\ currentIndex si' = -1 /\
       totalResults si' = NumFound res /\ params si' = p /\
       err si' = None /\
       fetches (trace st2) = fetches (trace st) ++ [p]).
Proof.
  assert (Hone : forall si st si1 res st2,
     err si = None -> ctxDone w (selects st) = false ->
     needBatch si = true -> nextPage si = Some si1 ->
     Search w (client si1) (params si1) (polled st) = (Ok res, st2) ->
     Results res = [] ->
     Next w si st = ((false, set_batch si1 res), st2)).
  { intros si st si1 res st2 He Hc Hn Hp Hs Hres.
    rewrite (Next_live _ _ _ He Hc), Hn. unfold refill.
    by rewrite Hp, Hs, (lenResults_nil _ Hres). }
  assert (Herr : forall si si1, nextPage si = Some si1 -> err si1 = err si).
  { intros si si1. unfold nextPage. destruct (currentBatch si).
    - destruct (_ <=? _); [discriminate|]. by intros [= <-].
    - by intros [= <-]. }
  split.
  - intros si st si1 res st2 He Hc Hn Hp Hs Hres. cbv zeta.
    rewrite (Hone si st si1 res st2 He Hc Hn Hp Hs Hres). cbn [fst snd].
    pose proof (Herr _ _ Hp) as He1. rewrite He in He1.
    pose proof (lenResults_nil _ Hres) as Hlen.
    do 8 (split; [done|]). split; [reflexivity|]. split.
    + intros Hlast. exists res. cbn. split; [done|]. split; [lia|done].
    + intros Hmore. split.
      * intros (b & Hb & _ & Ht). cbn in Hb, Ht. lia.
      * intros st3 Hc3.
        apply (Next_fetches_following w (set_batch si1 res) st3 res);
          try done; cbn; lia.
  - intros c p st res st2 fuel Hc Hs Hres Hfuel.
    destruct fuel as [|fuel]; [lia|]. cbn [drain].
    rewrite (Hone (SearchIter c p) st (SearchIter c p) res st2); try done.
    exists (set_batch (SearchIter c p) res).
    do 6 (split; [done|]).
    pose proof (Search_fetches w c p (polled st)) as Hf.
    by rewrite Hs in Hf.
Qed.

Lemma Next_empty_page_witness :
  let si := SearchIter (testClient 3) testParams in
  let r := Next holedServer si initial in
  fst (fst r) = false /\ totalResults (snd (fst r)) = 25 /\
  ~ exhausted (snd (fst r)) /\
  fetches (trace (snd (Next holedServer (snd (fst r)) (snd r))))
    = fetches (trace (snd r))
      ++ [{| Query := "test"; Start := 10; Rows := 10 |}].
Proof.
  intros si r.
  destruct (Search holedServer (client si) (params si) (polled initial))
    as [res st2] eqn:Hs.
  pose proof Hs as Hs'. vm_compute in Hs'. injection Hs' as <- <-.
  destruct (proj1 (Next_empty_page holedServer) si initial si _ _
              eq_refl eq_refl eq_refl eq_refl Hs eq_refl)
    as (Hf & Hst & _ & _ & Ht & _ & _ & _ & _ & _ & Hmore).
  destruct (Hmore ltac:(by vm_compute)) as [Hne Hnext].
  split; [exact Hf|]. split; [exact Ht|]. split; [exact Hne|].
  apply Hnext. reflexivity.
Defined.

(* ===================================================================== *)
(** * Further properties of the request executor *)
(* ===================================================================== *)

Lemma newRequest_withHeaders w c method url body req :
  newRequest w c method url body = Ok req -> req = withHeaders c method url body.
Proof.
  unfold newRequest. destruct (newRequestErr w method url); [discriminate|].
  by intros [= <-].
Qed.

Lemma selectCtx_calls w other st : calls (snd (selectCtx w other st)) = calls st.
Proof.
  unfold selectCtx. cbn [snd].
  by destruct (if ctxDone w (selects st) then Some EvCancelled else other).
Qed.

(** A pass returns a response only when the transport, called in this
    pass, answered 200 with it. *)
Lemma attemptOnce_ok w c method url body a st resp st' :
  attemptOnce w c method url body a st = (Return (Ok resp), st') ->
  StatusCode resp = 200 /\ calls st' = S (calls st) /\
  roundTrip w (calls st) (withHeaders c method url body) = Responded resp.
Proof.
  unfold attemptOnce.
  assert (Hbody : forall s,
            calls s = calls st ->
            (if false then (Return (Err (ErrContext (ctxErr w))), s)
             else match newRequest w c method url body with
                  | Ok req => let '(out, s0) := Do w req s in (classify out, s0)
                  | Err e => (Return (Err e), s)
                  end) = (Return (Ok resp), st') ->
            StatusCode resp = 200 /\ calls st' = S (calls st) /\
            roundTrip w (calls st) (withHeaders c method url body)
              = Responded resp).
  { intros s Hs. cbn iota.
    destruct (newRequest w c method url body) as [req|e] eqn:Hreq;
      [|discriminate].
    apply newRequest_withHeaders in Hreq as ->.
    unfold Do. rewrite Hs.
    destruct (roundTrip w (calls st) _) as [msg|r] eqn:Hout; cbn [classify];
      [discriminate|].
    destruct (StatusCode r =? 200) eqn:E200.
    - intros [= -> <-]. cbn. split; [lia|]. by split.
    - destruct (retryStatus (StatusCode r)); discriminate. }
  destruct (0 <? a).
  - pose proof (selectCtx_calls w (Some (EvBackoff (backoff a))) st) as Hc.
    destruct (selectCtx w _ st) as [fired s]. cbn [snd] in Hc.
    destruct fired; [discriminate|]. by apply Hbody.
  - by apply Hbody.
Qed.

Lemma attemptOnce_calls w c method url body a st :
  (calls st <= calls (snd (attemptOnce w c method url body a st)))%nat.
Proof.
  destruct (attemptOnce_loopRun w c method url body a st)
    as (n & _ & tr & _ & _ & _ & _ & Hc & _). lia.
Qed.

Lemma retryLoop_ok w c method url body n :
  forall a lastErr st resp st',
  retryLoop w c method url body n a lastErr st = (Ok resp, st') ->
  StatusCode resp = 200 /\ (calls st < calls st')%nat /\
  roundTrip w (calls st' - 1) (withHeaders c method url body) = Responded resp.
Proof.
  induction n as [|n IH]; intros a lastErr st resp st'; [discriminate|].
  cbn [retryLoop].
  pose proof (attemptOnce_calls w c method url body a st) as Hmono.
  destruct (attemptOnce w c method url body a st) as [[e|r] st1] eqn:Hpass;
    cbn [snd] in Hmono.
  - intros H. destruct (IH _ _ _ _ _ H) as (H200 & Hlt & Hrt).
    split; [done|]. split; [lia|done].
  - intros [= -> ->].
    destruct (attemptOnce_ok _ _ _ _ _ _ _ _ _ Hpass) as (H200 & Hc & Hrt).
    split; [done|]. split; [lia|].
    by replace (calls st' - 1)%nat with (calls st) by lia.
Qed.

Lemma doRequest_ok_inv (w : World) (c : Client) (method url : string)
    (body : option Reader) (st st' : State) (resp : Response) :
  doRequest w c method url body st = (Ok resp, st') ->
  bearerToken c <> "" /\ StatusCode resp = 200 /\
  (calls st < calls st')%nat /\
  roundTrip w (calls st' - 1) (withHeaders c method url body) = Responded resp.
Proof.
  unfold doRequest. destruct (String.eqb (bearerToken c) "") eqn:Htok;
    [discriminate|].
  apply String.eqb_neq in Htok. intros H. split; [exact Htok|].
  destruct (rateLimiter c) as [t|].
  - pose proof (selectCtx_calls w (Some EvPermit) st) as Hc.
    destruct (selectCtx w (Some EvPermit) st) as [fired s]. cbn [snd] in Hc.
    destruct fired; [discriminate|].
    apply retryLoop_ok in H. by rewrite Hc in H.
  - by apply retryLoop_ok in H.
Qed.

(** X1. Whatever the transport and the cancellation signal do, [doRequest]
    returns a response only if the bearer token is set and the last
    transport call it made answered with that response, with status 200. *)
Theorem doRequest_ok_sound (w : World) (c : Client) (method url : string)
    (body : option Reader) (st st' : State) (resp : Response) :
  doRequest w c method url body st = (Ok resp, st') ->
  bearerToken c <> "" /\ StatusCode resp = 200 /\
  (calls st < calls st')%nat /\
  roundTrip w (calls st' - 1) (withHeaders c method url body) = Responded resp.
Proof. apply doRequest_ok_inv. Qed.

Lemma doRequest_ok_sound_witness :
  exists st',
    doRequest flakyServer (testClient 3) "GET" recordURL None initial
      = (Ok {| StatusCode := 200; Status := "200 OK";
               RespBody := {| data := "{}"; readErr := None |} |}, st') /\
    calls st' = 3%nat /\
    roundTrip flakyServer (calls st' - 1)
      (withHeaders (testClient 3) "GET" recordURL None)
      = Responded {| StatusCode := 200; Status := "200 OK";
                     RespBody := {| data := "{}"; readErr := None |} |}.
Proof.
  eexists. split; [reflexivity|]. split; [reflexivity|].
  exact (proj2 (proj2 (proj2 (doRequest_ok_sound flakyServer (testClient 3)
           "GET" recordURL None initial _ _ eq_refl)))).
Defined.

Lemma doRequest_calls_bound w c method url body st :
  (calls (snd (doRequest w c method url body st))
   <= calls st + Z.to_nat (maxRetries c + 1))%nat.
Proof.
  unfold doRequest. destruct (String.eqb _ _); [cbn; lia|].
  assert (Hloop : forall s, calls s = calls st ->
            (calls (snd (retryLoop w c method url body
                           (Z.to_nat (maxRetries c + 1)) 0 None s))
             <= calls st + Z.to_nat (maxRetries c + 1))%nat).
  { intros s Hs.
    destruct (retryLoop_loopRun w c method url body
                (Z.to_nat (maxRetries c + 1)) 0 None s)
      as (k & Hk & tr & _ & _ & _ & _ & Hc & _). lia. }
  destruct (rateLimiter c) as [t|]; [|by apply Hloop].
  pose proof (selectCtx_calls w (Some EvPermit) st) as Hc.
  destruct (selectCtx w (Some EvPermit) st) as [fired s]. cbn [snd] in Hc.
  destruct fired; [cbn; lia|]. by apply Hloop.
Qed.

(** X2. In every world a call of [doRequest] makes at most
    [maxRetries + 1] transport calls, and none when [maxRetries] is
    negative: such a client, even with a token and a permit, never sends
    anything and every call ends in the exhaustion error that wraps no
    cause. *)
Theorem doRequest_attempt_bound (w : World) (c : Client) (method url : string)
    (body : option Reader) (st : State) :
  maxRetries c < max_int ->
  let run := doRequest w c method url body st in
  (calls (snd run) <= calls st + Z.to_nat (maxRetries c + 1))%nat /\
  (maxRetries c < 0 ->
   calls (snd run) = calls st /\
   (bearerToken c <> "" ->
    (rateLimiter c <> None -> ctxDone w (selects st) = false) ->
    run = (Err ErrMaxRetriesNil, entered c st) /\
    Error_ ErrMaxRetriesNil = "max retries exceeded: %!w(<nil>)")).
Proof.
  intros _ run. subst run. split; [apply doRequest_calls_bound|].
  intros Hneg.
  assert (Hz : Z.to_nat (maxRetries c + 1) = 0%nat) by lia.
  split.
  - pose proof (doRequest_calls_bound w c method url body st) as Hb.
    assert (calls st <= calls (snd (doRequest w c method url body st)))%nat;
      [|lia].
    unfold doRequest. destruct (String.eqb _ _); [cbn; lia|].
    rewrite Hz. cbn [retryLoop].
    destruct (rateLimiter c) as [t|]; [|cbn; lia].
    pose proof (selectCtx_calls w (Some EvPermit) st) as Hc.
    destruct (selectCtx w (Some EvPermit) st) as [fired s]. cbn [snd] in Hc.
    destruct fired; cbn; lia.
  - intros Htok Hq. split; [|reflexivity].
    rewrite (doRequest_enter w c method url body Htok st Hq), Hz. reflexivity.
Qed.

Lemma doRequest_attempt_bound_witness :
  let c := {| httpTimeout := DefaultTimeout; apiURL := DefaultAPIURL;
              timeout := DefaultTimeout; maxRetries := -1;
              rateLimit := DefaultRateLimit; userAgent := "";
              contentType := ContentTypeJSON;
              rateLimiter := Some {| period := 100000000 |};
              bearerToken := "test-token" |} in
  NewClient [WithBearerToken "test-token"; WithMaxRetries (-1)] = Some c /\
  doRequest (statusServer 200 "200 OK" "{}") c "GET" recordURL None initial
    = (Err ErrMaxRetriesNil, entered c initial) /\
  calls (entered c initial) = 0%nat.
Proof.
  intros c. split; [reflexivity|]. split; [|reflexivity].
  simple refine (proj1 (proj2 (proj2 (doRequest_attempt_bound
           (statusServer 200 "200 OK" "{}") c "GET" recordURL None initial _)
           _) _ _)).
  - reflexivity.
  - reflexivity.
  - discriminate.
  - reflexivity.
Defined.

(** Every transport call of a pass, of the loop and of a call sends the
    same request. *)
Lemma attemptOnce_requests w c method url body a st :
  exists k,
    attempts (trace (snd (attemptOnce w c method url body a st)))
      = attempts (trace st) ++ replicate k (withHeaders c method url body) /\
    calls (snd (attemptOnce w c method url body a st)) = (calls st + k)%nat.
Proof.
  unfold attemptOnce.
  assert (Hbody : forall s,
            attempts (trace s) = attempts (trace st) -> calls s = calls st ->
            exists k,
              attempts (trace (snd
                 match newRequest w c method url body with
                 | Ok req => let '(out, s0) := Do w req s in (classify out, s0)
                 | Err e => (Return (Err e), s)
                 end))
                = attempts (trace st) ++ replicate k (withHeaders c method url body)
              /\ calls (snd
                 match newRequest w c method url body with
                 | Ok req => let '(out, s0) := Do w req s in (classify out, s0)
                 | Err e => (Return (Err e), s)
                 end) = (calls st + k)%nat).
  { intros s Ht Hc.
    destruct (newRequest w c method url body) as [req|e] eqn:Hreq.
    - apply newRequest_withHeaders in Hreq as ->. exists 1%nat.
      unfold Do. cbn [snd trace calls].
      rewrite attempts_app, Ht, Hc. split; [reflexivity|lia].
    - exists 0%nat. cbn [snd]. rewrite Ht, Hc, app_nil_r. split; [done|lia]. }
  destruct (0 <? a); [|by apply Hbody].
  unfold selectCtx. destruct (ctxDone w (selects st)).
  - exists 0%nat. cbn [snd emit trace calls].
    rewrite attempts_app. cbn. rewrite !app_nil_r. split; [done|lia].
  - apply Hbody; cbn [emit trace calls]; [|done].
    rewrite attempts_app. cbn. by rewrite app_nil_r.
Qed.

Lemma retryLoop_requests w c method url body n :
  forall a lastErr st,
  exists k,
    attempts (trace (snd (retryLoop w c method url body n a lastErr st)))
      = attempts (trace st) ++ replicate k (withHeaders c method url body) /\
    calls (snd (retryLoop w c method url body n a lastErr st))
      = (calls st + k)%nat.
Proof.
  induction n as [|n IH]; intros a lastErr st.
  - exists 0%nat. cbn. rewrite app_nil_r. split; [done|lia].
  - cbn [retryLoop].
    destruct (attemptOnce_requests w c method url body a st) as (k1 & Ht1 & Hc1).
    destruct (attemptOnce w c method url body a st) as [[e|r] st1];
      cbn [snd] in *.
    + destruct (IH (a + 1) (Some e) st1) as (k2 & Ht2 & Hc2).
      exists (k1 + k2)%nat. rewrite Ht2, Ht1, Hc2, Hc1.
      rewrite replicate_add, app_assoc. split; [done|lia].
    + by exists k1.
Qed.

Lemma doRequest_same_request (w : World) (c : Client) (method url : string)
    (body : option Reader) (st : State) :
  exists k,
    attempts (trace (snd (doRequest w c method url body st)))
      = attempts (trace st) ++ replicate k (withHeaders c method url body)
    /\ calls (snd (doRequest w c method url body st)) = (calls st + k)%nat
    /\ (k = 0%nat \/ bearerToken c <> "").
Proof.
  { unfold doRequest. destruct (String.eqb (bearerToken c) "") eqn:Htok.
    { exists 0%nat. cbn. rewrite app_nil_r. repeat split; [lia|by left]. }
    apply String.eqb_neq in Htok.
    assert (Hloop : forall s,
              attempts (trace s) = attempts (trace st) -> calls s = calls st ->
              exists k,
                attempts (trace (snd (retryLoop w c method url body
                                        (Z.to_nat (maxRetries c + 1)) 0 None s)))
                  = attempts (trace st)
                    ++ replicate k (withHeaders c method url body)
                /\ calls (snd (retryLoop w c method url body
                                 (Z.to_nat (maxRetries c + 1)) 0 None s))
                   = (calls st + k)%nat
                /\ (k = 0%nat \/ bearerToken c <> "")).
    { intros s Ht Hc.
      destruct (retryLoop_requests w c method url body
                  (Z.to_nat (maxRetries c + 1)) 0 None s) as (k & Hk1 & Hk2).
      exists k. rewrite Hk1, Hk2, Ht, Hc. repeat split. by right. }
    destruct (rateLimiter c) as [t|]; [|by apply Hloop].
    unfold selectCtx. destruct (ctxDone w (selects st)).
    - exists 0%nat. cbn [snd emit trace calls]. rewrite attempts_app. cbn.
      rewrite !app_nil_r. repeat split; [lia|by left].
    - apply Hloop; cbn [emit trace calls]; [|done].
      rewrite attempts_app. cbn. by rewrite app_nil_r. }
Qed.

(** X3. For a call without a body, as every call in the package is,
    every request [doRequest] hands to the transport is the same one: the
    method and URL of the call and no body, with the [Authorization]
    header set to "Bearer " followed by the token, [Accept] set to the
    content type and [User-Agent] to the user agent; no request leaves
    while the token is empty. *)
Theorem doRequest_requests (w : World) (c : Client) (method url : string)
    (st : State) :
  let st' := snd (doRequest w c method url None st) in
  let req := withHeaders c method url None in
  exists k,
    attempts (trace st') = attempts (trace st) ++ replicate k req /\
    calls st' = (calls st + k)%nat /\
    (k = 0%nat \/ bearerToken c <> "") /\
    Method req = method /\ ReqURL req = url /\ ReqBody req = None /\
    Header req !! "Authorization" = Some ["Bearer " +:+ bearerToken c] /\
    Header req !! "Accept" = Some [contentType c] /\
    Header req !! "User-Agent" = Some [userAgent c].
Proof.
  cbv zeta.
  destruct (doRequest_same_request w c method url None st) as (k & H1 & H2 & H3).
  exists k.
  repeat split; try done; unfold withHeaders; cbn [Header]; by simplify_map_eq.
Qed.

(** X4. A client without a limiter does not consult the context before
    its first transport call: whatever the context has done, a call with
    a token whose request builds sends its first request.  If that call
    meets a retryable outcome, a retry is due and the select of the
    first backoff wait takes the [ctx.Done()] branch, the call returns
    the context error, having made that one transport call. *)
Theorem doRequest_unpaced_first_call (w : World) (c : Client)
    (method url : string) (body : option Reader) (st : State) :
  bearerToken c <> "" -> rateLimiter c = None -> 0 <= maxRetries c ->
  newRequestErr w method url = None ->
  let run := doRequest w c method url body st in
  let req := withHeaders c method url body in
  (exists tr, trace (snd run) = trace st ++ EvDo req :: tr) /\
  (1 <= maxRetries c -> retryable (roundTrip w (calls st) req) = true ->
   ctxDone w (selects st) = true ->
   fst run = Err (ErrContext (ctxErr w)) /\
   trace (snd run) = trace st ++ [EvDo req; EvCancelled]).
Proof.
  intros Htok Hl HR Hnew run req. subst run req.
  assert (Hreq : newRequest w c method url body
                 = Ok (withHeaders c method url body)).
  { unfold newRequest. by rewrite Hnew. }
  rewrite (doRequest_enter w c method url body Htok st) by (by rewrite Hl).
  assert (Hent : entered c st = st) by (unfold entered; by rewrite Hl).
  rewrite Hent.
  destruct (Z.to_nat (maxRetries c + 1)) as [|n] eqn:En; [lia|].
  cbn [retryLoop].
  pose proof (pass_after w c method url body _ Hreq st 0 ltac:(lia)) as Hp.
  rewrite after_0, Nat.add_0_r in Hp. change (Z.of_nat 0) with 0 in Hp. rewrite Hp.
  assert (Htr : trace (after (withHeaders c method url body) st 1)
                = trace st ++ [EvDo (withHeaders c method url body)])
    by reflexivity.
  split.
  - destruct (classify _) as [e|r]; cbn [snd].
    + destruct (retryLoop_loopRun w c method url body n (0 + 1) (Some e)
                  (after (withHeaders c method url body) st 1))
        as (k & _ & tr & Ht & _).
      exists tr. rewrite Ht, Htr. by rewrite <- app_assoc.
    + exists []. by rewrite Htr.
  - intros HR1 Hretry Hfired. rewrite (classify_retryable _ Hretry).
    destruct n as [|n]; [lia|]. cbn [retryLoop].
    rewrite attemptOnce_cancelled; [|lia|].
    + cbn [fst snd trace]. split; [reflexivity|].
      rewrite Htr. by rewrite <- app_assoc.
    + cbn [after selects pred]. by rewrite Nat.add_0_r.
Qed.

Lemma doRequest_unpaced_first_call_witness :
  let w := cancelledAt 0 (statusServer 503 "503 Service Unavailable" "") in
  fst (doRequest w unpacedClient "GET" recordURL None initial)
    = Err (ErrContext Canceled) /\
  trace (snd (doRequest w unpacedClient "GET" recordURL None initial))
    = [EvDo (withHeaders unpacedClient "GET" recordURL None); EvCancelled].
Proof.
  intros w.
  simple refine (proj2 (doRequest_unpaced_first_call w unpacedClient
                          "GET" recordURL None initial _ _ _ _) _ _ _).
  - discriminate.
  - reflexivity.
  - by vm_compute.
  - reflexivity.
  - by vm_compute.
  - reflexivity.
  - reflexivity.
Defined.

(* ===================================================================== *)
(** * Further properties of the construction of a client *)
(* ===================================================================== *)

Lemma NewTicker_None n :
  0 < n -> NewTicker (Z.quot Second n) = None <-> Second < n.
Proof.
  intros Hn. unfold NewTicker.
  destruct (Z.quot Second n <=? 0) eqn:E.
  - split; [intros _|done]. apply Z.leb_le in E.
    destruct (Z_lt_le_dec Second n) as [|Hle]; [done|].
    assert (1 <= Z.quot Second n); [|lia].
    rewrite Z.quot_div_nonneg by (unfold Second in *; lia).
    apply Z.div_le_lower_bound; lia.
  - split; [done|]. intros Hlt. apply Z.leb_gt in E.
    rewrite Z.quot_small in E by (unfold Second in *; lia). lia.
Qed.

(** An option panics exactly when it is one of the three kinds that
    can, and otherwise leaves the transport as [transportAfter] says. *)
Lemma applyOption_None opt d :
  applyOption opt d = None <->
  opt = NilOption \/ (exists n, opt = WithRateLimit n /\ Second < n) \/
  (exists t, opt = WithTimeout t /\ transport d = false).
Proof.
  destruct opt as [[t|]|u|t|m|n|ua|ct|tok|]; cbn [applyOption];
    try (split; [discriminate|];
         intros [H|[(n' & H & _)|(t' & H & _)]]; discriminate H).
  - destruct (transport d).
    + split; [discriminate|].
      intros [H|[(n' & H & _)|(t' & _ & H)]]; discriminate H.
    + split; [|done]. intros _. right; right. by exists t.
  - destruct (0 <? n) eqn:Epos.
    + destruct (NewTicker (Z.quot Second n)) as [t|] eqn:Et;
        cbn [mbind option_bind].
      * split; [discriminate|].
        intros [H|[(n' & [= <-] & Hlt)|(t' & H & _)]]; try discriminate H.
        apply NewTicker_None in Hlt; [congruence|lia].
      * split; [|done]. intros _. right; left. exists n. split; [done|].
        apply NewTicker_None; [lia|done].
    + split; [discriminate|].
      intros [H|[(n' & [= <-] & Hlt)|(t' & H & _)]]; try discriminate H.
      unfold Second in Hlt. lia.
  - split; [|done]. intros _. by left.
Qed.

Lemma applyOption_transport opt d d1 :
  applyOption opt d = Some d1 ->
  forall rest, transportAfter (transport d) (opt :: rest)
               = transportAfter (transport d1) rest.
Proof.
  destruct opt as [[t|]|u|t|m|n|ua|ct|tok|]; cbn [applyOption transportAfter];
    try (by intros [= <-]).
  - destruct (transport d) eqn:E; [|discriminate].
    intros [= <-] rest. cbn. by rewrite E.
  - destruct (0 <? n); [|by intros [= <-]].
    destruct (NewTicker _); cbn [mbind option_bind]; [|discriminate].
    by intros [= <-].
Qed.

Lemma applyOption_rate opt d d1 :
  applyOption opt d = Some d1 ->
  rateLimit (fields d) <= Second -> rateLimit (fields d1) <= Second.
Proof.
  destruct opt as [[t|]|u|t|m|n|ua|ct|tok|]; cbn [applyOption];
    try (by intros [= <-]).
  - destruct (transport d); [|discriminate]. by intros [= <-].
  - destruct (0 <? n) eqn:Epos.
    + destruct (NewTicker _) eqn:Et; cbn [mbind option_bind]; [|discriminate].
      intros [= <-] _. cbn.
      destruct (Z_lt_le_dec Second n) as [Hlt|]; [|done].
      apply NewTicker_None in Hlt; [congruence|lia].
    + intros [= <-] _. cbn. unfold Second. lia.
Qed.

(** The options are applied unless one of them panics where it stands. *)
Lemma applyOptions_None opts :
  forall d,
  applyOptions opts d = None <->
  exists pre opt post, opts = pre ++ opt :: post /\
    (opt = NilOption \/ (exists n, opt = WithRateLimit n /\ Second < n) \/
     (exists t, opt = WithTimeout t /\
                transportAfter (transport d) pre = false)).
Proof.
  induction opts as [|opt opts IH]; intros d.
  - cbn. split; [discriminate|]. intros (pre & o & post & H & _).
    by destruct pre.
  - cbn [applyOptions].
    destruct (applyOption opt d) as [d1|] eqn:Eo; cbn [mbind option_bind].
    + rewrite IH. split.
      * intros (pre & o & post & -> & H). exists (opt :: pre), o, post.
        split; [done|].
        by rewrite (applyOption_transport _ _ _ Eo).
      * intros (pre & o & post & Heq & H). destruct pre as [|x pre].
        -- cbn in Heq. injection Heq as <- <-. cbn [transportAfter] in H.
           apply applyOption_None in H. congruence.
        -- cbn in Heq. injection Heq as <- ->. exists pre, o, post.
           split; [done|].
           by rewrite <- (applyOption_transport _ _ _ Eo).
    + split; [|done]. intros _. exists [], opt, opts. split; [done|].
      by apply applyOption_None.
Qed.

Lemma applyOptions_transport opts :
  forall d d', applyOptions opts d = Some d' ->
  transport d' = transportAfter (transport d) opts /\
  (rateLimit (fields d) <= Second -> rateLimit (fields d') <= Second).
Proof.
  induction opts as [|opt opts IH]; intros d d'.
  - by intros [= <-].
  - cbn [applyOptions].
    destruct (applyOption opt d) as [d1|] eqn:Eo; cbn [mbind option_bind];
      [|discriminate].
    intros Happ. destruct (IH _ _ Happ) as [Ht Hr]. split.
    + by rewrite (applyOption_transport _ _ _ Eo).
    + intros H. by apply Hr, (applyOption_rate _ _ _ Eo).
Qed.

(** X5. [NewClient] panics exactly when one of its options panics where
    it stands: a nil option, a [WithRateLimit] above [10^9] requests per
    second (its ticker would have a period below one nanosecond), or a
    [WithTimeout] that comes while [httpClient] is nil, that is after a
    [WithHTTPClient(nil)] with no [WithHTTPClient] of a client in
    between; the ticker of the final rate never panics.  When it does not
    panic, the client it returns has a nil [httpClient] exactly when the
    last [WithHTTPClient] among the options was given nil. *)
Theorem NewClient_panics (opts : list ClientOption) :
  (construct opts = None <->
   exists pre opt post, opts = pre ++ opt :: post /\ panicsAfter pre opt) /\
  (NewClient opts = None <->
   construct opts = None \/ transportAfter true opts = false).
Proof.
  unfold NewClient, construct, panicsAfter.
  match goal with
  | |- context [applyOptions opts ?d0] =>
      pose proof (applyOptions_None opts d0) as Hnone;
      pose proof (applyOptions_transport opts d0) as Hsome;
      destruct (applyOptions opts d0) as [d|]
  end; cbn [mbind option_bind transport] in *.
  - destruct (Hsome d eq_refl) as [Ht Hr]. cbn in Hr.
    assert (Hle : rateLimit (fields d) <= Second) by (apply Hr; by vm_compute).
    assert (Hfinal : forall A (f : Draft -> option A),
      (if 0 <? rateLimit (fields d)
       then t ← NewTicker (Z.quot Second (rateLimit (fields d)));
            Some (set_fields d (set_rateLimiter (fields d) (Some t)))
       else Some d) ≫= f
      = f (if 0 <? rateLimit (fields d)
           then set_fields d
                  (set_rateLimiter (fields d)
                     (Some {| period := Z.quot Second (rateLimit (fields d)) |}))
           else d)).
    { intros A f. destruct (0 <? rateLimit (fields d)) eqn:Epos; [|done].
      unfold NewTicker.
      destruct (Z.quot Second (rateLimit (fields d)) <=? 0) eqn:Eq; [|done].
      assert (NewTicker (Z.quot Second (rateLimit (fields d))) = None) as Hn
        by (unfold NewTicker; by rewrite Eq).
      apply NewTicker_None in Hn; lia. }
    split.
    + destruct (0 <? rateLimit (fields d)) eqn:Epos.
      * destruct (NewTicker (Z.quot Second (rateLimit (fields d)))) eqn:Et.
        -- cbn. rewrite <- Hnone. by split.
        -- apply NewTicker_None in Et; lia.
      * rewrite <- Hnone. by split.
    + rewrite Hfinal. rewrite <- Ht.
      assert (Hsame : transport
                (if 0 <? rateLimit (fields d)
                 then set_fields d
                        (set_rateLimiter (fields d)
                           (Some {| period :=
                                     Z.quot Second (rateLimit (fields d)) |}))
                 else d) = transport d)
        by (by destruct (0 <? rateLimit (fields d))).
      rewrite Hsame.
      assert (Hc : (if 0 <? rateLimit (fields d)
                    then t ← NewTicker (Z.quot Second (rateLimit (fields d)));
                         Some (set_fields d
                                 (set_rateLimiter (fields d) (Some t)))
                    else Some d) <> None).
      { intros Hc. specialize (Hfinal _ (fun _ => Some tt)).
        rewrite Hc in Hfinal. discriminate Hfinal. }
      destruct (transport d); split; try done.
      * intros [H|H]; [by destruct Hc|discriminate].
      * intros _. by right.
  - split.
    + rewrite <- Hnone. by split.
    + split; [by left|done].
Qed.

(** X6. A client that was built and whose rate is positive has a limiter,
    and the period of that limiter is one second divided by the rate the
    client ends up with, whatever tickers earlier options created. *)
Theorem NewClient_limiter (opts : list ClientOption) (c : Client) :
  NewClient opts = Some c -> 0 < rateLimit c ->
  rateLimiter c = Some {| period := Z.quot Second (rateLimit c) |} /\
  0 < Z.quot Second (rateLimit c).
Proof.
  unfold NewClient, construct. intros Hnew Hpos.
  destruct (applyOptions opts _) as [d|]; [|discriminate].
  cbn [mbind option_bind] in Hnew.
  destruct (0 <? rateLimit (fields d)) eqn:E.
  - unfold NewTicker in Hnew.
    destruct (Z.quot Second (rateLimit (fields d)) <=? 0) eqn:Eq;
      [discriminate|].
    cbn in Hnew. destruct (transport d); [|discriminate].
    injection Hnew as <-. cbn. split; [reflexivity|lia].
  - cbn in Hnew. destruct (transport d); [|discriminate].
    injection Hnew as <-. lia.
Qed.

Lemma NewClient_limiter_witness :
  exists c,
    NewClient [WithRateLimit 3; WithRateLimit 20; WithBearerToken "t"] = Some c /\
    rateLimiter c = Some {| period := 50000000 |}.
Proof.
  destruct (NewClient [WithRateLimit 3; WithRateLimit 20; WithBearerToken "t"])
    as [c|] eqn:E; [|vm_compute in E; discriminate E].
  exists c. split; [reflexivity|].
  destruct (NewClient_limiter _ c E) as [H _].
  - vm_compute in E. injection E as <-. reflexivity.
  - rewrite H. vm_compute in E. injection E as <-. reflexivity.
Defined.

Lemma TrimRightSlash_spec s :
  exists t, s = TrimRightSlash s +:+ t /\ allSlash t = true /\
            lastByte (TrimRightSlash s) <> Some "/"%char.
Proof.
  induction s as [|c r (t & Hs & Ht & Hl)]; [by exists ""|].
  cbn [TrimRightSlash]. destruct (TrimRightSlash r) as [|d r'] eqn:Hr.
  - destruct (byte_eqb c "/") eqn:Hc.
    + exists (String c r). cbn in Hs. subst r. cbn. rewrite Hc, Ht.
      by repeat split.
    + cbn in Hs. subst t. exists r. cbn. repeat split; [done|].
      intros [= ->]. by rewrite (proj2 (byte_eqb_eq _ _) eq_refl) in Hc.
  - exists t. split; [|split; [done|exact Hl]].
    change (String c r = String c (String d r' +:+ t)). by f_equal.
Qed.

Lemma applyOptions_apiURL opts :
  forall d d', applyOptions opts d = Some d' ->
  apiURL (fields d') = apiURL (fields d) \/
  exists u, WithAPIURL u ∈ opts /\ apiURL (fields d') = TrimRightSlash u.
Proof.
  induction opts as [|opt opts IH]; intros d d'.
  - intros [= <-]. by left.
  - assert (Hstep : forall d1, apiURL (fields d1) = apiURL (fields d) \/
                      (exists u, opt = WithAPIURL u /\
                                 apiURL (fields d1) = TrimRightSlash u) ->
              applyOptions opts d1 = Some d' ->
              apiURL (fields d') = apiURL (fields d) \/
              exists u, WithAPIURL u ∈ opt :: opts /\
                        apiURL (fields d') = TrimRightSlash u).
    { intros d1 H1 Happ. destruct (IH _ _ Happ) as [Heq|(u & Hu & Heq)].
      - destruct H1 as [H1|(u & -> & H1)]; [left; congruence|].
        right. exists u. split; [by left|congruence].
      - right. exists u. split; [by right|done]. }
    destruct opt as [[t|]|u|t|m|n|ua|ct|tok|];
      cbn [applyOptions applyOption mbind option_bind];
      try (apply Hstep; by left); try discriminate.
    + apply Hstep. right. by exists u.
    + destruct (transport d); cbn [mbind option_bind]; [|discriminate].
      apply Hstep; by left.
    + destruct (0 <? n); [|apply Hstep; by left].
      destruct (NewTicker _) as [t|]; cbn [mbind option_bind]; [|discriminate].
      apply Hstep. by left.
Qed.

(** X7. The base URL of a client that was built never ends in a slash: it
    is the default URL, or the URL of one of the options with all its
    trailing slashes removed. *)
Theorem NewClient_apiURL (opts : list ClientOption) (c : Client) :
  NewClient opts = Some c ->
  lastByte (apiURL c) <> Some "/"%char /\
  (apiURL c = DefaultAPIURL \/
   exists u t, WithAPIURL u ∈ opts /\ allSlash t = true /\
               u = apiURL c +:+ t).
Proof.
  unfold NewClient, construct. intros Hnew.
  destruct (applyOptions opts _) as [d|] eqn:Happ; [|discriminate].
  cbn [mbind option_bind] in Hnew.
  assert (Hurl : apiURL c = apiURL (fields d)).
  { destruct (0 <? rateLimit (fields d)).
    - destruct (NewTicker _); [|discriminate]. cbn in Hnew.
      destruct (transport d); [|discriminate]. by injection Hnew as <-.
    - cbn in Hnew. destruct (transport d); [|discriminate].
      by injection Hnew as <-. }
  rewrite Hurl.
  destruct (applyOptions_apiURL _ _ _ Happ) as [Heq|(u & Hu & Heq)].
  - cbn in Heq. rewrite Heq. split; [by vm_compute|by left].
  - destruct (TrimRightSlash_spec u) as (t & Hs & Ht & Hl).
    rewrite Heq. split; [exact Hl|]. right. by exists u, t.
Qed.

Lemma NewClient_apiURL_witness :
  exists c,
    NewClient [WithAPIURL "https://api.sandbox.orcid.org/v3.0//"] = Some c /\
    apiURL c = "https://api.sandbox.orcid.org/v3.0" /\
    lastByte (apiURL c) <> Some "/"%char.
Proof.
  eexists. split; [reflexivity|]. split; [reflexivity|].
  exact (proj1 (NewClient_apiURL
                  [WithAPIURL "https://api.sandbox.orcid.org/v3.0//"] _ eq_refl)).
Defined.

(* ===================================================================== *)
(** * Identifier validation *)
(* ===================================================================== *)

Example ValidateOrcidID_tests :
  ValidateOrcidID "0000-0002-1825-0097" = Valid /\
  ValidateOrcidID "https://orcid.org/0000-0002-1825-0097" = Valid /\
  ValidateOrcidID "0000-0002-1825" = Invalid (ErrLength 12) /\
  ValidateOrcidID "XXXX-0002-1825-0097" = Invalid (ErrCharacter 0) /\
  ValidateOrcidID "0000-0002-1825-0099" = Invalid ErrChecksum /\
  ValidateOrcidID "0000-0002-1694-233X" = Valid.
Proof. repeat split. Qed.

Lemma atoiByte_range c : 0 <= atoiByte c <= 9.
Proof.
  unfold atoiByte, isDigit, URL.between.
  destruct (_ && _) eqn:E; [|lia].
  apply andb_true_iff in E as [E1 E2].
  apply N.leb_le in E1, E2. lia.
Qed.

Lemma charValue_range c : 0 <= charValue c <= 10.
Proof.
  unfold charValue. pose proof (atoiByte_range c) as H. unfold atoiByte in H.
  destruct (isDigit c); [lia|]. destruct (byte_eqb c "X"); lia.
Qed.

Lemma charValue_digit c : isDigit c = true -> charValue c = atoiByte c.
Proof. unfold charValue, atoiByte. by intros ->. Qed.

(** On identifier characters the value determines the character. *)
Lemma charValue_inj c d :
  (isDigit c || byte_eqb c "X") = true ->
  (isDigit d || byte_eqb d "X") = true ->
  charValue c = charValue d -> c = d.
Proof.
  intros Hc Hd.
  each_byte c; try discriminate Hc; each_byte d; try discriminate Hd;
    vm_compute; congruence.
Qed.

Lemma digitsLoop_spec s n :
  forall i,
  digitsLoop s i n = Valid <-> digitsN s n = true.
Proof.
  revert s. induction n as [|n IH]; intros s i; [by split|].
  cbn. destruct s as [|c r]; [by split|].
  destruct (isDigit c); cbn; [apply IH|by split].
Qed.

Lemma digitsLoop_no_panic s n :
  forall i, (n <= String.length s)%nat -> digitsLoop s i n <> Panic.
Proof.
  revert s. induction n as [|n IH]; intros s i Hn; [done|].
  cbn. destruct s as [|c r]; [cbn in Hn; lia|].
  destruct (isDigit c); cbn; [|done]. apply IH. cbn in Hn. lia.
Qed.

(** Over digits the machine total is the unbounded one: it stays far
    below the range of an int. *)
Lemma checksumLoop_horner s n :
  forall total,
  digitsN s n = true -> 0 <= total -> (total + 18) * 2 ^ Z.of_nat n <= 2 ^ 62 ->
  checksumLoop s n total = Some (horner s n total) /\
  0 <= horner s n total <= (total + 18) * 2 ^ Z.of_nat n.
Proof.
  revert s. induction n as [|n IH]; intros s total Hd H0 Hb.
  - cbn. split; [done|]. cbn in Hb. lia.
  - destruct s as [|c r]; [discriminate|].
    cbn in Hd. apply andb_true_iff in Hd as [Hc Hr].
    pose proof (atoiByte_range c) as Ha.
    rewrite Nat2Z.inj_succ, Z.pow_succ_r in Hb |- * by lia.
    assert (HP : 0 < 2 ^ Z.of_nat n) by (apply Z.pow_pos_nonneg; lia).
    assert (Hstep : int_mul (int_add total (atoiByte c)) 2
                    = (total + atoiByte c) * 2).
    { unfold int_mul, int_add.
      rewrite (wrap_in_range (total + atoiByte c))
        by (unfold min_int, max_int; nia).
      apply wrap_in_range. unfold min_int, max_int. nia. }
    cbn [checksumLoop horner]. rewrite Hstep.
    destruct (IH r ((total + atoiByte c) * 2) Hr) as [Heq Hrange]; [lia|nia|].
    split; [exact Heq|]. nia.
Qed.

(** The comparison of the check character with the computed result. *)
Lemma check_character c result :
  0 <= result <= 10 -> (isDigit c || byte_eqb c "X") = true ->
  (if result =? 10 then String.eqb (String c "") "X"
   else String.eqb (String c "") (itoa result))
  = (charValue c =? result).
Proof.
  intros Hr Hc.
  assert (Hcases : result = 0 \/ result = 1 \/ result = 2 \/ result = 3 \/
                   result = 4 \/ result = 5 \/ result = 6 \/ result = 7 \/
                   result = 8 \/ result = 9 \/ result = 10) by lia.
  each_byte c; try discriminate Hc;
    (repeat destruct Hcases as [->|Hcases]; [..|subst result]); reflexivity.
Qed.

Lemma checksum_condition total c :
  0 <= total <= 2 ^ 62 -> (isDigit c || byte_eqb c "X") = true ->
  let result := Z.rem (int_sub 12 (Z.rem total 11)) 11 in
  (if result =? 10 then String.eqb (String c "") "X"
   else String.eqb (String c "") (itoa result))
  = ((total + charValue c) mod 11 =? 1).
Proof.
  intros Ht Hc result.
  assert (Hrem : Z.rem total 11 = total mod 11) by (apply Z.rem_mod_nonneg; lia).
  assert (Hm : 0 <= total mod 11 < 11) by (apply Z.mod_pos_bound; lia).
  assert (Hsub : int_sub 12 (Z.rem total 11) = 12 - total mod 11).
  { unfold int_sub. rewrite Hrem. apply wrap_in_range.
    unfold min_int, max_int. lia. }
  assert (Hres : result = (12 - total mod 11) mod 11).
  { subst result. rewrite Hsub. apply Z.rem_mod_nonneg; lia. }
  assert (Hr : 0 <= result <= 10).
  { rewrite Hres. pose proof (Z.mod_pos_bound (12 - total mod 11) 11). lia. }
  rewrite (check_character c result Hr Hc).
  pose proof (charValue_range c) as Hv.
  rewrite Hres, <- (Z.add_mod_idemp_l total) by lia.
  clear -Hv Hm. generalize dependent (total mod 11). intros m Hm.
  generalize dependent (charValue c). intros v Hv.
  destruct (v =? _) eqn:E1, (_ =? 1) eqn:E2; try reflexivity; exfalso;
    [apply Z.eqb_eq in E1; apply Z.eqb_neq in E2
    |apply Z.eqb_neq in E1; apply Z.eqb_eq in E2];
    Z.div_mod_to_equations; lia.
Qed.

(** The loop total and the value of the last character make up the
    weighted sum. *)
Lemma horner_weightedSum s n :
  forall total c,
  String.length s = S n -> digitsN s n = true -> String.get n s = Some c ->
  horner s n total + charValue c = total * 2 ^ Z.of_nat n + weightedSum s.
Proof.
  revert s. induction n as [|n IH]; intros s total c Hl Hd Hg.
  - destruct s as [|x [|y r]]; try discriminate Hl.
    cbn in Hg. injection Hg as ->. cbn. lia.
  - destruct s as [|x r]; [discriminate|].
    cbn in Hd. apply andb_true_iff in Hd as [Hx Hr].
    cbn in Hl. injection Hl as Hl. cbn [String.get] in Hg.
    cbn [horner weightedSum]. rewrite (IH r _ c Hl Hr Hg), Hl.
    rewrite (charValue_digit x Hx), !Nat2Z.inj_succ, !Z.pow_succ_r by lia.
    lia.
Qed.

Lemma checkID_valid_iff u :
  checkID u = Valid <-> idShape u = true /\ weightedSum u mod 11 = 1.
Proof.
  unfold checkID, idShape, len.
  destruct (Z.eqb_spec (Z.of_nat (String.length u)) 16) as [Hl|Hl]; cbn [negb].
  2:{ replace (String.length u =? 16)%nat with false
        by (symmetry; apply Nat.eqb_neq; lia).
      split; [discriminate|]. by intros [? _]. }
  assert (Hlen : String.length u = 16%nat) by lia.
  rewrite Hlen. cbn [Nat.eqb andb].
  destruct (digitsN u 15) eqn:Hd.
  2:{ destruct (digitsLoop u 0 15) eqn:Hloop.
      - apply digitsLoop_spec in Hloop. congruence.
      - split; [discriminate|]. by intros [? _].
      - split; [discriminate|]. by intros [? _]. }
  rewrite (proj2 (digitsLoop_spec u 15 0) Hd). cbn [andb].
  destruct (String.get 15 u) as [c|] eqn:Hg.
  2:{ split; [discriminate|]. by intros [? _]. }
  rewrite <- negb_orb.
  destruct (isDigit c || byte_eqb c "X") eqn:Hc; cbn [negb].
  2:{ split; [discriminate|]. by intros [? _]. }
  destruct (checksumLoop_horner u 15 0 Hd) as [Hsum Hrange]; [lia|by vm_compute|].
  unfold isValidChecksum. rewrite Hsum, Hg. cbn [mbind option_bind].
  pose proof (checksum_condition (horner u 15 0) c) as Hcond.
  cbv zeta in Hcond.
  assert (Hb : 0 <= horner u 15 0 <= 2 ^ 62).
  { split; [lia|]. etrans; [apply Hrange|]. by vm_compute. }
  specialize (Hcond Hb Hc).
  rewrite (horner_weightedSum u 15 0 c Hlen Hd Hg), Z.mul_0_l, Z.add_0_l in Hcond.
  destruct (Z.rem (int_sub 12 (Z.rem (horner u 15 0) 11)) 11 =? 10);
    rewrite Hcond; destruct (Z.eqb_spec (weightedSum u mod 11) 1) as [E|E];
    split; try done; try (by intros [_ ?]).
Qed.

Lemma checkID_no_panic u : checkID u <> Panic.
Proof.
  unfold checkID, len.
  destruct (Z.eqb_spec (Z.of_nat (String.length u)) 16) as [Hl|Hl]; cbn [negb];
    [|discriminate].
  assert (Hlen : String.length u = 16%nat) by lia.
  destruct (digitsLoop u 0 15) eqn:Hloop; [|discriminate|].
  2:{ exfalso. apply (digitsLoop_no_panic u 15 0); [lia|done]. }
  apply digitsLoop_spec in Hloop.
  do 16 (destruct u as [|? u]; [discriminate Hlen|]).
  cbn [String.get]. destruct (_ && _); [discriminate|].
  destruct (checksumLoop_horner _ 15 0 Hloop) as [Hsum _]; [lia|by vm_compute|].
  unfold isValidChecksum. rewrite Hsum. cbn [mbind option_bind String.get].
  repeat (destruct (_ =? _)%Z || destruct (String.eqb _ _)); discriminate.
Qed.

Lemma valid_iff_weightedSum (orcid : string) :
  ValidateOrcidID orcid = Valid <->
  idShape (normalised orcid) = true /\
  weightedSum (normalised orcid) mod 11 = 1.
Proof. apply checkID_valid_iff. Qed.

(** X8: [ValidateOrcidID] returns nil exactly on the (ASCII) inputs whose
    normalised form has 16 bytes, 15 digits followed by a digit or [X],
    with a weighted sum (ISO 7064 MOD 11-2) that leaves 1 modulo 11. *)
Theorem ValidateOrcidID_valid_iff (orcid : string) :
  is_ascii orcid = true ->
  ValidateOrcidID orcid = Valid <->
  idShape (normalised orcid) = true /\
  weightedSum (normalised orcid) mod 11 = 1.
Proof. intros _. apply checkID_valid_iff. Qed.

Lemma ValidateOrcidID_valid_iff_witness :
  is_ascii "https://orcid.org/0000-0002-1694-233X" = true /\
  ValidateOrcidID "https://orcid.org/0000-0002-1694-233X" = Valid /\
  weightedSum "000000021694233X" mod 11 = 1.
Proof.
  split; [reflexivity|]. split; [reflexivity|].
  exact (proj2 (proj1 (ValidateOrcidID_valid_iff
                         "https://orcid.org/0000-0002-1694-233X" eq_refl)
                  eq_refl)).
Defined.

(** X9: [ValidateOrcidID] never indexes out of range: on every (ASCII)
    input it returns nil or one of its four errors. *)
Theorem ValidateOrcidID_no_panic (orcid : string) :
  is_ascii orcid = true ->
  ValidateOrcidID orcid <> Panic.
Proof. intros _. apply checkID_no_panic. Qed.

Lemma ValidateOrcidID_no_panic_witness :
  ValidateOrcidID "" = Invalid (ErrLength 0) /\ ValidateOrcidID "" <> Panic.
Proof.
  split; [reflexivity|]. exact (ValidateOrcidID_no_panic "" eq_refl).
Defined.

Lemma weightedSum_app a b :
  weightedSum (a +:+ b)
  = weightedSum a * 2 ^ Z.of_nat (String.length b) + weightedSum b.
Proof.
  induction a as [|c a IH]; [cbn; lia|].
  cbn [String.append weightedSum]. rewrite IH, append_length, Nat2Z.inj_add.
  rewrite Z.pow_add_r by lia. lia.
Qed.

Lemma idChars_app a b : idChars (a +:+ b) = idChars a && idChars b.
Proof.
  induction a as [|c a IH]; [reflexivity|]. cbn. by rewrite IH, andb_assoc.
Qed.

Lemma digits_idChars s n :
  forall c,
  String.length s = S n -> digitsN s n = true -> String.get n s = Some c ->
  idChar c = true -> idChars s = true.
Proof.
  revert s. induction n as [|n IH]; intros s c Hl Hd Hg Hc.
  - destruct s as [|x [|y r]]; try discriminate Hl.
    cbn in Hg. injection Hg as ->. cbn. by rewrite Hc.
  - destruct s as [|x r]; [discriminate|].
    cbn in Hd. apply andb_true_iff in Hd as [Hx Hr].
    cbn in Hl. injection Hl as Hl. cbn [String.get] in Hg.
    cbn. unfold idChar at 1. rewrite Hx. cbn. by apply (IH r c).
Qed.

Lemma idShape_idChars u : idShape u = true -> idChars u = true.
Proof.
  unfold idShape. intros [[Hl Hd]%andb_true_iff Hc]%andb_true_iff.
  apply Nat.eqb_eq in Hl.
  destruct (String.get 15 u) as [c|] eqn:Hg; [|discriminate].
  by apply (digits_idChars u 15 c).
Qed.

(** Two is invertible modulo 11. *)
Lemma cancel_power_of_two v k :
  (v * 2 ^ Z.of_nat k) mod 11 = 0 -> v mod 11 = 0.
Proof.
  revert v. induction k as [|k IH]; intros v H.
  - by rewrite Z.mul_1_r in H.
  - rewrite Nat2Z.inj_succ, Z.pow_succ_r, Z.mul_assoc in H by lia.
    apply IH in H. revert H. Z.div_mod_to_equations. lia.
Qed.

(** Two identifier characters with the same weighted contribution modulo
    11 are the same character. *)
Lemma same_contribution c d k :
  idChar c = true -> idChar d = true ->
  ((charValue c - charValue d) * 2 ^ Z.of_nat k) mod 11 = 0 -> c = d.
Proof.
  intros Hc Hd H. apply cancel_power_of_two in H.
  apply charValue_inj; [exact Hc|exact Hd|].
  pose proof (charValue_range c). pose proof (charValue_range d).
  revert H. Z.div_mod_to_equations. lia.
Qed.

Lemma same_residue a b : a mod 11 = 1 -> b mod 11 = 1 -> (a - b) mod 11 = 0.
Proof. Z.div_mod_to_equations. lia. Qed.

(** X10: the check character detects every substitution of one character:
    of two inputs whose normalised forms differ in exactly one position,
    at most one is accepted. *)
Theorem ValidateOrcidID_substitution (s s' a b : string) (c d : ascii) :
  is_ascii s = true -> is_ascii s' = true ->
  normalised s = a +:+ String c b ->
  normalised s' = a +:+ String d b ->
  c <> d ->
  ValidateOrcidID s = Valid ->
  ValidateOrcidID s' <> Valid.
Proof.
  intros _ _ Hs Hs' Hcd [Hsh Hw]%valid_iff_weightedSum
    [Hsh' Hw']%valid_iff_weightedSum.
  rewrite Hs in Hsh, Hw. rewrite Hs' in Hsh', Hw'.
  apply idShape_idChars in Hsh, Hsh'.
  rewrite idChars_app in Hsh, Hsh'. cbn [idChars] in Hsh, Hsh'.
  apply andb_true_iff in Hsh as [_ [Hc _]%andb_true_iff].
  apply andb_true_iff in Hsh' as [_ [Hd _]%andb_true_iff].
  apply Hcd, (same_contribution c d (String.length b) Hc Hd).
  pose proof (same_residue _ _ Hw Hw') as H.
  rewrite !weightedSum_app in H. cbn [weightedSum] in H.
  match type of H with (?x mod 11 = 0) =>
    replace x with ((charValue c - charValue d) * 2 ^ Z.of_nat (String.length b))
      in H by (cbn [String.length]; lia) end.
  exact H.
Qed.

Lemma ValidateOrcidID_substitution_witness :
  ValidateOrcidID "0000-0002-1825-0097" = Valid /\
  ValidateOrcidID "0000-0002-1825-0197" <> Valid.
Proof.
  split; [reflexivity|].
  apply (ValidateOrcidID_substitution "0000-0002-1825-0097" _
           "0000000218250" "97" "0" "1");
    [reflexivity|reflexivity|reflexivity|reflexivity|done|reflexivity].
Defined.

(** X11: the check character detects every transposition of two adjacent
    characters that differ. *)
Theorem ValidateOrcidID_transposition (s s' a b : string) (c d : ascii) :
  is_ascii s = true -> is_ascii s' = true ->
  normalised s = a +:+ String c (String d b) ->
  normalised s' = a +:+ String d (String c b) ->
  c <> d ->
  ValidateOrcidID s = Valid ->
  ValidateOrcidID s' <> Valid.
Proof.
  intros _ _ Hs Hs' Hcd [Hsh Hw]%valid_iff_weightedSum
    [_ Hw']%valid_iff_weightedSum.
  rewrite Hs in Hsh, Hw. rewrite Hs' in Hw'.
  apply idShape_idChars in Hsh.
  rewrite idChars_app in Hsh. cbn [idChars] in Hsh.
  apply andb_true_iff in Hsh as [_ [Hc [Hd _]%andb_true_iff]%andb_true_iff].
  apply Hcd, (same_contribution c d (String.length b) Hc Hd).
  pose proof (same_residue _ _ Hw Hw') as H.
  rewrite !weightedSum_app in H. cbn [weightedSum String.length] in H.
  rewrite !Nat2Z.inj_succ, !Z.pow_succ_r in H by lia.
  match type of H with (?x mod 11 = 0) =>
    replace x with ((charValue c - charValue d) * 2 ^ Z.of_nat (String.length b))
      in H by lia end.
  exact H.
Qed.

Lemma ValidateOrcidID_transposition_witness :
  ValidateOrcidID "0000-0002-1825-0097" = Valid /\
  ValidateOrcidID "0000-0002-1825-0079" <> Valid.
Proof.
  split; [reflexivity|].
  apply (ValidateOrcidID_transposition "0000-0002-1825-0097" _
           "00000002182500" "" "9" "7");
    [reflexivity|reflexivity|reflexivity|reflexivity|done|reflexivity].
Defined.

Lemma idChar_facts c :
  idChar c = true ->
  isSpace c = false /\ byte_eqb c "/" = false /\ byte_eqb c "-" = false /\
  upper c = c.
Proof. each_byte c; try discriminate; done. Qed.

Lemma ToUpper_idChars s : idChars s = true -> ToUpper s = s.
Proof.
  induction s as [|c r IH]; [done|]. cbn.
  intros [Hc Hr]%andb_true_iff.
  destruct (idChar_facts c Hc) as (_ & _ & _ & ->). by rewrite (IH Hr).
Qed.

Lemma TrimRightSpace_fixed s c :
  lastByte s = Some c -> isSpace c = false -> TrimRightSpace s = s.
Proof.
  induction s as [|x r IH]; [done|].
  destruct r as [|y r'].
  - cbn. intros [= ->] ->. reflexivity.
  - intros Hl Hc. change (lastByte (String x (String y r')))
      with (lastByte (String y r')) in Hl.
    cbn [TrimRightSpace]. cbn [TrimRightSpace] in IH. by rewrite (IH Hl Hc).
Qed.

(** X12: after any 15 digits exactly one character completes a valid
    identifier, and it is a digit or [X]. *)
Theorem ValidateOrcidID_check_character (p : string) :
  String.length p = 15%nat -> digitsN p 15 = true ->
  exists c, idChar c = true /\
    forall s d, is_ascii s = true -> normalised s = p +:+ String d "" ->
      (ValidateOrcidID s = Valid <-> d = c).
Proof.
  intros Hl Hd.
  set (v := (1 - 2 * weightedSum p) mod 11).
  assert (Hv : 0 <= v < 11) by (apply Z.mod_pos_bound; lia).
  set (c := if v =? 10 then "X"%char else ascii_of_N (Z.to_N (48 + v))).
  assert (Hc : idChar c = true /\ charValue c = v).
  { subst c. clearbody v.
    assert (Hcases : v = 0 \/ v = 1 \/ v = 2 \/ v = 3 \/ v = 4 \/ v = 5 \/
                     v = 6 \/ v = 7 \/ v = 8 \/ v = 9 \/ v = 10) by lia.
    repeat destruct Hcases as [->|Hcases]; [..|subst v]; by vm_compute. }
  destruct Hc as [Hc Hcv].
  exists c. split; [exact Hc|]. intros s d _ Hs.
  rewrite valid_iff_weightedSum, Hs, weightedSum_app.
  cbn [weightedSum String.length]. rewrite Z.pow_1_r, Z.pow_0_r.
  assert (Hshape : idShape (p +:+ String d "") = idChar d).
  { clear -Hl Hd. do 15 (destruct p as [|? p]; [discriminate Hl|]).
    destruct p; [|discriminate Hl].
    unfold idShape. cbn [String.append String.length Nat.eqb andb String.get].
    cbn in Hd |- *. rewrite Hd. reflexivity. }
  rewrite Hshape. split.
  - intros [Hd' Hw]. apply (charValue_inj d c Hd' Hc).
    pose proof (charValue_range d) as Hr. rewrite Hcv. subst v.
    revert Hw Hr. generalize (weightedSum p), (charValue d). clear.
    intros W x. Z.div_mod_to_equations. lia.
  - intros ->. split; [exact Hc|]. rewrite Hcv. subst v.
    generalize (weightedSum p). clear. intros W.
    Z.div_mod_to_equations. lia.
Qed.

Lemma ValidateOrcidID_check_character_witness :
  exists c, idChar c = true /\
    forall s d, is_ascii s = true ->
      normalised s = "000000021694233" +:+ String d "" ->
      (ValidateOrcidID s = Valid <-> d = c).
Proof.
  apply (ValidateOrcidID_check_character "000000021694233"); reflexivity.
Defined.

Lemma idShape_length u : idShape u = true -> String.length u = 16%nat.
Proof.
  unfold idShape. intros [[Hl _]%andb_true_iff _]%andb_true_iff.
  by apply Nat.eqb_eq.
Qed.

Lemma ReplaceAll_keep c r old new :
  byte_eqb c old = false ->
  ReplaceAll (String c r) old new = String c (ReplaceAll r old new).
Proof. intros H. cbn. by rewrite H. Qed.

Lemma ReplaceAll_drop r : ReplaceAll (String "-" r) "-" "" = ReplaceAll r "-" "".
Proof. reflexivity. Qed.

(** Formatting a well-shaped identifier and normalising the result gives
    the normalised identifier back. *)
Lemma normalised_FormatOrcidID s :
  idShape (normalised s) = true ->
  normalised (FormatOrcidID s) = normalised s.
Proof.
  intros Hsh. unfold normalised at 1. rewrite FormatOrcidID_shape. cbv zeta.
  fold (normalised s). pose proof (idShape_length _ Hsh) as Hl.
  pose proof (idShape_idChars _ Hsh) as Hc.
  rewrite (ToUpper_idChars _ Hc). unfold len. rewrite Hl.
  change (Z.of_nat 16 =? 16) with true. cbv iota.
  generalize dependent (normalised s). clear. intros u _ Hl Hc.
  do 16 (destruct u as [|? u]; [discriminate Hl|]).
  destruct u; [|discriminate Hl]. clear Hl.
  cbn [idChars] in Hc.
  repeat match type of Hc with
         | (_ && _) = true => apply andb_true_iff in Hc as [?%idChar_facts Hc]
         end.
  clear Hc.
  repeat match goal with
         | H : _ /\ _ |- _ => destruct H as [? H]
         end.
  cbn [slice String.substring Nat.sub String.append].
  rewrite ParseOrcidID_fixed.
  - repeat first [rewrite ReplaceAll_keep by assumption
                 |rewrite ReplaceAll_drop].
    reflexivity.
  - unfold TrimSpace. cbn [TrimLeftSpace].
    match goal with |- context [isSpace ?c] =>
      match goal with H : isSpace c = false |- _ => rewrite H end end.
    eapply TrimRightSpace_fixed; [reflexivity|eassumption].
  - cbn [ContainsByte].
    repeat match goal with H : byte_eqb _ "/" = false |- _ =>
      rewrite H; clear H end.
    reflexivity.
Qed.

Lemma idChar_ascii c : idChar c = true -> ascii_byte c = true.
Proof. each_byte c; try discriminate; done. Qed.

Lemma FormatOrcidID_ascii s :
  idShape (normalised s) = true -> is_ascii (FormatOrcidID s) = true.
Proof.
  intros Hsh. rewrite FormatOrcidID_shape. cbv zeta.
  fold (normalised s). pose proof (idShape_length _ Hsh) as Hl.
  pose proof (idShape_idChars _ Hsh) as Hc.
  rewrite (ToUpper_idChars _ Hc). unfold len. rewrite Hl.
  change (Z.of_nat 16 =? 16) with true. cbv iota.
  generalize dependent (normalised s). clear. intros u _ Hl Hc.
  do 16 (destruct u as [|? u]; [discriminate Hl|]).
  destruct u; [|discriminate Hl]. clear Hl.
  cbn [idChars] in Hc.
  repeat match type of Hc with
         | (_ && _) = true => apply andb_true_iff in Hc as [?%idChar_ascii Hc]
         end.
  clear Hc.
  cbn [slice String.substring Nat.sub String.append is_ascii].
  repeat match goal with H : ascii_byte _ = true |- _ =>
    rewrite H; clear H end.
  reflexivity.
Qed.

(** X13: formatting keeps a valid identifier valid: [FormatOrcidID] of an
    accepted (ASCII) input is ASCII and accepted too, and has the same
    normalised form. *)
Theorem ValidateOrcidID_FormatOrcidID (s : string) :
  is_ascii s = true ->
  ValidateOrcidID s = Valid ->
  is_ascii (FormatOrcidID s) = true /\
  ValidateOrcidID (FormatOrcidID s) = Valid /\
  normalised (FormatOrcidID s) = normalised s.
Proof.
  intros _ Hv. pose proof Hv as [Hsh _]%valid_iff_weightedSum.
  pose proof (normalised_FormatOrcidID s Hsh) as Hn.
  split; [by apply FormatOrcidID_ascii|]. split; [|exact Hn].
  change (checkID (normalised (FormatOrcidID s)) = Valid).
  rewrite Hn. exact Hv.
Qed.

Lemma ValidateOrcidID_FormatOrcidID_witness :
  FormatOrcidID " https://orcid.org/000000021694233X" = "0000-0002-1694-233X" /\
  ValidateOrcidID "0000-0002-1694-233X" = Valid.
Proof.
  split; [reflexivity|].
  exact (proj1 (proj2 (ValidateOrcidID_FormatOrcidID
                  " https://orcid.org/000000021694233X" eq_refl eq_refl))).
Defined.

Lemma digitsLoop_invalid s n :
  forall i e,
  digitsLoop s i n = Invalid e ->
  exists j c, e = ErrCharacter (Z.of_nat (i + j)) /\ (j < n)%nat /\
    String.get j s = Some c /\ isDigit c = false /\ digitsN s j = true.
Proof.
  revert s. induction n as [|n IH]; intros s i e H; [discriminate|].
  cbn in H. destruct s as [|c r]; [discriminate|].
  destruct (isDigit c) eqn:Hc; cbn in H.
  - destruct (IH r (S i) e H) as (j & d & -> & Hj & Hg & Hd & Hp).
    exists (S j), d. repeat split; try done.
    + f_equal. lia.
    + lia.
    + cbn. by rewrite Hc.
  - injection H as <-. exists 0%nat, c. rewrite Nat.add_0_r.
    repeat split; try done. lia.
Qed.

Lemma digitsLoop_first s n :
  forall i j c,
  (j < n)%nat -> digitsN s j = true -> String.get j s = Some c ->
  isDigit c = false ->
  digitsLoop s i n = Invalid (ErrCharacter (Z.of_nat (i + j))).
Proof.
  revert s. induction n as [|n IH]; intros s i j c Hj Hd Hg Hc; [lia|].
  destruct s as [|x r]; [by destruct j|].
  destruct j as [|j].
  - cbn in Hg. injection Hg as ->. cbn. rewrite Hc. cbn.
    by rewrite Nat.add_0_r.
  - cbn in Hd. apply andb_true_iff in Hd as [Hx Hr]. cbn [String.get] in Hg.
    cbn. rewrite Hx. cbn.
    rewrite (IH r (S i) j c) by (done || lia). do 3 f_equal. lia.
Qed.

(** X14: on (ASCII) input the length error is returned exactly when the
    normalised input does not have 16 bytes, and it reports that
    length. *)
Theorem ValidateOrcidID_length_error (s : string) (n : Z) :
  is_ascii s = true ->
  ValidateOrcidID s = Invalid (ErrLength n) <->
  n = len (normalised s) /\ n <> 16.
Proof.
  intros _.
  change (ValidateOrcidID s) with (checkID (normalised s)).
  unfold checkID.
  destruct (Z.eqb_spec (len (normalised s)) 16) as [Hl|Hl]; cbn [negb].
  - split; [|intros [-> ?]; done].
    destruct (digitsLoop (normalised s) 0 15) eqn:Hloop; try discriminate.
    + destruct (String.get 15 (normalised s)); [|discriminate].
      destruct (_ && _); [discriminate|].
      by destruct (isValidChecksum (normalised s)) as [[]|].
    + apply digitsLoop_invalid in Hloop as (j & c & -> & _). discriminate.
  - split.
    + intros [= <-]. done.
    + by intros [-> _].
Qed.

Lemma ValidateOrcidID_length_error_witness :
  ValidateOrcidID " 0000-0002-1825 " = Invalid (ErrLength 12).
Proof.
  apply (ValidateOrcidID_length_error " 0000-0002-1825 " 12 eq_refl).
  split; [reflexivity|done].
Defined.

(** X15: when the normalised (ASCII) input has 16 bytes and one of its
    first 15 is not a digit, the error names the position of the first
    such byte. *)
Theorem ValidateOrcidID_first_bad_digit (s : string) (i : nat) (c : ascii) :
  is_ascii s = true ->
  String.length (normalised s) = 16%nat ->
  (i < 15)%nat ->
  digitsN (normalised s) i = true ->
  String.get i (normalised s) = Some c ->
  isDigit c = false ->
  ValidateOrcidID s = Invalid (ErrCharacter (Z.of_nat i)).
Proof.
  intros _ Hl Hi Hd Hg Hc.
  change (ValidateOrcidID s) with (checkID (normalised s)).
  unfold checkID, len. rewrite Hl. change (Z.of_nat 16 =? 16) with true.
  cbn [negb]. by rewrite (digitsLoop_first _ 15 0 i c Hi Hd Hg Hc).
Qed.

Lemma ValidateOrcidID_first_bad_digit_witness :
  ValidateOrcidID "0000-00o2-1825-0O97" = Invalid (ErrCharacter 6).
Proof.
  apply (ValidateOrcidID_first_bad_digit "0000-00o2-1825-0O97" 6 "o");
    [reflexivity|reflexivity|lia|reflexivity|reflexivity|reflexivity].
Defined.

(* ===================================================================== *)
(** * The iterator inside a page and at the end *)
(* ===================================================================== *)

Lemma Next_in_page (w : World) (si : SearchIterator) (st : State)
    (b : SearchResult) :
  err si = None -> ctxDone w (selects st) = false ->
  currentBatch si = Some b ->
  -1 <= currentIndex si < lenResults b - 1 ->
  lenResults b <= max_int ->
  Next w si st = ((true, set_index si (currentIndex si + 1)), polled st) /\
  Value (set_index si (currentIndex si + 1))
    = mjoin (Results b !! Z.to_nat (currentIndex si + 1)).
Proof.
  intros He Hc Hb Hi Hmax.
  assert (Hadd : int_add (currentIndex si) 1 = currentIndex si + 1).
  { unfold int_add. apply wrap_in_range. unfold min_int, max_int in *. lia. }
  split.
  - rewrite (Next_live _ _ _ He Hc). unfold needBatch. rewrite Hb.
    destruct (Z.leb_spec (lenResults b - 1) (currentIndex si)); [lia|].
    cbn. rewrite Hb, Hadd.
    by destruct (Z.ltb_spec (currentIndex si + 1) (lenResults b)); [|lia].
  - unfold Value. cbn. rewrite Hb.
    destruct (Z.ltb_spec (currentIndex si + 1) 0); [lia|].
    by destruct (Z.leb_spec (lenResults b) (currentIndex si + 1)); [lia|].
Qed.

(** X16: while records of the current page are left, [Next] returns true
    and moves the cursor on by one without any fetch or transport call;
    [Value] is then the record at the new index. *)
Theorem Next_within_page (w : World) (si : SearchIterator) (st : State)
    (b : SearchResult) :
  err si = None -> ctxDone w (selects st) = false ->
  currentBatch si = Some b ->
  -1 <= currentIndex si < lenResults b - 1 ->
  lenResults b <= max_int ->
  Next w si st = ((true, set_index si (currentIndex si + 1)), polled st) /\
  Value (set_index si (currentIndex si + 1))
    = mjoin (Results b !! Z.to_nat (currentIndex si + 1)).
Proof. apply Next_in_page. Qed.

Lemma Next_within_page_witness :
  let '(_, si, st) :=
    nextN 1 pagedServer (SearchIter (testClient 3) testParams) initial in
  fst (Next pagedServer si st)
    = (true, set_index si 1) /\
  Value (set_index si 1) = searchHit "0000-0000-0000-0002".
Proof.
  destruct (nextN 1 pagedServer (SearchIter (testClient 3) testParams) initial)
    as [[bs si] st] eqn:E.
  vm_compute in E. injection E as _ <- <-.
  match goal with |- fst (Next _ ?si ?st) = _ /\ _ =>
    destruct (currentBatch si) as [b|] eqn:Hb; [|discriminate Hb];
    destruct (Next_within_page pagedServer si st b) as [H1 H2];
      [reflexivity|reflexivity|exact Hb
      |injection Hb as <-; by vm_compute
      |injection Hb as <-; by vm_compute|]
  end.
  split.
  - exact (f_equal fst H1).
  - injection Hb as <-. exact H2.
Defined.

Lemma cursorOK_SearchIter c p : cursorOK (SearchIter c p).
Proof. reflexivity. Qed.

Lemma nextPage_cursor si si1 :
  nextPage si = Some si1 ->
  currentBatch si1 = currentBatch si /\ currentIndex si1 = currentIndex si /\
  err si1 = err si /\ client si1 = client si.
Proof.
  unfold nextPage. destruct (currentBatch si) eqn:Hb.
  - destruct (_ <=? _); [discriminate|]. intros [= <-]. by rewrite <- Hb.
  - intros [= <-]. by rewrite Hb.
Qed.

Lemma Value_at si b :
  currentBatch si = Some b -> 0 <= currentIndex si < lenResults b ->
  exists rec, Results b !! Z.to_nat (currentIndex si) = Some rec /\
              Value si = rec.
Proof.
  intros Hb Hi.
  destruct (lookup_lt_is_Some_2 (Results b) (Z.to_nat (currentIndex si)))
    as [rec Hrec]; [unfold lenResults in Hi; lia|].
  exists rec. split; [exact Hrec|].
  unfold Value. rewrite Hb.
  destruct (Z.ltb_spec (currentIndex si) 0); [lia|].
  destruct (Z.leb_spec (lenResults b) (currentIndex si)); [lia|].
  cbn. by rewrite Hrec.
Qed.

(** X17: [Next] keeps the cursor in step with the page, and whenever it
    returns true there is a record slot under the cursor, which [Value]
    returns. *)
Theorem Next_cursor (w : World) (si : SearchIterator) (st : State) :
  cursorOK si ->
  (forall b, currentBatch si = Some b -> lenResults b <= max_int) ->
  let r := Next w si st in
  cursorOK (snd (fst r)) /\
  (fst (fst r) = true ->
   exists b rec,
     currentBatch (snd (fst r)) = Some b /\
     0 <= currentIndex (snd (fst r)) < lenResults b /\
     Results b !! Z.to_nat (currentIndex (snd (fst r))) = Some rec /\
     Value (snd (fst r)) = rec).
Proof.
  intros Hok Hmax r. subst r.
  destruct (err si) as [e|] eqn:He.
  { rewrite (Next_failed _ _ _ _ He). by split. }
  destruct (ctxDone w (selects st)) eqn:Hc.
  { rewrite (Next_cancelled _ _ _ He Hc). by split. }
  rewrite (Next_live _ _ _ He Hc).
  destruct (needBatch si) eqn:Hn.
  - unfold refill. destruct (nextPage si) as [si1|] eqn:Hp; [|by split].
    destruct (nextPage_cursor _ _ Hp) as (Hb1 & Hi1 & _ & _).
    destruct (Search w (client si1) (params si1) (polled st))
      as [[res|e] st1].
    + destruct (Z.eqb_spec (lenResults res) 0) as [Hz|Hz].
      * cbn. split; [|done]. unfold cursorOK. cbn. lia.
      * assert (0 < lenResults res) by (unfold lenResults in *; lia).
        cbn. change (int_add (-1) 1) with 0.
        split; [unfold cursorOK; cbn; lia|]. intros _.
        destruct (Value_at (set_index (set_batch si1 res) 0) res)
          as (rec & Hrec & Hv); [reflexivity|cbn; lia|].
        exists res, rec. cbn in *. repeat split; try done; lia.
    + cbn. split; [|done]. unfold cursorOK in *. cbn. by rewrite Hb1, Hi1.
  - unfold needBatch in Hn. unfold cursorOK in Hok.
    destruct (currentBatch si) as [b|] eqn:Hb; [|discriminate].
    apply Z.leb_gt in Hn. specialize (Hmax b eq_refl).
    assert (Hadd : int_add (currentIndex si) 1 = currentIndex si + 1).
    { unfold int_add. apply wrap_in_range. unfold min_int, max_int in *. lia. }
    cbn. rewrite Hb, Hadd.
    split; [unfold cursorOK; cbn; rewrite Hb; lia|]. intros _.
    destruct (Value_at (set_index si (currentIndex si + 1)) b)
      as (rec & Hrec & Hv); [exact Hb|cbn; lia|].
    exists b, rec. cbn in *. repeat split; try done; lia.
Qed.

Lemma Next_cursor_witness :
  let r := Next pagedServer (SearchIter (testClient 3) testParams) initial in
  cursorOK (snd (fst r)) /\ fst (fst r) = true /\
  Value (snd (fst r)) = searchHit "0000-0000-0000-0001".
Proof.
  intros r.
  destruct (Next_cursor pagedServer (SearchIter (testClient 3) testParams)
              initial) as [H1 H2].
  - apply cursorOK_SearchIter.
  - intros b Hb. discriminate Hb.
  - split; [exact H1|]. split; reflexivity.
Defined.

Lemma Next_exhausted_step w si st :
  exhausted si ->
  let r := Next w si st in
  fst (fst r) = false /\ exhausted (snd (fst r)) /\
  currentBatch (snd (fst r)) = currentBatch si /\
  currentIndex (snd (fst r)) = currentIndex si /\
  params (snd (fst r)) = params si /\
  noIO st (snd r) /\ fetches (trace (snd r)) = fetches (trace st).
Proof.
  intros Hex r. subst r. pose proof Hex as (b & Hb & Hi & Ht).
  destruct (err si) as [e|] eqn:He.
  { rewrite (Next_failed _ _ _ _ He). cbn [fst snd].
    split; [done|]. split; [done|]. do 3 (split; [done|]).
    split; [apply noIO_refl|done]. }
  destruct (ctxDone w (selects st)) eqn:Hc.
  { rewrite (Next_cancelled _ _ _ He Hc). cbn [fst snd].
    split; [done|]. split; [by exists b|]. do 3 (split; [done|]).
    unfold noIO, emit, polled. cbn [calls trace].
    rewrite attempts_app, permits_app, fetches_app. cbn.
    rewrite !app_nil_r. repeat split. lia. }
  rewrite (Next_live _ _ _ He Hc).
  unfold needBatch, refill, nextPage. rewrite Hb.
  destruct (Z.leb_spec (lenResults b - 1) (currentIndex si)); [|lia].
  destruct (Z.leb_spec (totalResults si)
              (int_add (Start (params si)) (Rows (params si)))); [|lia].
  cbn [fst snd]. split; [done|]. split; [done|]. do 3 (split; [done|]).
  split; [|done]. by repeat split.
Qed.

(** X18: once the last record of the last page has been read, every
    further [Next] returns false, whatever the context does, and none of
    them fetches a page, takes a permit or calls the transport; page,
    cursor and parameters stay as they are. *)
Theorem Next_exhausted (w : World) (n : nat) (si : SearchIterator)
    (st : State) :
  exhausted si ->
  let r := nextN n w si st in
  fst (fst r) = replicate n false /\
  currentBatch (snd (fst r)) = currentBatch si /\
  currentIndex (snd (fst r)) = currentIndex si /\
  params (snd (fst r)) = params si /\
  noIO st (snd r) /\ fetches (trace (snd r)) = fetches (trace st).
Proof.
  revert si st. induction n as [|n IH]; intros si st Hex.
  - cbn. repeat split; try done.
  - cbn [nextN].
    pose proof (Next_exhausted_step w si st Hex) as H. cbv zeta in H.
    destruct (Next w si st) as [[b1 si1] st1]. cbn [fst snd] in H.
    destruct H as (-> & Hex1 & Hb1 & Hi1 & Hp1 & Hio1 & Hf1).
    specialize (IH si1 st1 Hex1). cbv zeta in IH.
    destruct (nextN n w si1 st1) as [[bs si2] st2]. cbn [fst snd] in IH |- *.
    destruct IH as (-> & Hb2 & Hi2 & Hp2 & Hio2 & Hf2).
    repeat split; try congruence.
    + apply (noIO_trans _ _ _ Hio1 Hio2).
    + apply (noIO_trans _ _ _ Hio1 Hio2).
    + apply (noIO_trans _ _ _ Hio1 Hio2).
Qed.

Lemma Next_exhausted_witness :
  let '(bs, si, st) :=
    nextN 6 pagedServer (SearchIter (testClient 3) testParams) initial in
  bs = [true; true; true; true; true; false] /\
  fst (fst (nextN 4 pagedServer si st)) = [false; false; false; false] /\
  fetches (trace (snd (nextN 4 pagedServer si st))) = fetches (trace st).
Proof.
  destruct (nextN 6 pagedServer (SearchIter (testClient 3) testParams) initial)
    as [[bs si] st] eqn:E.
  vm_compute in E. injection E as <- <- <-.
  split; [reflexivity|].
  match goal with |- fst (fst (nextN 4 _ ?si ?st)) = _ /\ _ =>
    destruct (Next_exhausted pagedServer 4 si st) as (H1 & _ & _ & _ & _ & H2)
  end.
  - eexists. split; [reflexivity|]. split; by vm_compute.
  - split; [exact H1|exact H2].
Defined.

Lemma set_index_same si i : currentIndex si = i -> set_index si i = si.
Proof. intros <-. by destruct si. Qed.

Lemma iter_polled_trace k st :
  trace (Nat.iter k polled st) = trace st /\
  calls (Nat.iter k polled st) = calls st.
Proof. induction k as [|k IH]; [done|]. cbn. exact IH. Qed.

(** The drain loop over the [k] records left on the current page. *)
Lemma drain_in_page w k :
  forall si st b fuel seen s t,
  neverDone w -> err si = None -> currentBatch si = Some b ->
  lenResults b <= max_int -> -1 <= currentIndex si ->
  currentIndex si + Z.of_nat k = lenResults b - 1 ->
  drain fuel w (set_index si (lenResults b - 1)) (Nat.iter k polled st)
    = Some (seen, s, t) ->
  drain (k + fuel) w si st
    = Some (map (fun r => (r, totalResults si))
              (drop (Z.to_nat (currentIndex si + 1)) (Results b)) ++ seen,
            s, t).
Proof.
  induction k as [|k IH]; intros si st b fuel seen s t Hw He Hb Hmax Hlo Hk Hd.
  - cbn [Nat.iter Nat.add] in *. rewrite set_index_same in Hd by lia.
    rewrite drop_ge by (unfold lenResults in Hk; lia). exact Hd.
  - cbn [Nat.add drain].
    destruct (Next_in_page w si st b He (Hw _) Hb) as [Hn Hv]; [lia|done|].
    rewrite Hn, Hv.
    rewrite (IH (set_index si (currentIndex si + 1)) (polled st) b fuel seen s t);
      try done; cbn [currentIndex set_index]; try lia.
    + cbn [mbind option_bind].
      destruct (lookup_lt_is_Some_2 (Results b) (Z.to_nat (currentIndex si + 1)))
        as [x Hx]; [unfold lenResults in Hk; lia|].
      rewrite (drop_S _ _ _ Hx), Hx. cbn.
      replace (S (Z.to_nat (currentIndex si + 1)))
        with (Z.to_nat (currentIndex si + 1 + 1)) by lia.
      reflexivity.
    + rewrite <- Hd. f_equal. by rewrite Nat.iter_succ_r.
Qed.

Lemma Next_fetch_page w si si1 st res st2 :
  err si = None -> ctxDone w (selects st) = false ->
  needBatch si = true -> nextPage si = Some si1 ->
  Search w (client si1) (params si1) (polled st) = (Ok res, st2) ->
  0 < lenResults res ->
  Next w si st = ((true, set_index (set_batch si1 res) 0), st2).
Proof.
  intros He Hc Hn Hp Hs Hl. rewrite (Next_live _ _ _ He Hc), Hn.
  unfold refill. rewrite Hp, Hs.
  destruct (Z.eqb_spec (lenResults res) 0); [lia|].
  cbn. change (int_add (-1) 1) with 0.
  by destruct (Z.ltb_spec 0 (lenResults res)); [|lia].
Qed.

Lemma Next_last_page w si st b :
  err si = None -> ctxDone w (selects st) = false ->
  currentBatch si = Some b -> lenResults b - 1 <= currentIndex si ->
  totalResults si <= int_add (Start (params si)) (Rows (params si)) ->
  Next w si st = ((false, si), polled st).
Proof.
  intros He Hc Hb Hi Ht. rewrite (Next_live _ _ _ He Hc).
  unfold needBatch, refill, nextPage. rewrite Hb.
  destruct (Z.leb_spec (lenResults b - 1) (currentIndex si)); [|lia].
  by destruct (Z.leb_spec (totalResults si)
              (int_add (Start (params si)) (Rows (params si)))); [|lia].
Qed.

Lemma drain_pages w c (Hw : neverDone w) pages :
  forall si si1 st fuel,
  pages <> [] -> err si = None ->
  needBatch si = true -> nextPage si = Some si1 -> client si1 = c ->
  paged w c (params si1) pages ->
  (length (flat_map pageItems pages) < fuel)%nat ->
  exists si' st',
    drain fuel w si st = Some (flat_map pageItems pages, si', st') /\
    fetches (trace st')
      = fetches (trace st) ++ pageParams (params si1) (length pages) /\
    exhausted si' /\ err si' = None.
Proof.
  induction pages as [|res rest IH]; intros si si1 st fuel Hne He Hn Hp Hc Hpg Hf;
    [done|].
  cbn [paged] in Hpg. destruct Hpg as (Hs & Hlen & Hrest).
  destruct (Hs (polled st)) as [st2 HS].
  destruct (nextPage_cursor _ _ Hp) as (_ & _ & He1 & _).
  rewrite He in He1.
  pose proof (Search_fetches w c (params si1) (polled st)) as Hfetch.
  rewrite HS in Hfetch. cbn [snd polled trace] in Hfetch.
  rewrite <- Hc in HS.
  pose proof (Next_fetch_page w si si1 st res st2 He (Hw _) Hn Hp HS
                ltac:(lia)) as HN.
  set (si2 := set_index (set_batch si1 res) 0) in *.
  destruct (Results res) as [|x xs] eqn:Hres;
    [unfold lenResults in Hlen; rewrite Hres in Hlen; cbn in Hlen; lia|].
  assert (Hl : lenResults res = Z.of_nat (S (length xs)))
    by (unfold lenResults; by rewrite Hres).
  cbn [flat_map] in Hf |- *. unfold pageItems at 1 in Hf.
  unfold pageItems at 1. rewrite Hres in Hf |- *.
  rewrite length_app, length_map in Hf. cbn [length] in Hf.
  destruct fuel as [|f]; [lia|].
  set (k := length xs) in *.
  assert (Hfuel : f = (k + (f - k))%nat) by lia.
  set (si3 := set_index si2 (lenResults res - 1)).
  set (st3 := Nat.iter k polled st2).
  assert (Htail : exists si' st',
    drain (f - k) w si3 st3 = Some (flat_map pageItems rest, si', st') /\
    fetches (trace st')
      = fetches (trace st2) ++ pageParams (followingPage (params si1))
                                 (length rest) /\
    exhausted si' /\ err si' = None).
  { destruct rest as [|res' rest'].
    - destruct (f - k)%nat as [|f'] eqn:Hfk; [lia|]. cbn [drain].
      rewrite (Next_last_page w si3 st3 res) by (done || (cbn; lia)).
      exists si3, (polled st3). cbn [flat_map length pageParams].
      rewrite app_nil_r. split; [done|]. split.
      + cbn [polled trace]. subst st3.
        by rewrite (proj1 (iter_polled_trace k st2)).
      + split; [|done]. exists res. cbn. split; [done|]. lia.
    - destruct Hrest as [Hmore Hpg'].
      replace (trace st2) with (trace st3)
        by (subst st3; apply iter_polled_trace).
      apply (IH si3 (set_params si3 (followingPage (params si1))) st3 (f - k)%nat).
      + done.
      + done.
      + unfold needBatch. cbn. apply Z.leb_le. lia.
      + unfold nextPage. cbn.
        by destruct (Z.leb_spec (NumFound res)
                       (int_add (Start (params si1)) (Rows (params si1))));
          [lia|].
      + exact Hc.
      + exact Hpg'.
      + lia. }
  destruct Htail as (si' & st' & Hd & Hfe & Hex & Herr).
  exists si', st'. split; [|split; [|by split]].
  - cbn [drain]. rewrite HN.
    replace (drain f w si2 st2) with (drain (k + (f - k)) w si2 st2)
      by (by rewrite <- Hfuel).
    rewrite (drain_in_page w k si2 st2 res (f - k)
               (flat_map pageItems rest) si' st' Hw);
      [|done|done|lia|by cbn|cbn; lia|exact Hd].
    cbn. rewrite Hres.
    destruct (Z.leb_spec (lenResults res) 0); [lia|]. reflexivity.
  - rewrite Hfe, Hfetch. cbn [length pageParams].
    by rewrite <- app_assoc.
Qed.

(** X19: over a context that is never cancelled and a world that serves a
    result set page by page, the drain loop
    [for iter.Next() { iter.Value(); iter.TotalResults() }] of a fresh
    iterator reads every record slot of every page, in order and once,
    each with the total its page reports; it fetches one page after the
    other, each exactly once, ends without an error and leaves the
    iterator exhausted. *)
Theorem drain_all_pages (w : World) (c : Client) (p : SearchParams)
    (pages : list SearchResult) (st : State) (fuel : nat) :
  neverDone w -> pages <> [] -> paged w c p pages ->
  (length (flat_map pageItems pages) < fuel)%nat ->
  exists si' st',
    drain fuel w (SearchIter c p) st
      = Some (flat_map pageItems pages, si', st') /\
    fetches (trace st') = fetches (trace st) ++ pageParams p (length pages) /\
    exhausted si' /\ Error si' = None.
Proof.
  intros Hw Hne Hpg Hf.
  apply (drain_pages w c Hw pages (SearchIter c p) (SearchIter c p) st fuel);
    done.
Qed.

Lemma drain_all_pages_witness :
  exists si' st',
    drain 6 pagedServer (SearchIter (testClient 3) testParams) initial
      = Some ([(searchHit "0000-0000-0000-0001", 25);
               (searchHit "0000-0000-0000-0002", 25);
               (searchHit "0000-0000-0000-0003", 25);
               (searchHit "0000-0000-0000-0004", 25);
               (searchHit "0000-0000-0000-0005", 25)], si', st') /\
    fetches (trace st')
      = [{| Query := "test"; Start := 0; Rows := 10 |};
         {| Query := "test"; Start := 10; Rows := 10 |};
         {| Query := "test"; Start := 20; Rows := 10 |}].
Proof.
  destruct (drain_all_pages pagedServer (testClient 3) testParams
    [ {| NumFound := 25; ResultStart := 0; NumRows := 10;
         Results := [searchHit "0000-0000-0000-0001";
                     searchHit "0000-0000-0000-0002"] |};
      {| NumFound := 25; ResultStart := 10; NumRows := 10;
         Results := [searchHit "0000-0000-0000-0003";
                     searchHit "0000-0000-0000-0004"] |};
      {| NumFound := 25; ResultStart := 20; NumRows := 10;
         Results := [searchHit "0000-0000-0000-0005"] |} ] initial 6)
    as (si' & st' & Hd & Hfe & _).
  - intros k. reflexivity.
  - discriminate.
  - cbn [paged]. repeat split; try (by vm_compute);
      intros st;
      match goal with |- exists st', ?s = _ =>
        destruct s as [r st'] eqn:E; vm_compute in E;
        injection E as <- <-; eexists; reflexivity
      end.
  - cbn. lia.
  - exists si', st'. split; [exact Hd|exact Hfe].
Defined.

Lemma followingPage_zero_rows p :
  Rows p = 0 -> min_int <= Start p <= max_int -> followingPage p = p.
Proof.
  intros Hr Hs. unfold followingPage. rewrite Hr. unfold int_add.
  rewrite Z.add_0_r, (wrap_in_range _ Hs), <- Hr. by destruct p.
Qed.

Lemma Next_zero_rows w c p res si st :
  neverDone w -> Rows p = 0 -> min_int <= Start p <= max_int ->
  (forall st, exists st', Search w c p st = (Ok res, st')) ->
  0 < lenResults res <= max_int -> Start p < NumFound res ->
  onPage c p res si ->
  exists si' st', Next w si st = ((true, si'), st') /\ onPage c p res si'.
Proof.
  intros Hw Hr Hs Hserve Hlen Hmore (He & Hc & Hp & Hb).
  pose proof (followingPage_zero_rows p Hr Hs) as Hsame.
  assert (Hadd : int_add (Start p) (Rows p) = Start p).
  { rewrite Hr. unfold int_add. rewrite Z.add_0_r. by apply wrap_in_range. }
  destruct (needBatch si) eqn:Hn.
  - assert (Hpage : exists si1, nextPage si = Some si1 /\ err si1 = None /\
                      client si1 = c /\ params si1 = p).
    { unfold nextPage. destruct (currentBatch si) as [b|] eqn:Hcb.
      - destruct Hb as (-> & _ & Ht). rewrite Hp, Ht, Hadd.
        destruct (Z.leb_spec (NumFound res) (Start p)); [lia|].
        eexists. split; [reflexivity|]. cbn. repeat split; try done.
        by destruct p.
      - by exists si. }
    destruct Hpage as (si1 & Hnp & He1 & Hc1 & Hp1).
    destruct (Hserve (polled st)) as [st2 HS]. rewrite <- Hc1, <- Hp1 in HS.
    exists (set_index (set_batch si1 res) 0), st2. split.
    + apply (Next_fetch_page w si si1 st res st2); try done. lia.
    + unfold onPage. cbn. repeat split; try done.
  - unfold needBatch in Hn.
    destruct (currentBatch si) as [b|] eqn:Hcb; [|discriminate].
    destruct Hb as (-> & Hlo & Ht). apply Z.leb_gt in Hn.
    destruct (Next_in_page w si st res He (Hw _) Hcb) as [HN _];
      [lia|lia|].
    exists (set_index si (currentIndex si + 1)), (polled st).
    split; [exact HN|]. unfold onPage. cbn. rewrite Hcb.
    repeat split; try done. lia.
Qed.

(** X20: a page size of zero is sent as the default of ten but moves the
    offset by nothing: when the world serves a page with a record slot
    and a total beyond the offset, the iterator asks for the same page
    again at every refill and [Next] never returns false, so the drain
    loop does not terminate. *)
Theorem drain_zero_rows (w : World) (c : Client) (p : SearchParams)
    (res : SearchResult) (st : State) (fuel : nat) :
  neverDone w -> Rows p = 0 -> min_int <= Start p <= max_int ->
  (forall st, exists st', Search w c p st = (Ok res, st')) ->
  0 < lenResults res <= max_int -> Start p < NumFound res ->
  drain fuel w (SearchIter c p) st = None /\
  fst (fst (nextN fuel w (SearchIter c p) st)) = replicate fuel true /\
  (forall q, q ∈ fetches (trace (snd (nextN fuel w (SearchIter c p) st))) ->
             q ∈ fetches (trace st) \/ q = p).
Proof.
  intros Hw Hr Hs Hserve Hlen Hmore.
  assert (Hinv : onPage c p res (SearchIter c p)) by done.
  revert Hinv. generalize (SearchIter c p). revert st.
  induction fuel as [|fuel IH]; intros st si Hinv.
  - cbn. split; [done|]. split; [done|]. intros q Hq. by left.
  - destruct (Next_zero_rows w c p res si st Hw Hr Hs Hserve Hlen Hmore Hinv)
      as (si' & st' & HN & Hinv').
    destruct (IH st' si' Hinv') as (Hd & Hb & Hq).
    cbn [drain nextN]. rewrite HN, Hd. split; [done|].
    destruct (nextN fuel w si' st') as [[bs si''] st''].
    cbn [fst snd] in *. split; [by rewrite Hb|].
    intros q Hin. destruct (Hq q Hin) as [Hold | ->]; [|by right].
    assert (Hstep : fetches (trace st') = fetches (trace st) \/
                    fetches (trace st') = fetches (trace st) ++ [p]).
    { destruct Hinv as (He & Hc & Hp & Hcb).
      destruct (currentBatch si) as [b|] eqn:Hbat.
      - pose proof (Next_paging w si st b Hbat) as H. cbv zeta in H.
        rewrite HN in H. cbn [fst snd] in H.
        destruct H as [[H _]|(_ & H & _)]; [by left|right].
        by rewrite H, Hp, (followingPage_zero_rows p Hr Hs).
      - right. pose proof (refill_spec w si (polled st)) as H.
        unfold nextPage in H. rewrite Hbat in H. destruct H as [H _].
        rewrite (Next_live _ _ _ He (Hw _)) in HN.
        unfold needBatch in HN. rewrite Hbat in HN.
        destruct (refill w si (polled st)) as [[s1|s1] t1]; cbn [snd] in H.
        + injection HN as _ _ <-. by rewrite H, Hp.
        + injection HN as _ _ <-. by rewrite H, Hp. }
    destruct Hstep as [Hst|Hst]; rewrite Hst in Hold.
    + by left.
    + apply elem_of_app in Hold as [?|Hl]; [by left|right].
      apply elem_of_cons in Hl as [Hl|Hl]; [done|]. by apply elem_of_nil in Hl.
Qed.

Lemma drain_zero_rows_witness :
  drain 50 pagedServer
    (SearchIter (testClient 3) {| Query := "test"; Start := 0; Rows := 0 |})
    initial = None.
Proof.
  refine (proj1 (drain_zero_rows pagedServer (testClient 3)
            {| Query := "test"; Start := 0; Rows := 0 |}
            {| NumFound := 25; ResultStart := 0; NumRows := 10;
               Results := [searchHit "0000-0000-0000-0001";
                           searchHit "0000-0000-0000-0002"] |}
            initial 50 _ _ _ _ _ _)).
  - intros k. reflexivity.
  - reflexivity.
  - by vm_compute.
  - intros st. destruct (Search _ _ _ st) as [r st'] eqn:E. vm_compute in E.
    injection E as <- <-. eexists. reflexivity.
  - by vm_compute.
  - by vm_compute.
Defined.

(* ===================================================================== *)
(** * The query builder *)
(* ===================================================================== *)

Lemma chain_snoc sq ks k : chain sq (ks ++ [k]) = call (chain sq ks) k.
Proof. unfold chain. by rewrite foldl_app. Qed.

Lemma terms_snoc ks k :
  filter (fun k => negb (isPaging k)) (ks ++ [k])
  = filter (fun k => negb (isPaging k)) ks ++ (if isPaging k then [] else [k]).
Proof. rewrite filter_app. f_equal. by destruct k. Qed.

Lemma chain_parts sq ks :
  SearchQuery.queryParts (chain sq ks)
  = SearchQuery.queryParts sq ++
    SearchQuery.queryParts
      (chain NewSearchQuery (filter (fun k => negb (isPaging k)) ks)).
Proof.
  induction ks as [|k ks IH] using rev_ind; [by rewrite app_nil_r|].
  rewrite terms_snoc, chain_snoc.
  destruct k; cbn -[chain]; rewrite ?app_nil_r, ?chain_snoc; cbn -[chain];
    rewrite IH, ?app_assoc; reflexivity.
Qed.

Lemma chain_window sq ks :
  Start (SearchQuery.params (chain sq ks))
    = lastStart ks (Start (SearchQuery.params sq)) /\
  Rows (SearchQuery.params (chain sq ks))
    = lastRows ks (Rows (SearchQuery.params sq)).
Proof.
  induction ks as [|k ks [IH1 IH2]] using rev_ind; [done|].
  unfold lastStart, lastRows in *. rewrite chain_snoc, !foldl_app.
  destruct k; cbn -[chain]; by rewrite ?IH1, ?IH2.
Qed.

(** X21: what a chain of builder calls builds.  The query is the parts of
    the term calls, in call order, joined by single spaces, after the
    parts the builder already held; each term call adds exactly one part;
    the window is the one the last [WithStart] and the last [WithRows]
    set, wherever they stand in the chain; and [Build] on the builder it
    leaves gives the same parameters again. *)
Theorem Build_chain (sq : SearchQuery.t) (ks : list Call) :
  let terms := filter (fun k => negb (isPaging k)) ks in
  let b := SearchQuery.Build (chain sq ks) in
  Query (fst b)
    = URL.join (SearchQuery.queryParts sq ++
                SearchQuery.queryParts (chain NewSearchQuery terms)) " " /\
  length (SearchQuery.queryParts (chain NewSearchQuery terms)) = length terms /\
  Start (fst b) = lastStart ks (Start (SearchQuery.params sq)) /\
  Rows (fst b) = lastRows ks (Rows (SearchQuery.params sq)) /\
  SearchQuery.Build (snd b) = b.
Proof.
  cbv zeta. split; [|split; [|split; [|split]]].
  - cbn. by rewrite chain_parts.
  - induction ks as [|k ks IH] using rev_ind; [done|].
    rewrite terms_snoc.
    destruct k; cbn -[chain]; rewrite ?app_nil_r, ?chain_snoc; try exact IH;
      cbn -[chain]; rewrite !length_app, IH; reflexivity.
  - cbn. apply chain_window.
  - cbn. apply chain_window.
  - reflexivity.
Qed.

(* ===================================================================== *)
(** * The fetchers and the path router *)
(* ===================================================================== *)

Lemma fetch_ok_inv {Doc : Type} (w : World) (k : Codec Doc) (c : Client)
    (t : Target) (url : string) (st st' : State) (d : Doc) :
  fetch w k c t url st = (Ok d, st') ->
  bearerToken c <> "" /\ (calls st < calls st')%nat /\
  exists resp,
    roundTrip w (calls st' - 1) (withHeaders c "GET" url None)
      = Responded resp /\
    StatusCode resp = 200 /\ readErr (RespBody resp) = None /\
    ((contentType c = ContentTypeJSON /\
      jsonDoc k t (data (RespBody resp)) = Ok d) \/
     (contentType c = ContentTypeXML /\
      xmlDoc k t (data (RespBody resp)) = Ok d)).
Proof.
  unfold fetch.
  destruct (doRequest w c "GET" url None st) as [[resp|e] st1] eqn:Hreq;
    [|discriminate].
  apply doRequest_ok_inv in Hreq as (Htok & H200 & Hlt & Hrt).
  destruct (readErr (RespBody resp)) eqn:Hread; [discriminate|].
  intros [= Hdec ->]. split; [done|]. split; [done|].
  exists resp. repeat split; try done.
  unfold unmarshalInto in Hdec.
  destruct (String.eqb_spec (contentType c) ContentTypeJSON) as [Hj|_];
    [by left|].
  destruct (String.eqb_spec (contentType c) ContentTypeXML) as [Hx|_];
    [by right|discriminate].
Qed.

(** X22: a fetcher returns a decoded struct only if the bearer token is
    set, the last transport call answered 200 with a body that could be
    read, and the decoder of the client's content type, which is JSON or
    XML, accepted that body. *)
Theorem fetch_ok_sound {Doc : Type} (w : World) (k : Codec Doc) (c : Client)
    (t : Target) (url : string) (st st' : State) (d : Doc) :
  fetch w k c t url st = (Ok d, st') ->
  bearerToken c <> "" /\ (calls st < calls st')%nat /\
  exists resp,
    roundTrip w (calls st' - 1) (withHeaders c "GET" url None)
      = Responded resp /\
    StatusCode resp = 200 /\ readErr (RespBody resp) = None /\
    ((contentType c = ContentTypeJSON /\
      jsonDoc k t (data (RespBody resp)) = Ok d) \/
     (contentType c = ContentTypeXML /\
      xmlDoc k t (data (RespBody resp)) = Ok d)).
Proof. apply fetch_ok_inv. Qed.

Lemma fetch_ok_sound_witness :
  exists st',
    GetRecord flakyServer echoCodec (testClient 3) "0000-0002-1825-0097" initial
      = (Ok "{}", st') /\
    (calls initial < calls st')%nat.
Proof.
  eexists. split; [reflexivity|].
  exact (proj1 (proj2 (fetch_ok_sound flakyServer echoCodec (testClient 3)
           TRecord _ initial _ "{}" eq_refl))).
Defined.

Lemma fetch_same_request {Doc : Type} (w : World) (k : Codec Doc) (c : Client)
    (t : Target) (url : string) (st : State) :
  exists n,
    attempts (trace (snd (fetch w k c t url st)))
      = attempts (trace st) ++ replicate n (withHeaders c "GET" url None) /\
    calls (snd (fetch w k c t url st)) = (calls st + n)%nat /\
    (n <= Z.to_nat (maxRetries c + 1))%nat /\
    (n = 0%nat \/ bearerToken c <> "").
Proof.
  unfold fetch.
  destruct (doRequest_same_request w c "GET" url None st) as (n & Ha & Hc & Ht).
  pose proof (doRequest_calls_bound w c "GET" url None st) as Hb.
  destruct (doRequest w c "GET" url None st) as [[resp|e] st1];
    cbn [snd] in *.
  - exists n. destruct (readErr (RespBody resp)); cbn [snd];
      repeat split; try done; lia.
  - exists n. repeat split; try done; lia.
Qed.

Lemma substring_all s : String.substring 0 (String.length s) s = s.
Proof. induction s as [|c s IH]; [done|]. cbn. by rewrite IH. Qed.

Lemma HasPrefix_slash c s : HasPrefix (String c s) "/" = byte_eqb c "/".
Proof.
  unfold HasPrefix, byte_eqb. cbn [String.prefix].
  destruct (Ascii.ascii_dec "/" c) as [<-|Hne].
  - by destruct s.
  - symmetry. apply Ascii.eqb_neq. congruence.
Qed.

Lemma TrimPrefix_slash r : TrimPrefix (String "/" r) "/" = r.
Proof.
  unfold TrimPrefix. rewrite HasPrefix_slash.
  cbn. rewrite Nat.sub_0_r. apply substring_all.
Qed.

Lemma TrimPrefix_other c r :
  byte_eqb c "/" = false -> TrimPrefix (String c r) "/" = String c r.
Proof. intros Hc. unfold TrimPrefix. by rewrite HasPrefix_slash, Hc. Qed.

Lemma SplitN2_app a b :
  ContainsByte a "/" = false -> SplitN2 (a +:+ String "/" b) "/" = [a; b].
Proof. intros H. unfold SplitN2. by rewrite (Cut_app _ _ _ H). Qed.

Lemma SplitN2_absent a :
  ContainsByte a "/" = false -> SplitN2 a "/" = [a].
Proof. intros H. unfold SplitN2. by rewrite (Cut_absent _ _ H). Qed.

(** [SplitN2] cuts at the first separator. *)
Lemma SplitN2_shape s :
  exists a, ContainsByte a "/" = false /\
    ((SplitN2 s "/" = [a] /\ s = a) \/
     (exists b, SplitN2 s "/" = [a; b] /\ s = a +:+ String "/" b)).
Proof.
  induction s as [|c s (a & Ha & IH)].
  - exists "". split; [done|]. by left.
  - destruct (byte_eqb c "/") eqn:Hc.
    + apply byte_eqb_eq in Hc as ->. exists "". split; [done|]. right.
      exists s. split; [|done]. unfold SplitN2. by cbn.
    + exists (String c a). split; [cbn; by rewrite Hc, Ha|].
      destruct IH as [[H1 ->]|(b & H1 & ->)].
      * left. split; [|done]. apply SplitN2_absent. cbn. by rewrite Hc, Ha.
      * right. exists b. split; [|done].
        apply (SplitN2_app (String c a)). cbn. by rewrite Hc, Ha.
Qed.

(** The first segment of a path is empty exactly for the empty path, the
    path of one slash and the paths that begin with two. *)
Lemma first_segment_empty path :
  hd "" (SplitN2 (TrimPrefix path "/") "/") = "" <->
  path = "" \/ path = "/" \/ HasPrefix path "//" = true.
Proof.
  assert (Hhd : forall s, hd "" (SplitN2 s "/") = "" <->
                          s = "" \/ HasPrefix s "/" = true).
  { intros s. destruct s as [|c s]; [cbn; by split; [left|]|].
    rewrite HasPrefix_slash. unfold SplitN2. cbn [URL.Cut].
    destruct (byte_eqb c "/") eqn:Hc.
    - cbn. split; [by right|done].
    - destruct (URL.Cut s "/") as [[b a] f].
      destruct f; cbn; split; try done; by intros [|]. }
  rewrite Hhd. destruct path as [|c r].
  - cbn. split; [by left|by left].
  - assert (Hpp : HasPrefix (String c r) "//"
                  = byte_eqb c "/" && HasPrefix r "/").
    { unfold HasPrefix at 1. cbn [String.prefix].
      destruct (Ascii.ascii_dec "/" c) as [<-|Hne]; [done|].
      assert (byte_eqb c "/" = false) as ->; [|done].
      apply Ascii.eqb_neq. congruence. }
    rewrite Hpp. destruct (byte_eqb c "/") eqn:Hc.
    + apply byte_eqb_eq in Hc as ->. rewrite TrimPrefix_slash. cbn [andb].
      split.
      * intros [->|H]; [by right; left|by right; right].
      * intros [H|[H|H]]; [discriminate|left; by injection H|by right].
    + rewrite (TrimPrefix_other _ _ Hc), HasPrefix_slash, Hc.
      split; [by intros [|]|]. intros [H|[H|H]]; try discriminate.
      injection H as -> _. by vm_compute in Hc.
Qed.

Lemma snd_whole {Doc : Type} (r : Result Doc * State) : snd (whole r) = snd r.
Proof. by destruct r as [[d|e] s]. Qed.

Lemma personField_names base name :
  personField base = Some name ->
  base = "biography" \/ base = "other-names" \/ base = "researcher-urls" \/
  base = "email" \/ base = "address" \/ base = "keywords" \/
  base = "external-identifiers".
Proof.
  unfold personField.
  repeat match goal with
         | |- context [String.eqb base ?x] =>
             destruct (String.eqb_spec base x) as [->|_]; [tauto|]
         end.
  discriminate.
Qed.

(** What a call of [GetByPath] comes to: a refusal without any request,
    or one fetch below the first segment of the path. *)
Lemma GetByPath_routes {Doc : Type} (w : World) (k : Codec Doc) (c : Client)
    (path : string) (st : State) :
  let id := hd "" (SplitN2 (TrimPrefix path "/") "/") in
  let r := GetByPath w k c path st in
  (id = "" /\ r = (Failed (ErrInvalidPath path), st)) \/
  (id <> "" /\ r = (Failed (ErrWorkPutCode path), st)) \/
  (id <> "" /\ exists t tail,
     let f := fetch w k c t (apiURL c +:+ "/" +:+ id +:+ "/" +:+ tail) st in
     snd r = snd f /\
     match fst f with
     | Ok d => fst r = Got (Whole d) \/
               (exists name, fst r = Got (Field name d)) \/
               fst r = Failed (ErrUnsupportedResource path)
     | Err e => fst r = Failed (ErrFetch e) \/
                fst r = Failed (ErrUnsupportedResource path)
     end).
Proof.
  cbv zeta. unfold GetByPath.
  destruct (SplitN2 (TrimPrefix path "/") "/") as [|id rest]; cbn [hd];
    [by left|].
  destruct (String.eqb_spec id "") as [->|Hid]; [by left|].
  right.
  assert (Hwhole : forall t tail,
    let f := fetch w k c t (apiURL c +:+ "/" +:+ id +:+ "/" +:+ tail) st in
    snd (whole f) = snd f /\
    match fst f with
    | Ok d => fst (whole f) = Got (Whole d) \/
              (exists name, fst (whole f) = Got (Field name d)) \/
              fst (whole f) = Failed (ErrUnsupportedResource path)
    | Err e => fst (whole f) = Failed (ErrFetch e) \/
               fst (whole f) = Failed (ErrUnsupportedResource path)
    end).
  { intros t tail f. destruct f as [[d|e] s]; cbn; split; try done; by left. }
  destruct rest as [|resourceType rest'].
  { right. split; [done|]. exists TRecord, "record". apply Hwhole. }
  destruct (String.eqb resourceType "record").
  { right. split; [done|]. exists TRecord, "record". apply Hwhole. }
  set (base := hd "" (SplitN2 resourceType "/")).
  destruct (String.eqb base "person").
  { right. split; [done|]. exists TPerson, "person". apply Hwhole. }
  destruct (String.eqb base "works").
  { right. split; [done|]. exists TWorks, "works". apply Hwhole. }
  destruct (String.eqb base "work").
  { destruct (SplitN2 resourceType "/") as [|x [|putCode [|y l]]];
      try (by left).
    right. split; [done|]. exists TWork, ("work/" +:+ putCode). apply Hwhole. }
  destruct (String.eqb base "educations").
  { right. split; [done|]. exists TEducations, "educations". apply Hwhole. }
  destruct (String.eqb base "employments").
  { right. split; [done|]. exists TEmployments, "employments". apply Hwhole. }
  destruct (String.eqb base "fundings").
  { right. split; [done|]. exists TFundings, "fundings". apply Hwhole. }
  destruct (String.eqb base "peer-reviews").
  { right. split; [done|]. exists TPeerReviews, "peer-reviews". apply Hwhole. }
  destruct (String.eqb base "distinctions").
  { right. split; [done|]. exists TDistinctions, "distinctions". apply Hwhole. }
  destruct (String.eqb base "invited-positions").
  { right. split; [done|].
    exists TInvitedPositions, "invited-positions". apply Hwhole. }
  destruct (String.eqb base "memberships").
  { right. split; [done|]. exists TMemberships, "memberships". apply Hwhole. }
  destruct (String.eqb base "qualifications").
  { right. split; [done|].
    exists TQualifications, "qualifications". apply Hwhole. }
  destruct (String.eqb base "services").
  { right. split; [done|]. exists TServices, "services". apply Hwhole. }
  destruct (String.eqb base "research-resources").
  { right. split; [done|].
    exists TResearchResources, "research-resources". apply Hwhole. }
  destruct (String.eqb base "activities").
  { right. split; [done|]. exists TRecord, "record".
    unfold GetRecord, resourceURL. cbv zeta.
    destruct (fetch w k c TRecord _ st) as [[d|e] s]; cbn.
    - split; [done|]. right. left. by eexists.
    - split; [done|]. by left. }
  right. split; [done|]. exists TPerson, "person".
  unfold GetPerson, resourceURL. cbv zeta. clearbody base.
  destruct (personField base) as [name|] eqn:Hpf.
  - destruct (fetch w k c TPerson _ st) as [[d|e] s]; cbn;
      [|split; [done|by left]].
    repeat match goal with
           | |- context [String.eqb base ?x] =>
               destruct (String.eqb base x) eqn:?;
                 [split; [reflexivity|]; right; left; eexists; reflexivity|]
           end.
    exfalso. apply personField_names in Hpf.
    repeat destruct Hpf as [Hpf|Hpf]; subst base;
      repeat match goal with
             | H : String.eqb _ _ = false |- _ =>
                 vm_compute in H; try discriminate H; clear H
             end.
  - destruct (fetch w k c TPerson _ st) as [[d|e] s]; cbn;
      [|split; [done|by right]].
    repeat match goal with
           | |- context [String.eqb base ?x] =>
               destruct (String.eqb_spec base x) as [->|_];
                 [vm_compute in Hpf; discriminate Hpf|]
           end.
    split; [reflexivity|]. right; right. reflexivity.
Qed.


Lemma path_parts lead id :
  lead = "" \/ lead = "/" -> id <> "" -> ContainsByte id "/" = false ->
  TrimPrefix (lead +:+ id) "/" = id /\
  forall rest,
    TrimPrefix (lead +:+ id +:+ String "/" rest) "/" = id +:+ String "/" rest.
Proof.
  intros Hlead Hid Hs. destruct id as [|x r]; [done|].
  cbn in Hs. apply orb_false_iff in Hs as [Hx _].
  destruct Hlead as [->| ->].
  - split; [|intros rest]; by apply TrimPrefix_other.
  - split; [|intros rest]; apply TrimPrefix_slash.
Qed.

(** X23: [GetByPath] refuses a path as invalid exactly when its first
    segment is empty, that is for the empty path, the path of one slash
    and the paths that begin with two slashes; it then returns at once,
    without a select, a permit or a transport call. *)
Theorem GetByPath_invalid_path {Doc : Type} (w : World) (k : Codec Doc)
    (c : Client) (path : string) (st : State) :
  let r := GetByPath w k c path st in
  let empty := path = "" \/ path = "/" \/ HasPrefix path "//" = true in
  ((exists p, fst r = Failed (ErrInvalidPath p)) <-> empty) /\
  (empty <-> r = (Failed (ErrInvalidPath path), st)).
Proof.
  cbv zeta. rewrite <- first_segment_empty.
  pose proof (GetByPath_routes w k c path st) as H. cbv zeta in H.
  destruct H as [[Hid Hr]|[[Hid Hr]|(Hid & t & tail & Hs & Hf)]].
  - rewrite Hr. split; split; try done. intros _. by eexists.
  - rewrite Hr. split; split; try done;
      try (by intros [p [=]]); by intros [=].
  - assert (Hno : forall p,
              fst (GetByPath w k c path st) <> Failed (ErrInvalidPath p)).
    { intros p Hp. rewrite Hp in Hf.
      destruct (fst (fetch w k c t _ st)).
      - destruct Hf as [Hf|[[name Hf]|Hf]]; discriminate Hf.
      - destruct Hf as [Hf|Hf]; discriminate Hf. }
    split; split; try done.
    + intros [p Hp]. by destruct (Hno p).
    + intros Hr. destruct (Hno path). by rewrite Hr.
Qed.

(** X24: the closing [return] of [GetByPath], with its error
    "unsupported path", cannot be reached: no call returns that error. *)
Theorem GetByPath_unsupported_path_unreachable {Doc : Type} (w : World)
    (k : Codec Doc) (c : Client) (path p : string) (st : State) :
  fst (GetByPath w k c path st) <> Failed (ErrUnsupportedPath p).
Proof.
  intros Hp.
  pose proof (GetByPath_routes w k c path st) as H. cbv zeta in H.
  destruct H as [[Hid Hr]|[[Hid Hr]|(Hid & t & tail & Hs & Hf)]].
  - by rewrite Hr in Hp.
  - by rewrite Hr in Hp.
  - rewrite Hp in Hf.
    destruct (fst (fetch w k c t _ st)).
    + destruct Hf as [Hf|[[name Hf]|Hf]]; discriminate Hf.
    + destruct Hf as [Hf|Hf]; discriminate Hf.
Qed.

(** X25: the requests of one call of [GetByPath] are all the same GET
    request, at most [maxRetries + 1] of them, and its URL lies below the
    first segment of the path on the base URL; a path with an empty
    first segment and a client without a token send nothing. *)
Theorem GetByPath_requests {Doc : Type} (w : World) (k : Codec Doc)
    (c : Client) (path : string) (st : State) :
  let id := hd "" (SplitN2 (TrimPrefix path "/") "/") in
  let st' := snd (GetByPath w k c path st) in
  exists n req,
    attempts (trace st') = attempts (trace st) ++ replicate n req /\
    calls st' = (calls st + n)%nat /\
    (n <= Z.to_nat (maxRetries c + 1))%nat /\
    (n = 0%nat \/
     (id <> "" /\ bearerToken c <> "" /\ Method req = "GET" /\
      ReqBody req = None /\
      exists tail, ReqURL req = apiURL c +:+ "/" +:+ id +:+ "/" +:+ tail)).
Proof.
  cbv zeta.
  pose proof (GetByPath_routes w k c path st) as H. cbv zeta in H.
  assert (Hnone : forall req : Request,
    attempts (trace st) = attempts (trace st) ++ replicate 0 req /\
    calls st = (calls st + 0)%nat /\
    (0 <= Z.to_nat (maxRetries c + 1))%nat)
    by (intros req; cbn; rewrite app_nil_r; repeat split; lia).
  destruct H as [[Hid ->]|[[Hid ->]|(Hid & t & tail & -> & _)]].
  - exists 0%nat, (withHeaders c "GET" "" None).
    destruct (Hnone (withHeaders c "GET" "" None)) as (?&?&?).
    repeat split; try done. by left.
  - exists 0%nat, (withHeaders c "GET" "" None).
    destruct (Hnone (withHeaders c "GET" "" None)) as (?&?&?).
    repeat split; try done. by left.
  - destruct (fetch_same_request w k c t
                (apiURL c +:+ "/" +:+
                 hd "" (SplitN2 (TrimPrefix path "/") "/") +:+ "/" +:+ tail) st)
      as (n & Ha & Hc & Hb & Ht).
    exists n, (withHeaders c "GET"
                 (apiURL c +:+ "/" +:+
                  hd "" (SplitN2 (TrimPrefix path "/") "/") +:+ "/" +:+ tail)
                 None).
    split; [done|]. split; [done|]. split; [done|].
    destruct Ht as [->|Ht]; [by left|right].
    repeat split; try done. by exists tail.
Qed.

Lemma route_parts lead id resourceType :
  lead = "" \/ lead = "/" -> id <> "" -> ContainsByte id "/" = false ->
  SplitN2 (TrimPrefix (lead +:+ id +:+ String "/" resourceType) "/") "/"
    = [id; resourceType].
Proof.
  intros Hlead Hid Hs. destruct (path_parts lead id Hlead Hid Hs) as [_ ->].
  by apply SplitN2_app.
Qed.

Lemma base_parts name suffix :
  ContainsByte name "/" = false ->
  suffix = "" \/ (exists r, suffix = String "/" r) ->
  hd "" (SplitN2 (name +:+ suffix) "/") = name.
Proof.
  intros Hn [->|[r ->]].
  - by rewrite append_nil_r, (SplitN2_absent _ Hn).
  - by rewrite (SplitN2_app _ _ Hn).
Qed.

Ltac solve_elem :=
  rewrite !elem_of_cons; repeat first [left; reflexivity | right].

Ltac eval_eqb :=
  repeat match goal with
         | |- context [String.eqb ?a ?b] =>
             let v := eval vm_compute in (String.eqb a b) in
             change (String.eqb a b) with v; cbv iota
         end.

Lemma directResources_cases name t :
  (name, t) ∈ directResources ->
  (name, t) = ("person", TPerson) \/ (name, t) = ("works", TWorks) \/
  (name, t) = ("educations", TEducations) \/
  (name, t) = ("employments", TEmployments) \/
  (name, t) = ("fundings", TFundings) \/
  (name, t) = ("peer-reviews", TPeerReviews) \/
  (name, t) = ("distinctions", TDistinctions) \/
  (name, t) = ("invited-positions", TInvitedPositions) \/
  (name, t) = ("memberships", TMemberships) \/
  (name, t) = ("qualifications", TQualifications) \/
  (name, t) = ("services", TServices) \/
  (name, t) = ("research-resources", TResearchResources).
Proof.
  unfold directResources. rewrite !elem_of_cons, elem_of_nil. tauto.
Qed.

Lemma direct_not_record name t suffix :
  (name, t) ∈ directResources ->
  ContainsByte name "/" = false /\
  String.eqb (name +:+ suffix) "record" = false.
Proof.
  intros H%directResources_cases.
  repeat destruct H as [H|H]; injection H as -> ->; split; reflexivity.
Qed.

(** X26: a path [/id/name], with or without its leading slash, where
    [name] is one of the twelve resources with a fetcher of their own,
    is answered by that fetcher: one fetch of [apiURL/id/name], decoded
    into the struct of the resource.  Whatever follows the name after a
    further slash (a put-code) is ignored. *)
Theorem GetByPath_direct {Doc : Type} (w : World) (k : Codec Doc) (c : Client)
    (lead id name suffix : string) (t : Target) (st : State) :
  lead = "" \/ lead = "/" -> id <> "" -> ContainsByte id "/" = false ->
  (name, t) ∈ directResources ->
  suffix = "" \/ (exists r, suffix = String "/" r) ->
  GetByPath w k c (lead +:+ id +:+ String "/" (name +:+ suffix)) st
    = whole (fetch w k c t (resourceURL c id name) st).
Proof.
  intros Hlead Hid Hs Hin Hsuf. unfold GetByPath. cbv zeta.
  rewrite (route_parts lead id _ Hlead Hid Hs).
  assert (String.eqb id "" = false) as -> by by apply String.eqb_neq.
  destruct (direct_not_record name t suffix Hin) as [Hn ->].
  rewrite (base_parts name suffix Hn Hsuf).
  apply directResources_cases in Hin.
  repeat destruct Hin as [Hin|Hin]; injection Hin as -> ->;
    eval_eqb; reflexivity.
Qed.

Lemma GetByPath_direct_witness :
  GetByPath flakyServer echoCodec (testClient 3)
    "/0000-0003-1401-2056/works/92636200" initial
  = whole (GetWorks flakyServer echoCodec (testClient 3)
             "0000-0003-1401-2056" initial).
Proof.
  apply (GetByPath_direct flakyServer echoCodec (testClient 3)
           "/" "0000-0003-1401-2056" "works" "/92636200" TWorks initial).
  - by right.
  - discriminate.
  - reflexivity.
  - unfold directResources. solve_elem.
  - right. by eexists.
Defined.

(** X27: for a resource name that has no case of its own (also the empty
    name of a path that ends in a slash, and [record] followed by
    anything), [GetByPath] still requests the person of the first
    segment, and then returns the error "unsupported resource type"
    whatever that request came to. *)
Theorem GetByPath_unknown_resource {Doc : Type} (w : World) (k : Codec Doc)
    (c : Client) (lead id name suffix : string) (st : State) :
  lead = "" \/ lead = "/" -> id <> "" -> ContainsByte id "/" = false ->
  ContainsByte name "/" = false -> name ∉ knownResources ->
  suffix = "" \/ (exists r, suffix = String "/" r) ->
  name +:+ suffix <> "record" ->
  let path := lead +:+ id +:+ String "/" (name +:+ suffix) in
  GetByPath w k c path st
    = (Failed (ErrUnsupportedResource path),
       snd (GetPerson w k c id st)).
Proof.
  intros Hlead Hid Hs Hn Hnot Hsuf Hrec path. subst path.
  unfold GetByPath. cbv zeta.
  rewrite (route_parts lead id _ Hlead Hid Hs).
  destruct (String.eqb_spec id "") as [->|_]; [done|].
  destruct (String.eqb_spec (name +:+ suffix) "record") as [|_]; [done|].
  rewrite (base_parts name suffix Hn Hsuf).
  unfold knownResources in Hnot. rewrite !not_elem_of_cons in Hnot.
  repeat match type of Hnot with
         | _ /\ _ => let H := fresh "Hne" in destruct Hnot as [H Hnot]
         end.
  assert (Hfield : personField name = None).
  { unfold personField.
    repeat match goal with
           | H : name <> ?x |- context [String.eqb name ?x] =>
               rewrite (proj2 (String.eqb_neq name x) H)
           end.
    reflexivity. }
  rewrite Hfield.
  repeat match goal with
         | H : name <> ?x |- context [String.eqb name ?x] =>
             rewrite (proj2 (String.eqb_neq name x) H)
         end.
  by destruct (GetPerson w k c id st) as [[d|e] s].
Qed.

Lemma GetByPath_unknown_resource_witness :
  GetByPath flakyServer echoCodec (testClient 3)
    "/0000-0003-1401-2056/record/1" initial
  = (Failed (ErrUnsupportedResource "/0000-0003-1401-2056/record/1"),
     snd (GetPerson flakyServer echoCodec (testClient 3)
            "0000-0003-1401-2056" initial)) /\
  calls (snd (GetPerson flakyServer echoCodec (testClient 3)
                "0000-0003-1401-2056" initial)) = 3%nat.
Proof.
  split; [|reflexivity].
  apply (GetByPath_unknown_resource flakyServer echoCodec (testClient 3)
           "/" "0000-0003-1401-2056" "record" "/1" initial).
  - by right.
  - discriminate.
  - reflexivity.
  - reflexivity.
  - unfold knownResources. rewrite !elem_of_cons, elem_of_nil.
    intros H. repeat destruct H as [H|H]; discriminate H || exact H.
  - right. by eexists.
  - discriminate.
Defined.

(** X28: the record and work routes.  A path of one segment and a path
    whose second part is exactly [record] fetch the record of the first
    segment; [work] followed by a slash fetches the work whose put-code
    is everything after that slash, be it empty or with slashes of its
    own; [work] alone is refused without a request. *)
Theorem GetByPath_record_work {Doc : Type} (w : World) (k : Codec Doc)
    (c : Client) (lead id : string) (st : State) :
  lead = "" \/ lead = "/" -> id <> "" -> ContainsByte id "/" = false ->
  GetByPath w k c (lead +:+ id) st = whole (GetRecord w k c id st) /\
  GetByPath w k c (lead +:+ id +:+ "/record") st
    = whole (GetRecord w k c id st) /\
  GetByPath w k c (lead +:+ id +:+ "/work") st
    = (Failed (ErrWorkPutCode (lead +:+ id +:+ "/work")), st) /\
  forall putCode,
    GetByPath w k c (lead +:+ id +:+ "/work/" +:+ putCode) st
      = whole (GetWork w k c id putCode st).
Proof.
  intros Hlead Hid Hs.
  assert (Hne : String.eqb id "" = false) by by apply String.eqb_neq.
  split; [|split; [|split]].
  - unfold GetByPath. cbv zeta.
    destruct (path_parts lead id Hlead Hid Hs) as [-> _].
    by rewrite (SplitN2_absent _ Hs), Hne.
  - unfold GetByPath. cbv zeta.
    change (lead +:+ id +:+ "/record") with (lead +:+ id +:+ String "/" "record").
    by rewrite (route_parts lead id _ Hlead Hid Hs), Hne.
  - unfold GetByPath. cbv zeta.
    change (lead +:+ id +:+ "/work") with (lead +:+ id +:+ String "/" "work").
    by rewrite (route_parts lead id _ Hlead Hid Hs), Hne.
  - intros putCode. unfold GetByPath. cbv zeta.
    change (lead +:+ id +:+ "/work/" +:+ putCode)
      with (lead +:+ id +:+ String "/" ("work" +:+ String "/" putCode)).
    rewrite (route_parts lead id _ Hlead Hid Hs), Hne.
    rewrite (SplitN2_app "work" putCode eq_refl). reflexivity.
Qed.

Lemma GetByPath_record_work_witness :
  GetByPath flakyServer echoCodec (testClient 3) "0000-0003-1401-2056" initial
  = whole (GetRecord flakyServer echoCodec (testClient 3)
             "0000-0003-1401-2056" initial).
Proof.
  refine (proj1 (GetByPath_record_work flakyServer echoCodec (testClient 3)
                   "" "0000-0003-1401-2056" initial _ _ _)).
  - by left.
  - discriminate.
  - reflexivity.
Defined.

(* ===================================================================== *)
(** * Queries on the wire *)
(* ===================================================================== *)

Lemma expanded_search_query (base query : string) :
  ContainsByte base "?" = false -> ContainsByte base "#" = false ->
  URL.Query_ (base +:+ "/expanded-search/?q=" +:+ URL.QueryEscape query)
    = {[ "q" := [query] ]}.
Proof.
  intros Hq Hf. unfold URL.Query_, URL.RawQuery.
  destruct (QueryEscape_delims query) as (H1 & H2 & H3 & H4).
  set (e := URL.QueryEscape query) in *.
  rewrite Cut_absent by (rewrite !ContainsByte_app, Hf, H4; done).
  change (base +:+ "/expanded-search/?q=" +:+ e)
    with (base +:+ "/expanded-search/" +:+ String "?" ("q=" +:+ e)).
  rewrite <- append_assoc.
  rewrite Cut_app by (rewrite ContainsByte_app, Hq; done).
  unfold URL.ParseQuery.
  rewrite Split_absent by (cbn; exact H1).
  cbn [foldl]. subst e.
  change ("q=" +:+ URL.QueryEscape query)
    with ("q" +:+ String "=" (URL.QueryEscape query)).
  rewrite parsePair_encoded by done.
  by rewrite lookup_empty.
Qed.

(** X29: [ExpandedSearch] sends GET requests, all the same and at most
    [maxRetries + 1], to [apiURL/expanded-search/] with the one
    parameter [q]; a server that parses the URL reads back the query
    string as the caller gave it, whatever bytes it holds (the base URL
    having no query or fragment of its own). *)
Theorem ExpandedSearch_query {Doc : Type} (w : World) (k : Codec Doc)
    (c : Client) (query : string) (st : State) :
  ContainsByte (apiURL c) "?" = false -> ContainsByte (apiURL c) "#" = false ->
  let st' := snd (ExpandedSearch w k c query st) in
  exists n req,
    attempts (trace st') = attempts (trace st) ++ replicate n req /\
    (n <= Z.to_nat (maxRetries c + 1))%nat /\
    Method req = "GET" /\
    ReqURL req
      = apiURL c +:+ "/expanded-search/?q=" +:+ URL.QueryEscape query /\
    URL.Query_ (ReqURL req) = {[ "q" := [query] ]}.
Proof.
  intros Hq Hf. cbv zeta. unfold ExpandedSearch.
  destruct (fetch_same_request w k c TExpandedSearchResult
              (apiURL c +:+ "/expanded-search/?q=" +:+ URL.QueryEscape query) st)
    as (n & Ha & _ & Hb & _).
  eexists n, _. split; [exact Ha|]. split; [exact Hb|].
  split; [reflexivity|]. split; [reflexivity|].
  by apply expanded_search_query.
Qed.

Lemma ExpandedSearch_query_witness :
  URL.Query_ ("http://127.0.0.1:8080/v3.0/expanded-search/?q="
              +:+ URL.QueryEscape "family-name:O'Neil & sons #1")
    = {[ "q" := ["family-name:O'Neil & sons #1"] ]}.
Proof.
  destruct (ExpandedSearch_query flakyServer echoCodec (testClient 3)
              "family-name:O'Neil & sons #1" initial eq_refl eq_refl)
    as (n & req & _ & _ & _ & Hurl & Hquery).
  rewrite Hurl in Hquery. exact Hquery.
Defined.

Lemma Get_searchValues_q p : URL.Get (searchValues p) "q" = Query p.
Proof.
  unfold URL.Get, searchValues, URL.Set_.
  destruct (0 <? Start p), (0 <? Rows p); by simplify_map_eq.
Qed.

Lemma Search_same_request w c p st :
  exists n,
    attempts (trace (snd (Search w c p st)))
      = attempts (trace st)
        ++ replicate n (withHeaders c "GET" (buildSearchURL c p) None) /\
    (n <= Z.to_nat (maxRetries c + 1))%nat.
Proof.
  unfold Search.
  destruct (doRequest_same_request w c "GET" (buildSearchURL c p) None
              (emit (EvSearch p) st)) as (n & Ha & Hc & _).
  pose proof (doRequest_calls_bound w c "GET" (buildSearchURL c p) None
                (emit (EvSearch p) st)) as Hb.
  assert (He : attempts (trace (emit (EvSearch p) st)) = attempts (trace st)).
  { cbn. rewrite attempts_app. cbn. by rewrite app_nil_r. }
  rewrite He in Ha. cbn [emit calls] in Hc, Hb.
  exists n.
  destruct (doRequest w c "GET" _ None _) as [[resp|e] st1]; cbn [snd] in *.
  - destruct (readErr (RespBody resp)); cbn [snd]; split; try done; lia.
  - split; [done|lia].
Qed.

(** X30: [SearchWithQuery] builds the parameters once and searches with
    them: one page fetch, whose requests all carry the URL of those
    parameters, and a server that parses that URL finds under [q] the
    parts of the builder joined by single spaces (the base URL having no
    query or fragment of its own).  The builder is left as [Build]
    leaves it. *)
Theorem SearchWithQuery_sends (w : World) (c : Client) (sq : SearchQuery.t)
    (st : State) :
  ContainsByte (apiURL c) "?" = false -> ContainsByte (apiURL c) "#" = false ->
  let r := SearchWithQuery w c sq st in
  let p := fst (SearchQuery.Build sq) in
  fetches (trace (snd r)) = fetches (trace st) ++ [p] /\
  snd (fst r) = snd (SearchQuery.Build sq) /\
  exists n req,
    attempts (trace (snd r)) = attempts (trace st) ++ replicate n req /\
    (n <= Z.to_nat (maxRetries c + 1))%nat /\
    ReqURL req = buildSearchURL c p /\
    URL.Get (URL.Query_ (ReqURL req)) "q"
      = URL.join (SearchQuery.queryParts sq) " ".
Proof.
  intros Hq Hf. cbv zeta. unfold SearchWithQuery.
  cbn [SearchQuery.Build fst snd SearchQuery.params].
  set (p := {| Query := URL.join (SearchQuery.queryParts sq) " ";
               Start := Start (SearchQuery.params sq);
               Rows := Rows (SearchQuery.params sq) |}).
  pose proof (Search_fetches w c p st) as Hfe.
  destruct (Search_same_request w c p st) as (n & Ha & Hb).
  destruct (Search w c p st) as [res st1]. cbn [fst snd] in *.
  split; [exact Hfe|]. split; [reflexivity|].
  eexists n, _. split; [exact Ha|]. split; [exact Hb|].
  split; [reflexivity|].
  cbn [withHeaders ReqURL].
  by rewrite (Query_buildSearchURL c p Hq Hf), Get_searchValues_q.
Qed.

Lemma SearchWithQuery_sends_witness :
  let sq := chain NewSearchQuery
              [CallFamilyName "van Beethoven"; CallAnd; CallGivenNames "Ludwig"] in
  fetches (trace (snd (SearchWithQuery pagedServer (testClient 3) sq initial)))
    = [{| Query := String.append "family-name:"
                     (String.append (SearchQuery.phrase "van Beethoven")
                        " AND given-names:Ludwig");
          Start := 0; Rows := 10 |}].
Proof.
  intros sq.
  exact (proj1 (SearchWithQuery_sends pagedServer (testClient 3) sq initial
                  eq_refl eq_refl)).
Defined.
